(** * The writing-squad chat orchestrator: a shallow embedding

    The development follows three source files:
    - [src/types.ts]: [RoleId], [ChatMessage], [Persona];
    - [src/services/geminiService.ts]: [determineNextAgent],
      [applyEditorFixes] and the other calls to the hosted model;
    - [src/components/CollaborativeEditor.tsx]: [handleSend],
      [updateAiMessage] and [parseMessageContent].

    JavaScript strings are sequences of UTF-16 code units; they are modelled
    as lists of [N].  React state is threaded explicitly through a small
    state-and-exception monad; every call to the hosted model is answered by
    a [Gateway] record and recorded in a call log. *)

From Stdlib Require Import String Ascii.
From Stdlib Require Import List NArith Bool Arith Lia.
Import ListNotations.

Set Implicit Arguments.

(* ================================================================== *)
(** * JavaScript strings *)
(* ================================================================== *)

Module JsString.

Definition code_unit := N.
Definition jsstring := list code_unit.

(** ** Literals

    String literals of the source are written here as Rocq strings (UTF-8
    bytes) and decoded into the UTF-16 code units the JavaScript engine
    holds. *)

Fixpoint utf8_code_points (bs : list N) : list N :=
  match bs with
  | [] => []
  | b0 :: r0 =>
    if (b0 <? 0x80)%N then b0 :: utf8_code_points r0
    else if (b0 <? 0xE0)%N then
      match r0 with
      | b1 :: r1 =>
        ((b0 mod 0x20) * 0x40 + b1 mod 0x40)%N :: utf8_code_points r1
      | _ => []
      end
    else if (b0 <? 0xF0)%N then
      match r0 with
      | b1 :: b2 :: r2 =>
        ((b0 mod 0x10) * 0x1000 + (b1 mod 0x40) * 0x40 + b2 mod 0x40)%N
          :: utf8_code_points r2
      | _ => []
      end
    else
      match r0 with
      | b1 :: b2 :: b3 :: r3 =>
        ((b0 mod 0x08) * 0x40000 + (b1 mod 0x40) * 0x1000
         + (b2 mod 0x40) * 0x40 + b3 mod 0x40)%N
          :: utf8_code_points r3
      | _ => []
      end
  end.

Definition utf16_units (cp : N) : jsstring :=
  if (cp <? 0x10000)%N then [cp]
  else [(0xD800 + (cp - 0x10000) / 0x400)%N;
        (0xDC00 + (cp - 0x10000) mod 0x400)%N].

Definition lit (s : string) : jsstring :=
  flat_map utf16_units
           (utf8_code_points (map Byte.to_N (list_byte_of_string s))).

(** Characters that cannot be typed inside a Rocq string literal. *)
Definition quote : code_unit := 34%N.
Definition backslash : code_unit := 92%N.
Definition newline : code_unit := 10%N.
Definition backtick : code_unit := 96%N.

(** ** Comparison: [===] on strings *)

Fixpoint eqb (a b : jsstring) : bool :=
  match a, b with
  | [], [] => true
  | x :: a', y :: b' => (x =? y)%N && eqb a' b'
  | _, _ => false
  end.

(** Truthiness of a string: only the empty string is falsy. *)
Definition truthy (s : jsstring) : bool :=
  match s with [] => false | _ :: _ => true end.

(** [a || b] on strings. *)
Definition or_else (a b : jsstring) : jsstring :=
  if truthy a then a else b.

(** [a || b] where [a] may be [undefined]. *)
Definition opt_or_else (a : option jsstring) (b : jsstring) : jsstring :=
  match a with
  | Some s => or_else s b
  | None => b
  end.

(** String conversion of a possibly [undefined] string, as performed by
    [+=] on a string. *)
Definition to_string (a : option jsstring) : jsstring :=
  match a with
  | Some s => s
  | None => lit "undefined"
  end.

(** ** Searching *)

Fixpoint starts_with (pat s : jsstring) : bool :=
  match pat, s with
  | [], _ => true
  | p :: pat', c :: s' => (p =? c)%N && starts_with pat' s'
  | _ :: _, [] => false
  end.

(** [String.prototype.indexOf]; [None] stands for [-1]. *)
Fixpoint indexOf (pat s : jsstring) : option nat :=
  if starts_with pat s then Some 0
  else match s with
       | [] => None
       | _ :: s' => option_map S (indexOf pat s')
       end.

Definition includes (pat s : jsstring) : bool :=
  match indexOf pat s with Some _ => true | None => false end.

(** ** [String.prototype.split] with a string separator

    The pieces between successive, non-overlapping occurrences of the
    separator, scanning from the left.  The recursion is on a fuel that
    [split] sets to more than the length of the string;
    [JsStringFacts.split_fuel_enough] shows the fuel never runs out. *)

Fixpoint split_fuel (fuel : nat) (sep s : jsstring) : list jsstring :=
  match fuel with
  | O => [s]
  | S fuel' =>
    match indexOf sep s with
    | None => [s]
    | Some i =>
      firstn i s :: split_fuel fuel' sep (skipn (i + length sep) s)
    end
  end.

Definition split (sep s : jsstring) : list jsstring :=
  match sep with
  | [] => map (fun c => [c]) s
  | _ :: _ => split_fuel (S (length s)) sep s
  end.

(** ** [String.prototype.replace] with a global literal pattern

    [s.replace(/pat/g, rep)] for a pattern without metacharacters: every
    match found by a left-to-right scan that resumes after the previous
    match is replaced; the result is not scanned again. *)

Fixpoint replace_all_fuel (fuel : nat) (pat rep s : jsstring) : jsstring :=
  match fuel with
  | O => s
  | S fuel' =>
    match indexOf pat s with
    | None => s
    | Some i =>
      firstn i s ++ rep
             ++ replace_all_fuel fuel' pat rep (skipn (i + length pat) s)
    end
  end.

Definition replace_all (pat rep s : jsstring) : jsstring :=
  replace_all_fuel (S (length s)) pat rep s.

(** ** [String.prototype.trim]

    White space and line terminators of ECMAScript: TAB, LF, VT, FF, CR,
    SP, NBSP, U+1680, U+2000..U+200A, U+2028, U+2029, U+202F, U+205F,
    U+3000 and U+FEFF. *)

Definition is_space (c : code_unit) : bool :=
  ((0x09 <=? c) && (c <=? 0x0D) || (c =? 0x20) || (c =? 0xA0)
   || (c =? 0x1680) || (0x2000 <=? c) && (c <=? 0x200A)
   || (c =? 0x2028) || (c =? 0x2029) || (c =? 0x202F) || (c =? 0x205F)
   || (c =? 0x3000) || (c =? 0xFEFF))%N.

Fixpoint trim_start (s : jsstring) : jsstring :=
  match s with
  | [] => []
  | c :: s' => if is_space c then trim_start s' else s
  end.

Definition trim_end (s : jsstring) : jsstring :=
  rev (trim_start (rev s)).

Definition trim (s : jsstring) : jsstring := trim_end (trim_start s).

End JsString.

Import JsString.

(** The parts of the JavaScript runtime that are taken as given.
    [toLowerCase] follows the Unicode case tables, which are not reproduced
    here: every statement below holds for any such function. *)
Class JsRuntime := {
  toLowerCase : jsstring -> jsstring
}.

(** A lower-casing that agrees with the engine's on ASCII text, used to run
    the definitions on concrete inputs. *)
Definition ascii_lower_unit (c : code_unit) : code_unit :=
  if ((0x41 <=? c) && (c <=? 0x5A))%N then (c + 0x20)%N else c.

Definition ascii_runtime : JsRuntime :=
  {| toLowerCase := map ascii_lower_unit |}.

(** Exceptions and results of computations that may raise. *)
Inductive exn := SyntaxError | TypeError | GatewayError.

Inductive result (A : Type) :=
| Ok (a : A)
| Raise (e : exn).
Arguments Ok {A} a.
Arguments Raise {A} e.

(* ================================================================== *)
(** * JSON: [JSON.stringify] on arrays of strings and [JSON.parse] *)
(* ================================================================== *)

Module Json.

(** The values [JSON.parse] produces.  A number is kept as the literal it
    was read from (the engine converts it to a double); the members of an
    object are kept in the order of the text. *)
#[local] Set Warnings "-register-all".
Inductive json :=
| JNull
| JBool (b : bool)
| JNumber (literal : jsstring)
| JString (s : jsstring)
| JArray (items : list json)
| JObject (members : list (jsstring * json)).

(** ** [JSON.stringify] *)

Definition hex_digit (d : N) : code_unit :=
  if (d <? 10)%N then (0x30 + d)%N else (0x61 + (d - 10))%N.

(** [UnicodeEscape]: a backslash, [u] and four lower-case hex digits. *)
Definition unicode_escape (c : code_unit) : jsstring :=
  [backslash; 0x75%N;
   hex_digit ((c / 0x1000) mod 16); hex_digit ((c / 0x100) mod 16);
   hex_digit ((c / 0x10) mod 16); hex_digit (c mod 16)].

Definition is_high_surrogate (c : code_unit) : bool :=
  ((0xD800 <=? c) && (c <=? 0xDBFF))%N.

Definition is_low_surrogate (c : code_unit) : bool :=
  ((0xDC00 <=? c) && (c <=? 0xDFFF))%N.

(** The two-character escapes of [QuoteJSONString]. *)
Definition short_escape (c : code_unit) : option code_unit :=
  if (c =? 0x08)%N then Some 0x62%N        (* escape b *)
  else if (c =? 0x09)%N then Some 0x74%N   (* escape t *)
  else if (c =? 0x0A)%N then Some 0x6E%N   (* escape n *)
  else if (c =? 0x0C)%N then Some 0x66%N   (* escape f *)
  else if (c =? 0x0D)%N then Some 0x72%N   (* escape r *)
  else if (c =? 0x22)%N then Some 0x22%N   (* escaped quote *)
  else if (c =? 0x5C)%N then Some 0x5C%N   (* escaped backslash *)
  else None.

(** [QuoteJSONString] without the enclosing quotes: the code points of
    the string are visited in order; a surrogate pair is one code point
    and is copied, a lone surrogate is escaped. *)
Fixpoint quote_body (s : jsstring) : jsstring :=
  match s with
  | [] => []
  | c :: s' =>
    match short_escape c with
    | Some e => backslash :: e :: quote_body s'
    | None =>
      if (c <? 0x20)%N then unicode_escape c ++ quote_body s'
      else if is_high_surrogate c then
        match s' with
        | d :: s'' =>
          if is_low_surrogate d then c :: d :: quote_body s''
          else unicode_escape c ++ quote_body s'
        | [] => unicode_escape c
        end
      else if is_low_surrogate c then unicode_escape c ++ quote_body s'
      else c :: quote_body s'
    end
  end.

Definition quote_json_string (s : jsstring) : jsstring :=
  quote :: quote_body s ++ [quote].

(** [Array.prototype.join] on strings. *)
Fixpoint join (sep : jsstring) (l : list jsstring) : jsstring :=
  match l with
  | [] => []
  | x :: l' =>
    match l' with
    | [] => x
    | _ :: _ => x ++ sep ++ join sep l'
    end
  end.

(** [JSON.stringify(list)] for an array of strings, without indentation
    ([SerializeJSONArray] with an empty gap). *)
Definition JSON_stringify (l : list jsstring) : jsstring :=
  0x5B%N :: join [0x2C%N] (map quote_json_string l) ++ [0x5D%N].

(** ** [JSON.parse] *)

(** Outcome of a parsing function: a value and the remaining input, a
    syntax error, or fuel exhausted. *)
Inductive pres (A : Type) :=
| POk (a : A) (rest : jsstring)
| PErr
| PFuel.
Arguments POk {A} a rest.
Arguments PErr {A}.
Arguments PFuel {A}.

(** JSON white space: TAB, LF, CR, SP. *)
Definition is_json_ws (c : code_unit) : bool :=
  ((c =? 0x09) || (c =? 0x0A) || (c =? 0x0D) || (c =? 0x20))%N.

Fixpoint skip_ws (s : jsstring) : jsstring :=
  match s with
  | [] => []
  | c :: s' => if is_json_ws c then skip_ws s' else s
  end.

Definition hex_value (c : code_unit) : option N :=
  if ((0x30 <=? c) && (c <=? 0x39))%N then Some (c - 0x30)%N
  else if ((0x61 <=? c) && (c <=? 0x66))%N then Some (c - 0x61 + 10)%N
  else if ((0x41 <=? c) && (c <=? 0x46))%N then Some (c - 0x41 + 10)%N
  else None.

Definition hex4 (h1 h2 h3 h4 : code_unit) : option code_unit :=
  match hex_value h1, hex_value h2, hex_value h3, hex_value h4 with
  | Some a, Some b, Some c, Some d =>
    Some (((a * 16 + b) * 16 + c) * 16 + d)%N
  | _, _, _, _ => None
  end.

(** The character a two-character escape stands for. *)
Definition unescape (e : code_unit) : option code_unit :=
  if (e =? 0x22)%N then Some 0x22%N        (* escaped quote *)
  else if (e =? 0x5C)%N then Some 0x5C%N   (* escaped backslash *)
  else if (e =? 0x2F)%N then Some 0x2F%N   (* escape / *)
  else if (e =? 0x62)%N then Some 0x08%N   (* escape b *)
  else if (e =? 0x66)%N then Some 0x0C%N   (* escape f *)
  else if (e =? 0x6E)%N then Some 0x0A%N   (* escape n *)
  else if (e =? 0x72)%N then Some 0x0D%N   (* escape r *)
  else if (e =? 0x74)%N then Some 0x09%N   (* escape t *)
  else None.

(** A string after its opening quote: the characters up to the closing
    quote, and what follows it. *)
Fixpoint parse_string_body (s : jsstring) : option (jsstring * jsstring) :=
  match s with
  | [] => None
  | c :: r =>
    if (c =? quote)%N then Some ([], r)
    else if (c =? backslash)%N then
      match r with
      | [] => None
      | e :: r' =>
        if (e =? 0x75)%N then
          match r' with
          | h1 :: h2 :: h3 :: h4 :: r'' =>
            match hex4 h1 h2 h3 h4, parse_string_body r'' with
            | Some u, Some (str, rest) => Some (u :: str, rest)
            | _, _ => None
            end
          | _ => None
          end
        else
          match unescape e, parse_string_body r' with
          | Some u, Some (str, rest) => Some (u :: str, rest)
          | _, _ => None
          end
      end
    else if (c <? 0x20)%N then None
    else
      match parse_string_body r with
      | Some (str, rest) => Some (c :: str, rest)
      | None => None
      end
  end.

Definition is_digit (c : code_unit) : bool :=
  ((0x30 <=? c) && (c <=? 0x39))%N.

Fixpoint span_digits (s : jsstring) : jsstring * jsstring :=
  match s with
  | [] => ([], [])
  | c :: s' =>
    if is_digit c then let (ds, r) := span_digits s' in (c :: ds, r)
    else ([], s)
  end.

(** One or more digits. *)
Definition digits1 (s : jsstring) : option (jsstring * jsstring) :=
  match span_digits s with
  | ([], _) => None
  | (ds, r) => Some (ds, r)
  end.

(** [int]: a zero, or a non-zero digit followed by digits. *)
Definition number_int (s : jsstring) : option (jsstring * jsstring) :=
  match s with
  | [] => None
  | c :: r =>
    if (c =? 0x30)%N then Some ([c], r)
    else if is_digit c then
      let (ds, r') := span_digits r in Some (c :: ds, r')
    else None
  end.

(** [frac]: nothing, or a point and one or more digits. *)
Definition number_frac (s : jsstring) : option (jsstring * jsstring) :=
  match s with
  | c :: r =>
    if (c =? 0x2E)%N then
      match digits1 r with
      | Some (ds, r') => Some (c :: ds, r')
      | None => None
      end
    else Some ([], s)
  | [] => Some ([], s)
  end.

(** [exp]: nothing, or [e] or [E], an optional sign and digits. *)
Definition number_exp (s : jsstring) : option (jsstring * jsstring) :=
  match s with
  | c :: r =>
    if ((c =? 0x65) || (c =? 0x45))%N then
      let (sign, r1) :=
          match r with
          | g :: r0 =>
            if ((g =? 0x2B) || (g =? 0x2D))%N then ([g], r0) else ([], r)
          | [] => ([], r)
          end in
      match digits1 r1 with
      | Some (ds, r') => Some (c :: sign ++ ds, r')
      | None => None
      end
    else Some ([], s)
  | [] => Some ([], s)
  end.

Definition parse_number (s : jsstring) : option (jsstring * jsstring) :=
  let (sign, s1) :=
      match s with
      | c :: r => if (c =? 0x2D)%N then ([c], r) else ([], s)
      | [] => ([], s)
      end in
  match number_int s1 with
  | None => None
  | Some (i, s2) =>
    match number_frac s2 with
    | None => None
    | Some (f, s3) =>
      match number_exp s3 with
      | None => None
      | Some (e, s4) => Some (sign ++ i ++ f ++ e, s4)
      end
    end
  end.

(** The three mutually recursive parsers: a value, the elements of an
    array after its opening bracket, the members of an object after its
    opening brace.  Each call takes one unit of fuel. *)
Fixpoint parse_value (fuel : nat) (s : jsstring) : pres json :=
  match fuel with
  | O => PFuel
  | S fuel' =>
    match skip_ws s with
    | [] => PErr
    | c :: r =>
      if (c =? quote)%N then
        match parse_string_body r with
        | Some (str, rest) => POk (JString str) rest
        | None => PErr
        end
      else if (c =? 0x5B)%N then
        match skip_ws r with
        | [] => PErr
        | c' :: r' =>
          if (c' =? 0x5D)%N then POk (JArray []) r'
          else
            match parse_elements fuel' r with
            | POk vs rest => POk (JArray vs) rest
            | PErr => PErr
            | PFuel => PFuel
            end
        end
      else if (c =? 0x7B)%N then
        match skip_ws r with
        | [] => PErr
        | c' :: r' =>
          if (c' =? 0x7D)%N then POk (JObject []) r'
          else
            match parse_members fuel' r with
            | POk ms rest => POk (JObject ms) rest
            | PErr => PErr
            | PFuel => PFuel
            end
        end
      else if starts_with (lit "true") (c :: r) then
        POk (JBool true) (skipn 4 (c :: r))
      else if starts_with (lit "false") (c :: r) then
        POk (JBool false) (skipn 5 (c :: r))
      else if starts_with (lit "null") (c :: r) then
        POk JNull (skipn 4 (c :: r))
      else
        match parse_number (c :: r) with
        | Some (l, rest) => POk (JNumber l) rest
        | None => PErr
        end
    end
  end

with parse_elements (fuel : nat) (s : jsstring) : pres (list json) :=
  match fuel with
  | O => PFuel
  | S fuel' =>
    match parse_value fuel' s with
    | POk v r =>
      match skip_ws r with
      | [] => PErr
      | c :: r' =>
        if (c =? 0x2C)%N then
          match parse_elements fuel' r' with
          | POk vs rest => POk (v :: vs) rest
          | PErr => PErr
          | PFuel => PFuel
          end
        else if (c =? 0x5D)%N then POk [v] r'
        else PErr
      end
    | PErr => PErr
    | PFuel => PFuel
    end
  end

with parse_members (fuel : nat) (s : jsstring)
     : pres (list (jsstring * json)) :=
  match fuel with
  | O => PFuel
  | S fuel' =>
    match skip_ws s with
    | [] => PErr
    | q :: r0 =>
      if (q =? quote)%N then
        match parse_string_body r0 with
        | None => PErr
        | Some (k, r1) =>
          match skip_ws r1 with
          | [] => PErr
          | c1 :: r2 =>
            if (c1 =? 0x3A)%N then
              match parse_value fuel' r2 with
              | POk v r3 =>
                match skip_ws r3 with
                | [] => PErr
                | c3 :: r4 =>
                  if (c3 =? 0x2C)%N then
                    match parse_members fuel' r4 with
                    | POk ms rest => POk ((k, v) :: ms) rest
                    | PErr => PErr
                    | PFuel => PFuel
                    end
                  else if (c3 =? 0x7D)%N then POk [(k, v)] r4
                  else PErr
                end
              | PErr => PErr
              | PFuel => PFuel
              end
            else PErr
          end
        end
      else PErr
    end
  end.

(** Fuel that is enough for any text of the given length
    ([JsonFacts.parse_value_fuel_enough]). *)
Definition parse_fuel (s : jsstring) : nat := 2 * length s + 2.

(** [JSON.parse(s)]: one value, surrounded by optional white space;
    anything else raises [SyntaxError]. *)
Definition JSON_parse (s : jsstring) : result json :=
  match parse_value (parse_fuel s) s with
  | POk v rest =>
    match skip_ws rest with
    | [] => Ok v
    | _ :: _ => Raise SyntaxError
    end
  | PErr => Raise SyntaxError
  | PFuel => Raise SyntaxError
  end.

End Json.

Import Json.

(* ================================================================== *)
(** * [src/types.ts] *)
(* ================================================================== *)

Module Types.

Inductive RoleId := POLISHER | CHIEF | RESEARCHER | EXECUTOR | EDITOR.

(** The string each member of the enum stands for. *)
Definition RoleId_value (r : RoleId) : jsstring :=
  match r with
  | POLISHER => lit "polisher"
  | CHIEF => lit "chief"
  | RESEARCHER => lit "researcher"
  | EXECUTOR => lit "executor"
  | EDITOR => lit "editor"
  end.

Definition RoleId_eqb (a b : RoleId) : bool :=
  match a, b with
  | POLISHER, POLISHER | CHIEF, CHIEF | RESEARCHER, RESEARCHER
  | EXECUTOR, EXECUTOR | EDITOR, EDITOR => true
  | _, _ => false
  end.

Record PersonaAnalysis := {
  overview : jsstring;
  methodology : jsstring;
  mindset : jsstring;
  expression : jsstring;
  habits : jsstring;
  markers : jsstring
}.

Record Persona := {
  persona_id : jsstring;
  name : jsstring;
  analysis : PersonaAnalysis;
  createdAt : N;
  sourceText : option jsstring;
  sourceUrls : option jsstring
}.

(** The [role] of a message: ['user'] or ['model']. *)
Inductive Role := user | model.

Definition Role_eqb (a b : Role) : bool :=
  match a, b with
  | user, user | model, model => true
  | _, _ => false
  end.

Record ChatMessage := {
  id : jsstring;
  role : Role;
  text : jsstring;
  timestamp : N;
  isThinking : option bool;
  agentId : option RoleId
}.

End Types.

Import Types.

(* ================================================================== *)
(** * The hosted model, seen from the program *)
(* ================================================================== *)

Module Gateway.

(** A request to the hosted model.  The prompt text each service builds
    is a fixed template filled with the arguments of the service; a
    request is identified here by the service and those arguments. *)
Inductive request :=
| RouteRequest (history : list (Role * jsstring))
               (latestUserMessage : jsstring)
| TopicRequest (input : jsstring)
| ChiefRequest (history : list (Role * jsstring)) (message : jsstring)
               (persona : option Persona) (currentDraft : jsstring)
| ResearchRequest (topic context : jsstring)
| ExecuteRequest (instruction draftContext : jsstring)
                 (persona : option Persona)
| CritiqueRequest (draft : jsstring) (persona : option Persona)
| FixRequest (draft critique : jsstring) (persona : option Persona).

(** A single-shot call either throws or resolves to a response whose
    [text] is a string or [undefined]. *)
Inductive reply :=
| ReplyThrows
| Reply (response_text : option jsstring).

(** One increment of a streamed response; [chunk.text] is a string or
    [undefined]. *)
Record chunk := { chunk_text : option jsstring }.

(** A streamed call either throws at once or resolves to a stream that
    yields chunks and then ends or throws. *)
Inductive stream_end := EndOfStream | StreamThrows.

Record stream := {
  chunks : list chunk;
  ending : stream_end
}.

Inductive stream_reply :=
| StreamCallThrows
| StreamReply (s : stream).

Record Gateway := {
  generateContent : request -> reply;
  generateContentStream : request -> stream_reply
}.

Definition is_route_request (rq : request) : bool :=
  match rq with RouteRequest _ _ => true | _ => false end.

End Gateway.

Import Gateway.

(* ================================================================== *)
(** * State and effects *)
(* ================================================================== *)

Module Effects.

(** The React state of the editor and of its host, and what is recorded
    about a run: the requests sent to the hosted model, in order, and
    the successive values of [messages]. *)
Record State := {
  messages : list ChatMessage;
  inputValue : jsstring;
  isProcessing : bool;
  draftContent : jsstring;
  researchNotes : jsstring;
  projectTopic : jsstring;
  calls : list request;
  messageLog : list (list ChatMessage);
  uuidCount : nat;
  clockCount : nat
}.

(** What surrounds a run: the hosted model, the persona chosen by the
    user, and the sources of identifiers and of time. *)
Record Env := {
  gateway : Gateway;
  selectedPersona : option Persona;
  uuidSource : nat -> jsstring;
  clockSource : nat -> N
}.

Definition M (A : Type) : Type := State -> result A * State.

Definition ret {A} (a : A) : M A := fun st => (Ok a, st).

Definition bind {A B} (m : M A) (k : A -> M B) : M B :=
  fun st =>
    match m st with
    | (Ok a, st') => k a st'
    | (Raise e, st') => (Raise e, st')
    end.

Definition throw {A} (e : exn) : M A := fun st => (Raise e, st).

(** [try body catch handler]. *)
Definition try_catch {A} (body : M A) (handler : exn -> M A) : M A :=
  fun st =>
    match body st with
    | (Ok a, st') => (Ok a, st')
    | (Raise e, st') => handler e st'
    end.

(** [try body finally fin]: [fin] runs on every exit of [body]. *)
Definition try_finally {A} (body : M A) (fin : M unit) : M A :=
  fun st =>
    match body st with
    | (r, st') =>
      match fin st' with
      | (Ok _, st'') => (r, st'')
      | (Raise e, st'') => (Raise e, st'')
      end
    end.

Definition get : M State := fun st => (Ok st, st).

Definition setMessages (f : list ChatMessage -> list ChatMessage)
  : M unit :=
  fun st =>
    let ms := f (messages st) in
    (Ok tt,
     {| messages := ms;
        inputValue := inputValue st;
        isProcessing := isProcessing st;
        draftContent := draftContent st;
        researchNotes := researchNotes st;
        projectTopic := projectTopic st;
        calls := calls st;
        messageLog := messageLog st ++ [ms];
        uuidCount := uuidCount st;
        clockCount := clockCount st |}).

Definition setInputValue (v : jsstring) : M unit :=
  fun st =>
    (Ok tt,
     {| messages := messages st;
        inputValue := v;
        isProcessing := isProcessing st;
        draftContent := draftContent st;
        researchNotes := researchNotes st;
        projectTopic := projectTopic st;
        calls := calls st;
        messageLog := messageLog st;
        uuidCount := uuidCount st;
        clockCount := clockCount st |}).

Definition setIsProcessing (b : bool) : M unit :=
  fun st =>
    (Ok tt,
     {| messages := messages st;
        inputValue := inputValue st;
        isProcessing := b;
        draftContent := draftContent st;
        researchNotes := researchNotes st;
        projectTopic := projectTopic st;
        calls := calls st;
        messageLog := messageLog st;
        uuidCount := uuidCount st;
        clockCount := clockCount st |}).

Definition setDraftContent (v : jsstring) : M unit :=
  fun st =>
    (Ok tt,
     {| messages := messages st;
        inputValue := inputValue st;
        isProcessing := isProcessing st;
        draftContent := v;
        researchNotes := researchNotes st;
        projectTopic := projectTopic st;
        calls := calls st;
        messageLog := messageLog st;
        uuidCount := uuidCount st;
        clockCount := clockCount st |}).

Definition setResearchNotes (v : jsstring) : M unit :=
  fun st =>
    (Ok tt,
     {| messages := messages st;
        inputValue := inputValue st;
        isProcessing := isProcessing st;
        draftContent := draftContent st;
        researchNotes := v;
        projectTopic := projectTopic st;
        calls := calls st;
        messageLog := messageLog st;
        uuidCount := uuidCount st;
        clockCount := clockCount st |}).

Definition setProjectTopic (v : jsstring) : M unit :=
  fun st =>
    (Ok tt,
     {| messages := messages st;
        inputValue := inputValue st;
        isProcessing := isProcessing st;
        draftContent := draftContent st;
        researchNotes := researchNotes st;
        projectTopic := v;
        calls := calls st;
        messageLog := messageLog st;
        uuidCount := uuidCount st;
        clockCount := clockCount st |}).

Definition record_call (rq : request) : M unit :=
  fun st =>
    (Ok tt,
     {| messages := messages st;
        inputValue := inputValue st;
        isProcessing := isProcessing st;
        draftContent := draftContent st;
        researchNotes := researchNotes st;
        projectTopic := projectTopic st;
        calls := calls st ++ [rq];
        messageLog := messageLog st;
        uuidCount := uuidCount st;
        clockCount := clockCount st |}).

(** [crypto.randomUUID()]. *)
Definition randomUUID (env : Env) : M jsstring :=
  fun st =>
    (Ok (uuidSource env (uuidCount st)),
     {| messages := messages st;
        inputValue := inputValue st;
        isProcessing := isProcessing st;
        draftContent := draftContent st;
        researchNotes := researchNotes st;
        projectTopic := projectTopic st;
        calls := calls st;
        messageLog := messageLog st;
        uuidCount := S (uuidCount st);
        clockCount := clockCount st |}).

(** [Date.now()]. *)
Definition dateNow (env : Env) : M N :=
  fun st =>
    (Ok (clockSource env (clockCount st)),
     {| messages := messages st;
        inputValue := inputValue st;
        isProcessing := isProcessing st;
        draftContent := draftContent st;
        researchNotes := researchNotes st;
        projectTopic := projectTopic st;
        calls := calls st;
        messageLog := messageLog st;
        uuidCount := uuidCount st;
        clockCount := S (clockCount st) |}).

(** [await ai.models.generateContent(...)]. *)
Definition callModel (gw : Gateway) (rq : request)
  : M (option jsstring) :=
  bind (record_call rq)
       (fun _ =>
          match generateContent gw rq with
          | ReplyThrows => throw GatewayError
          | Reply t => ret t
          end).

(** [await ai.models.generateContentStream(...)] and
    [chat.sendMessageStream(...)]. *)
Definition callModelStream (gw : Gateway) (rq : request) : M stream :=
  bind (record_call rq)
       (fun _ =>
          match generateContentStream gw rq with
          | StreamCallThrows => throw GatewayError
          | StreamReply s => ret s
          end).

End Effects.

Import Effects.

Declare Scope monad_scope.
Delimit Scope monad_scope with monad.
Notation "x <- m ;; k" := (bind m (fun x => k))
  (at level 61, m at next level, right associativity) : monad_scope.
Notation "m ;; k" := (bind m (fun _ => k))
  (at level 61, right associativity) : monad_scope.

(* ================================================================== *)
(** * [src/services/geminiService.ts] *)
(* ================================================================== *)

Module GeminiService.

Local Open Scope monad_scope.

(** The identities the router may answer with. *)
Definition allowedAgents : list RoleId :=
  [CHIEF; RESEARCHER; EXECUTOR; EDITOR].

(** [response.text?.trim().toLowerCase().replace(/QUOTE/g, '') || RoleId.CHIEF],
    where the pattern is the double-quote character. *)
Definition routerText {rt : JsRuntime} (response_text : option jsstring)
  : jsstring :=
  match response_text with
  | None => RoleId_value CHIEF
  | Some t =>
    or_else (replace_all [quote] [] (toLowerCase (trim t)))
            (RoleId_value CHIEF)
  end.

(** The validation of the router's answer: the member of the allowed
    list whose value is [text], [CHIEF] when there is none. *)
Definition validateAgent (text : jsstring) : RoleId :=
  match find (fun r => eqb (RoleId_value r) text) allowedAgents with
  | Some r => r
  | None => CHIEF
  end.

Definition determineNextAgent {rt : JsRuntime} (gw : Gateway)
           (history : list (Role * jsstring))
           (latestUserMessage : jsstring) : M RoleId :=
  try_catch
    (response_text <- callModel gw (RouteRequest history latestUserMessage) ;;
     ret (validateAgent (routerText response_text)))
    (fun _ => ret CHIEF).

(** [response.text?.trim() || "新写作项目"] *)
Definition extractTopicFromInput (gw : Gateway) (input : jsstring)
  : M jsstring :=
  response_text <- callModel gw (TopicRequest input) ;;
  ret (match response_text with
       | Some t => or_else (trim t) (lit "新写作项目")
       | None => lit "新写作项目"
       end).

Definition chatWithChief (gw : Gateway)
           (history : list (Role * jsstring)) (message : jsstring)
           (persona : option Persona) (currentDraft : jsstring)
  : M stream :=
  callModelStream gw (ChiefRequest history message persona currentDraft).

Definition performResearch (gw : Gateway) (topic context : jsstring)
  : M (option jsstring) :=
  callModel gw (ResearchRequest topic context).

Definition executeWriting (gw : Gateway)
           (instruction draftContext : jsstring)
           (persona : option Persona) : M stream :=
  callModelStream gw (ExecuteRequest instruction draftContext persona).

Definition critiqueDraft (gw : Gateway) (draft : jsstring)
           (persona : option Persona) : M stream :=
  callModelStream gw (CritiqueRequest draft persona).

(** The triple-backtick fence and the fence that opens a markdown block. *)
Definition fence : jsstring := [backtick; backtick; backtick].
Definition markdownFence : jsstring := fence ++ lit "markdown".

(** [text.replace(/```markdown/g, '').replace(/```/g, '').trim()] on
    [response.text], or on the empty string when that is falsy. *)
Definition stripFences (response_text : option jsstring) : jsstring :=
  trim (replace_all fence []
          (replace_all markdownFence [] (opt_or_else response_text []))).

Definition applyEditorFixes (gw : Gateway) (draft critique : jsstring)
           (persona : option Persona) : M jsstring :=
  response_text <- callModel gw (FixRequest draft critique persona) ;;
  ret (stripFences response_text).

End GeminiService.

Import GeminiService.

(* ================================================================== *)
(** * [src/components/CollaborativeEditor.tsx] *)
(* ================================================================== *)

Module CollaborativeEditor.

Local Open Scope monad_scope.

(** ** Literals of the component *)

Definition quoted (s : string) : jsstring := quote :: lit s ++ [quote].

Definition specialCommand : jsstring := lit "请你帮我一键修改".

Definition defaultCritique : jsstring := lit "请优化全文".

Definition fixingText : jsstring :=
  lit "没问题，我正在根据之前的评审意见进行全篇修改，请稍候...".

Definition delimiter : jsstring := lit ":::SUGGESTIONS:::".

Definition fixedText : jsstring :=
  lit "✅ 已根据毒舌主编的意见完成修改，并自动更新了右侧草稿。"
  ++ [newline; newline]
  ++ lit "你可以检查一下，或者继续进行下一步。"
  ++ [newline; newline]
  ++ lit ":::SUGGESTIONS::: ["
  ++ quoted "继续完善草稿" ++ lit ", "
  ++ quoted "再次评审" ++ lit ", "
  ++ quoted "完成项目" ++ lit "]".

Definition noResearchText : jsstring := lit "没有找到相关调研结果。".

Definition researchHeader (topic : jsstring) : jsstring :=
  [newline; newline] ++ lit "--- 调研主题: " ++ topic ++ lit " ---"
  ++ [newline].

Definition researchContextHeader : jsstring :=
  [newline; newline] ++ lit "Research Context:" ++ [newline].

Definition nothingToReviewText (draft : jsstring) : jsstring :=
  lit "请先生成草稿，或者直接把要评审的内容发给我。"
  ++ [newline; newline]
  ++ lit ":::SUGGESTIONS::: ["
  ++ (if truthy draft then lit "评审当前草稿" else lit "我来写一段")
  ++ lit "]".

Definition errorText : jsstring := lit "发生错误，请重试。".

(** ** [handleSend] *)

(** [messages.map(m => ({ role: m.role, text: m.text }))] *)
Definition historyOf (ms : list ChatMessage) : list (Role * jsstring) :=
  map (fun m => (role m, text m)) ms.

(** [m.agentId === RoleId.EDITOR && m.role === 'model'] *)
Definition isEditorReply (m : ChatMessage) : bool :=
  match agentId m with
  | Some a => RoleId_eqb a EDITOR && Role_eqb (role m) model
  | None => false
  end.

(** [[...messages].reverse().find(...)] and the choice of the critique. *)
Definition lastCritique (ms : list ChatMessage) : jsstring :=
  match find isEditorReply (rev ms) with
  | Some m => text m
  | None => defaultCritique
  end.

(** [prev.map(m => m.id === aiMsgId ? { ...m, text, isThinking: false } : m)] *)
Definition finalizeById (aiMsgId newText : jsstring)
           (prev : list ChatMessage) : list ChatMessage :=
  map (fun m =>
         if eqb (id m) aiMsgId then
           {| id := id m; role := role m; text := newText;
              timestamp := timestamp m; isThinking := Some false;
              agentId := agentId m |}
         else m) prev.

Definition updateAiMessage (aiMsgId newText : jsstring) : M unit :=
  setMessages (finalizeById aiMsgId newText).

(** [m.role === 'model' && m.isThinking] *)
Definition isPendingReply (m : ChatMessage) : bool :=
  Role_eqb (role m) model
  && match isThinking m with Some b => b | None => false end.

(** The update of the [catch] clause. *)
Definition failPending (prev : list ChatMessage) : list ChatMessage :=
  map (fun m =>
         if isPendingReply m then
           {| id := id m; role := role m; text := errorText;
              timestamp := timestamp m; isThinking := Some false;
              agentId := agentId m |}
         else m) prev.

(** The body of [for await (const chunk of stream)]: each chunk is
    appended to [fullText] and the whole text is written to the
    message. *)
Fixpoint consumeChunks (aiMsgId fullText : jsstring) (cs : list chunk)
  : M jsstring :=
  match cs with
  | [] => ret fullText
  | c :: cs' =>
    let fullText' := fullText ++ to_string (chunk_text c) in
    updateAiMessage aiMsgId fullText' ;;
    consumeChunks aiMsgId fullText' cs'
  end.

(** The whole loop: the chunks, then the end of the stream. *)
Definition consumeStream (aiMsgId : jsstring) (s : stream) : M unit :=
  consumeChunks aiMsgId [] (chunks s) ;;
  match ending s with
  | EndOfStream => ret tt
  | StreamThrows => throw GatewayError
  end.

(** The topic extraction started by the first turn.  The promise is not
    awaited; its callbacks run later, and nothing else in a turn reads or
    writes the topic, so they are run here at once.  A failure is only
    logged. *)
Definition fireTopicExtraction (gw : Gateway) (textToSend : jsstring)
  : M unit :=
  try_catch
    (topic <- extractTopicFromInput gw textToSend ;;
     if truthy topic then setProjectTopic topic else ret tt)
    (fun _ => ret tt).

(** The one-click-fix flow (the first branch of the [try] block). *)
Definition oneClickFix (env : Env) (snapshot : State) : M unit :=
  let critiqueText := lastCritique (messages snapshot) in
  aiMsgId <- randomUUID env ;;
  now <- dateNow env ;;
  setMessages (fun prev =>
                 prev ++ [{| id := aiMsgId; role := model;
                             text := fixingText; timestamp := now;
                             isThinking := Some true;
                             agentId := Some EDITOR |}]) ;;
  fixed <- applyEditorFixes (gateway env) (draftContent snapshot)
                            critiqueText (selectedPersona env) ;;
  setDraftContent (or_else fixed (draftContent snapshot)) ;;
  setMessages (finalizeById aiMsgId fixedText) ;;
  setIsProcessing false.

(** Step 2 of the routed flow: the call of the service that matches the
    chosen agent, and what is done with its result. *)
Definition dispatch (env : Env) (snapshot : State)
           (userText : jsstring) (targetAgentId : RoleId)
           (aiMsgId : jsstring) : M unit :=
  match targetAgentId with
  | RESEARCHER =>
    found <- performResearch (gateway env) userText
                             (draftContent snapshot) ;;
    updateAiMessage aiMsgId (opt_or_else found noResearchText) ;;
    match found with
    | Some r =>
      if truthy r then
        setResearchNotes (researchNotes snapshot
                          ++ researchHeader userText ++ r)
      else ret tt
    | None => ret tt
    end
  | EXECUTOR =>
    s <- executeWriting (gateway env) userText
           (draftContent snapshot ++ researchContextHeader
            ++ researchNotes snapshot)
           (selectedPersona env) ;;
    consumeStream aiMsgId s
  | EDITOR =>
    let contentToReview :=
        if 50 <? length userText then userText
        else draftContent snapshot in
    if truthy contentToReview then
      s <- critiqueDraft (gateway env) contentToReview
                         (selectedPersona env) ;;
      consumeStream aiMsgId s
    else
      updateAiMessage aiMsgId
                      (nothingToReviewText (draftContent snapshot))
  | _ =>
    s <- chatWithChief (gateway env) (historyOf (messages snapshot))
                       userText (selectedPersona env)
                       (draftContent snapshot) ;;
    consumeStream aiMsgId s
  end.

(** The routed flow (the rest of the [try] block): the router chooses
    the agent, a pending reply is appended, the agent is called. *)
Definition routedTurn {rt : JsRuntime} (env : Env) (snapshot : State)
           (userText : jsstring) : M unit :=
  targetAgentId <- determineNextAgent (gateway env)
                     (historyOf (messages snapshot)) userText ;;
  aiMsgId <- randomUUID env ;;
  now <- dateNow env ;;
  setMessages (fun prev =>
                 prev ++ [{| id := aiMsgId; role := model; text := [];
                             timestamp := now; isThinking := Some true;
                             agentId := Some targetAgentId |}]) ;;
  dispatch env snapshot userText targetAgentId aiMsgId.

(** The statements of [handleSend] before the [try] block: the user's
    message is appended, the input is cleared, the turn is marked as in
    progress and, on the first turn of a project without topic, the topic
    extraction is started. *)
Definition startTurn (env : Env) (snapshot : State)
           (textToSend : jsstring) : M ChatMessage :=
  userMsgId <- randomUUID env ;;
  now <- dateNow env ;;
  let userMsg := {| id := userMsgId; role := user; text := textToSend;
                    timestamp := now; isThinking := None;
                    agentId := None |} in
  setMessages (fun prev => prev ++ [userMsg]) ;;
  setInputValue [] ;;
  setIsProcessing true ;;
  (if negb (truthy (projectTopic snapshot))
      && (length (messages snapshot) <=? 1)
   then fireTopicExtraction (gateway env) textToSend
   else ret tt) ;;
  ret userMsg.

(** The [try] block. *)
Definition turnBody {rt : JsRuntime} (env : Env) (snapshot : State)
           (textToSend : jsstring) (userMsg : ChatMessage) : M unit :=
  if eqb textToSend specialCommand
  then oneClickFix env snapshot
  else routedTurn env snapshot (text userMsg).

(** [handleSend(textOverride?)].  The values the closure holds
    ([messages], [inputValue], [draftContent], [researchNotes],
    [projectTopic]) are those of the state when the handler starts. *)
Definition handleSend {rt : JsRuntime} (env : Env)
           (textOverride : option jsstring) : M unit :=
  snapshot <- get ;;
  let textToSend := opt_or_else textOverride (inputValue snapshot) in
  if negb (truthy (trim textToSend)) then ret tt
  else
    userMsg <- startTurn env snapshot textToSend ;;
    try_finally
      (try_catch
         (turnBody env snapshot textToSend userMsg)
         (fun _ => setMessages failPending))
      (setIsProcessing false).

(** ** [parseMessageContent] *)

Record parsed := {
  cleanText : jsstring;
  suggestions : json
}.

(** [suggestions] starts as the empty array and is replaced by whatever
    [JSON.parse] returns; a failure inside the [try] block leaves it as
    it is.  Reading [parts[0]] of an empty array would raise a
    [TypeError]. *)
Definition parseMessageContent (content : jsstring) : result parsed :=
  let parts := split delimiter content in
  match nth_error parts 0 with
  | None => Raise TypeError
  | Some part0 =>
    let suggestions :=
        if 1 <? length parts then
          match nth_error parts 1 with
          | Some part1 =>
            match JSON_parse (trim part1) with
            | Ok v => v
            | Raise _ => JArray []
            end
          | None => JArray []
          end
        else JArray [] in
    Ok {| cleanText := trim part0; suggestions := suggestions |}
  end.

(** [suggestions.length] when the value is an array. *)
Definition suggestionCount (p : parsed) : option nat :=
  match suggestions p with
  | JArray items => Some (length items)
  | _ => None
  end.

End CollaborativeEditor.

Import CollaborativeEditor.

(* ================================================================== *)
(** * More of the JavaScript library *)
(* ================================================================== *)

Module JsLibrary.

(** [String.prototype.substring(start, end)] for indices that are not
    negative: both are clamped to the length and swapped when the first
    exceeds the second. *)
Definition substring (s : jsstring) (start finish : nat) : jsstring :=
  let a := Nat.min start (length s) in
  let b := Nat.min finish (length s) in
  firstn (Nat.max a b - Nat.min a b) (skipn (Nat.min a b) s).

(** [String.prototype.lastIndexOf]; [None] stands for [-1]. *)
Fixpoint lastIndexOf (pat s : jsstring) : option nat :=
  match s with
  | [] => if starts_with pat [] then Some 0 else None
  | c :: s' =>
    match lastIndexOf pat s' with
    | Some i => Some (S i)
    | None => if starts_with pat s then Some 0 else None
    end
  end.

(** [array.slice(-n)]: the last [n] elements. *)
Definition lastn {A} (n : nat) (l : list A) : list A :=
  skipn (length l - n) l.

(** [array.filter((_, i) => i !== index)]. *)
Fixpoint removeAt {A} (index : nat) (l : list A) : list A :=
  match l with
  | [] => []
  | x :: l' =>
    match index with
    | O => l'
    | S k => x :: removeAt k l'
    end
  end.

End JsLibrary.

Import JsLibrary.

(* ================================================================== *)
(** * [CollaborativeEditor.tsx]: the actions under a reply *)
(* ================================================================== *)

Module EditorActions.

Local Open Scope monad_scope.

(** The actions under a message are offered when it is not the user's
    and is not marked as thinking: [!isUser && !msg.isThinking]. *)
Definition offersActions (msg : ChatMessage) : bool :=
  negb (Role_eqb (role msg) user)
  && negb (match isThinking msg with Some b => b | None => false end).

(** The button that quotes a reply into the draft: the new draft is the
    old one, two line feeds when the old one is not empty, and the
    display text [cleanText] of the message. *)
Definition quoteToDraft (msg : ChatMessage) : M unit :=
  snapshot <- get ;;
  match parseMessageContent (text msg) with
  | Raise e => throw e
  | Ok p =>
    setDraftContent
      (draftContent snapshot
       ++ (if truthy (draftContent snapshot) then [newline; newline]
           else [])
       ++ cleanText p)
  end.

(** [getAgentConfig]: the identity whose configuration is shown for a
    message, [ROLE_CONFIG[agentId || RoleId.CHIEF]]. *)
Definition getAgentConfig (agent : option RoleId) : RoleId :=
  match agent with
  | Some a => a
  | None => CHIEF
  end.

End EditorActions.

Import EditorActions.

(* ================================================================== *)
(** * [geminiService.ts]: the style analysis and the prompts *)
(* ================================================================== *)

Module StyleAnalysis.

(** The request of [analyzeStyle]: the sample text and the URLs the
    prompt embeds, and the configuration of the call, which enables the
    search tool when there are URLs and the response schema otherwise. *)
Record AnalysisRequest := {
  sampleText : jsstring;
  sampleUrls : jsstring;
  usesSearchTool : bool;
  usesResponseSchema : bool
}.

(** How the promise of [analyzeStyle] settles: the parsed value, the
    error the function throws itself, or the error of the call. *)
Inductive analysisOutcome :=
| Analysis (v : json)
| InvalidFormat
| CallFailed.

(** The message of the error [analyzeStyle] throws. *)
Definition invalidFormatMessage : jsstring :=
  lit "AI returned invalid data format. Please try again or provide more text.".

Definition openBrace : jsstring := [0x7B%N].
Definition closeBrace : jsstring := [0x7D%N].
Definition jsonFence : jsstring := fence ++ lit "json".

(** The extraction of the JSON text from the answer: from the first
    opening brace to the last closing brace when both exist, then without
    the fences, trimmed. *)
Definition extractJson (jsonText : jsstring) : jsstring :=
  let cut :=
      match indexOf openBrace jsonText, lastIndexOf closeBrace jsonText with
      | Some firstBrace, Some lastBrace =>
        substring jsonText firstBrace (lastBrace + 1)
      | _, _ => jsonText
      end in
  trim (replace_all fence [] (replace_all jsonFence [] cut)).

Definition analyzeStyle (generate : AnalysisRequest -> reply)
           (text urls : jsstring) : analysisOutcome :=
  let hasUrls := 0 <? length (trim urls) in
  match generate {| sampleText := text; sampleUrls := urls;
                    usesSearchTool := hasUrls;
                    usesResponseSchema := negb hasUrls |} with
  | ReplyThrows => CallFailed
  | Reply response_text =>
    match JSON_parse
            (extractJson (opt_or_else response_text (lit "{}"))) with
    | Ok v => Analysis v
    | Raise _ => InvalidFormat
    end
  end.

(** The name of a speaker in a prompt. *)
Definition roleName (r : Role) : jsstring :=
  match r with
  | user => lit "user"
  | model => lit "model"
  end.

(** The history summary in the prompt of [determineNextAgent]: the last
    three turns, one per line, each as the speaker, a colon, the first
    fifty code units of the text and three dots. *)
Definition historySummary (history : list (Role * jsstring)) : jsstring :=
  join [newline]
       (map (fun h => roleName (fst h) ++ lit ": "
                               ++ substring (snd h) 0 50 ++ lit "...")
            (lastn 3 history)).

(** The excerpt of the draft in the instruction of [chatWithChief]. *)
Definition draftExcerpt (currentDraft : jsstring) : jsstring :=
  substring currentDraft 0 1000 ++ lit "... (truncated)".

End StyleAnalysis.

Import StyleAnalysis.

(* ================================================================== *)
(** * [components/PersonaLab.tsx] *)
(* ================================================================== *)

Module PersonaLab.

Inductive ViewMode := create | library.
Inductive ResultTab := preview | edit.

(** The keys of a [PersonaAnalysis]. *)
Inductive Dimension :=
| DimOverview | DimMethodology | DimMindset
| DimExpression | DimHabits | DimMarkers.

(** Whether [new URL(s)] accepts a text.  The URL parser of the browser
    is taken as given. *)
Class UrlSyntax := {
  urlParses : jsstring -> bool
}.

Definition needsSchemeText : jsstring := lit "需以 http/https 开头".
Definition invalidUrlText : jsstring := lit "无效的 URL 格式".

(** [getUrlError]: [None] stands for [null]. *)
Definition getUrlError {us : UrlSyntax} (url : jsstring)
  : option jsstring :=
  if negb (truthy url) || negb (truthy (trim url)) then None
  else
    let trimmed := trim url in
    if negb (starts_with (lit "http") trimmed)
       && negb (starts_with (lit "https") trimmed)
       && negb (starts_with (lit "www.") trimmed)
    then Some needsSchemeText
    else if urlParses (if starts_with (lit "www.") trimmed
                       then lit "https://" ++ trimmed
                       else trimmed)
         then None
         else Some invalidUrlText.

(** [newLinks[index] = val] on a copy of the list.  Writing one place
    past the end appends; writing further would leave holes, which a list
    of strings does not hold: [None]. *)
Fixpoint setAt (index : nat) (val : jsstring) (l : list jsstring)
  : option (list jsstring) :=
  match l, index with
  | [], O => Some [val]
  | [], S _ => None
  | _ :: l', O => Some (val :: l')
  | x :: l', S k => option_map (cons x) (setAt k val l')
  end.

Definition handleLinkChange (index : nat) (val : jsstring)
           (linkInputs : list jsstring) : option (list jsstring) :=
  setAt index val linkInputs.

Definition addLinkInput (linkInputs : list jsstring) : list jsstring :=
  if length linkInputs <? 10 then linkInputs ++ [[]] else linkInputs.

Definition removeLinkInput (index : nat) (linkInputs : list jsstring)
  : list jsstring :=
  match removeAt index linkInputs with
  | [] => [[]]
  | newLinks => newLinks
  end.

Definition hasError {us : UrlSyntax} (link : jsstring) : bool :=
  match getUrlError link with
  | Some _ => true
  | None => false
  end.

(** [linkInputs.some(link => getUrlError(link) !== null)] *)
Definition hasLinkErrors {us : UrlSyntax} (linkInputs : list jsstring)
  : bool :=
  existsb hasError linkInputs.

(** [linkInputs.filter(l => l.trim() && !getUrlError(l))] *)
Definition validLinksList {us : UrlSyntax} (linkInputs : list jsstring)
  : list jsstring :=
  filter (fun l => truthy (trim l)
                   && match getUrlError l with
                      | None => true
                      | Some e => negb (truthy e)
                      end)
         linkInputs.

Definition wechatHost : jsstring := lit "mp.weixin.qq.com".

Definition wechatCount {us : UrlSyntax} (linkInputs : list jsstring)
  : nat :=
  length (filter (includes wechatHost) (validLinksList linkInputs)).

Definition otherCount {us : UrlSyntax} (linkInputs : list jsstring)
  : nat :=
  length (filter (fun l => negb (includes wechatHost l))
                 (validLinksList linkInputs)).

(** The state of the component. *)
Record LabState := {
  viewMode : ViewMode;
  name : jsstring;
  inputText : jsstring;
  linkInputs : list jsstring;
  isAnalyzing : bool;
  analysis : option PersonaAnalysis;
  resultTab : ResultTab;
  activeDimension : Dimension;
  isUploading : bool;
  errorMsg : option jsstring
}.

(** How the promise of [analyzeStyle] settles for the component: a
    value of the declared type, or an error with its [message]. *)
Inductive AnalyzeResult :=
| Resolved (a : PersonaAnalysis)
| Rejected (message : option jsstring).

Definition analysisFailedText : jsstring := lit "分析失败，请稍后重试".

(** [handleAnalyze]: the calls of [analyzeStyle] it makes, with their
    arguments, and the state it leaves. *)
Definition handleAnalyze {us : UrlSyntax}
           (analyze : jsstring -> jsstring -> AnalyzeResult)
           (st : LabState) : list (jsstring * jsstring) * LabState :=
  if negb (truthy (inputText st))
     && (length (validLinksList (linkInputs st)) =? 0)
  then ([], st)
  else if hasLinkErrors (linkInputs st) then ([], st)
  else
    let urlsString := join [newline] (validLinksList (linkInputs st)) in
    ([(inputText st, urlsString)],
     match analyze (inputText st) urlsString with
     | Resolved result =>
       {| viewMode := viewMode st; name := name st;
          inputText := inputText st; linkInputs := linkInputs st;
          isAnalyzing := false; analysis := Some result;
          resultTab := preview; activeDimension := activeDimension st;
          isUploading := isUploading st; errorMsg := None |}
     | Rejected message =>
       {| viewMode := viewMode st; name := name st;
          inputText := inputText st; linkInputs := linkInputs st;
          isAnalyzing := false; analysis := analysis st;
          resultTab := resultTab st; activeDimension := activeDimension st;
          isUploading := isUploading st;
          errorMsg := Some (opt_or_else message analysisFailedText) |}
     end).

(** [handleSave]: the persona handed to [onSave], if any, and the state
    its setters ask for.  The identifier and the time are those the
    browser gives.  Whether that state is ever shown is up to the parent:
    the [onSave] of [App] makes the chief writer the active role, the lab
    is then no longer rendered, and it starts afresh when it is shown
    again. *)
Definition handleSave (uuid : jsstring) (now : N) (st : LabState)
  : option Persona * LabState :=
  match analysis st with
  | Some a =>
    if truthy (trim (name st)) then
      (Some {| persona_id := uuid;
               Types.name := trim (name st);
               Types.analysis := a;
               createdAt := now;
               sourceText := Some (inputText st);
               sourceUrls :=
                 Some (join [newline]
                            (filter (fun l => truthy (trim l))
                                    (linkInputs st))) |},
       {| viewMode := library; name := []; inputText := [];
          linkInputs := [[]]; isAnalyzing := isAnalyzing st;
          analysis := None; resultTab := resultTab st;
          activeDimension := activeDimension st;
          isUploading := isUploading st; errorMsg := None |})
    else (None, st)
  | None => (None, st)
  end.

(** [loadPersonaForTracing] *)
Definition loadPersonaForTracing (p : Persona) (st : LabState)
  : LabState :=
  let loadedLinks :=
      match sourceUrls p with
      | Some urls => if truthy urls then split [newline] urls else [[]]
      | None => [[]]
      end in
  {| viewMode := create;
     name := Types.name p;
     inputText := match sourceText p with
                  | Some t => or_else t []
                  | None => []
                  end;
     linkInputs := if 0 <? length loadedLinks then loadedLinks else [[]];
     isAnalyzing := isAnalyzing st;
     analysis := Some (Types.analysis p);
     resultTab := resultTab st;
     activeDimension := activeDimension st;
     isUploading := isUploading st;
     errorMsg := errorMsg st |}.

(** [{ ...analysis, [key]: value }] *)
Definition setDimension (key : Dimension) (value : jsstring)
           (a : PersonaAnalysis) : PersonaAnalysis :=
  {| overview := match key with DimOverview => value | _ => overview a end;
     methodology :=
       match key with DimMethodology => value | _ => methodology a end;
     mindset := match key with DimMindset => value | _ => mindset a end;
     expression :=
       match key with DimExpression => value | _ => expression a end;
     habits := match key with DimHabits => value | _ => habits a end;
     markers := match key with DimMarkers => value | _ => markers a end |}.

(** [analysis[key]] *)
Definition getDimension (key : Dimension) (a : PersonaAnalysis)
  : jsstring :=
  match key with
  | DimOverview => overview a
  | DimMethodology => methodology a
  | DimMindset => mindset a
  | DimExpression => expression a
  | DimHabits => habits a
  | DimMarkers => markers a
  end.

Definition handleDimensionChange (key : Dimension) (value : jsstring)
           (st : LabState) : LabState :=
  match analysis st with
  | Some a =>
    {| viewMode := viewMode st; name := name st;
       inputText := inputText st; linkInputs := linkInputs st;
       isAnalyzing := isAnalyzing st;
       analysis := Some (setDimension key value a);
       resultTab := resultTab st; activeDimension := activeDimension st;
       isUploading := isUploading st; errorMsg := errorMsg st |}
  | None => st
  end.

(** The text [extractTextFromPDF] assembles from the text items of the
    pages: the items of a page joined by a space, and a line feed after
    every page. *)
Definition pdfText (pages : list (list jsstring)) : jsstring :=
  fold_left (fun fullText items => fullText ++ join (lit " ") items
                                            ++ [newline])
            pages [].

(** A chosen file: its name, its type, and what the two ways of reading
    it give: the text items of the pages of a PDF, and the text of
    [FileReader.readAsText]; [None] when the reading fails. *)
Record File := {
  fileName : jsstring;
  fileType : jsstring;
  pdfPages : option (list (list jsstring));
  textContents : option jsstring
}.

Definition pdfType : jsstring := lit "application/pdf".

(** The text the [try] block of [handleFileUpload] reads. *)
Definition readFile (file : File) : option jsstring :=
  if eqb (fileType file) pdfType
  then option_map pdfText (pdfPages file)
  else textContents file.

Definition importHeader (file : File) : jsstring :=
  lit "--- 导入的文件: " ++ fileName file ++ lit " ---" ++ [newline].

Definition withInputText (t : jsstring) (uploading : bool)
           (st : LabState) : LabState :=
  {| viewMode := viewMode st; name := name st; inputText := t;
     linkInputs := linkInputs st; isAnalyzing := isAnalyzing st;
     analysis := analysis st; resultTab := resultTab st;
     activeDimension := activeDimension st; isUploading := uploading;
     errorMsg := errorMsg st |}.

(** [handleFileUpload], for the first file of the input, if any: whether
    the failure alert is shown, and the state it leaves. *)
Definition handleFileUpload (chosen : option File) (st : LabState)
  : bool * LabState :=
  match chosen with
  | None => (false, st)
  | Some file =>
    match readFile file with
    | Some t =>
      if truthy t then
        (false,
         withInputText
           ((if truthy (inputText st)
             then inputText st ++ [newline; newline] else [])
              ++ importHeader file ++ t)
           false st)
      else (false, withInputText (inputText st) false st)
    | None => (true, withInputText (inputText st) false st)
    end
  end.

End PersonaLab.

(* ================================================================== *)
(** * [App.tsx] *)
(* ================================================================== *)

Module App.

Record AppState := {
  activeRole : RoleId;
  personas : list Persona;
  selectedPersonaId : option jsstring
}.

(** [p.id === id] where [id] may be [null]. *)
Definition hasId (id : option jsstring) (p : Persona) : bool :=
  match id with
  | Some i => eqb (persona_id p) i
  | None => false
  end.

Definition handleSavePersona (persona : Persona) (st : AppState)
  : AppState :=
  {| activeRole := CHIEF;
     personas := personas st ++ [persona];
     selectedPersonaId := Some (persona_id persona) |}.

Definition handleDeletePersona (id : jsstring) (st : AppState)
  : AppState :=
  {| activeRole := activeRole st;
     personas := filter (fun p => negb (eqb (persona_id p) id))
                        (personas st);
     selectedPersonaId :=
       match selectedPersonaId st with
       | Some sel => if eqb sel id then None else Some sel
       | None => None
       end |}.

Definition setSelectedPersonaId (id : option jsstring) (st : AppState)
  : AppState :=
  {| activeRole := activeRole st; personas := personas st;
     selectedPersonaId := id |}.

(** [personas.find(p => p.id === selectedPersonaId) || null] *)
Definition selectedPersona (st : AppState) : option Persona :=
  find (hasId (selectedPersonaId st)) (personas st).

(** The panel the main area shows. *)
Inductive Panel := LabPanel | EditorPanel.

Definition mainPanel (st : AppState) : Panel :=
  if RoleId_eqb (activeRole st) POLISHER then LabPanel else EditorPanel.

End App.

(* ================================================================== *)
(** * Vocabulary of the statements *)
(* ================================================================== *)

Module JsonTerms.

Local Open Scope N_scope.

(** The result of the string parser with one more character in front. *)
Definition cons_result (c : code_unit)
           (r : option (jsstring * jsstring)) : option (jsstring * jsstring) :=
  match r with
  | Some (str, rest) => Some (c :: str, rest)
  | None => None
  end.

(** A character that [quote_body] copies when it stands alone. *)
Definition plain (c : code_unit) : Prop :=
  c <> quote /\ c <> backslash /\ is_high_surrogate c = false.

(** Every successful parser consumes at least one character. *)
Definition progress_at (fuel : nat) : Prop :=
  (forall s v r, parse_value fuel s = POk v r ->
                 (length r < length s)%nat)
  /\ (forall s vs r, parse_elements fuel s = POk vs r ->
                     (length r < length s)%nat)
  /\ (forall s ms r, parse_members fuel s = POk ms r ->
                     (length r < length s)%nat).

(** With two units of fuel per character, and two more, no parser runs
    out of fuel. *)
Definition enough_at (fuel : nat) : Prop :=
  (forall s, (2 * length s + 1 <= fuel)%nat -> parse_value fuel s <> PFuel)
  /\ (forall s, (2 * length s + 2 <= fuel)%nat ->
                parse_elements fuel s <> PFuel)
  /\ (forall s, (2 * length s + 2 <= fuel)%nat ->
                parse_members fuel s <> PFuel).

(** More fuel does not change an outcome other than [PFuel]. *)
Definition stable_at (fuel : nat) : Prop :=
  (forall s more, parse_value fuel s <> PFuel ->
                  parse_value (fuel + more) s = parse_value fuel s)
  /\ (forall s more, parse_elements fuel s <> PFuel ->
                     parse_elements (fuel + more) s = parse_elements fuel s)
  /\ (forall s more, parse_members fuel s <> PFuel ->
                     parse_members (fuel + more) s = parse_members fuel s).

End JsonTerms.

Import JsonTerms.

Module Turn.

(** The text a call of [handleSend] sends. *)
Definition sentText (textOverride : option jsstring) (st : State)
  : jsstring :=
  opt_or_else textOverride (inputValue st).

(** The identifiers and the messages a turn creates from state [st]. *)
Definition userMsgId (env : Env) (st : State) : jsstring :=
  uuidSource env (uuidCount st).

Definition aiMsgId (env : Env) (st : State) : jsstring :=
  uuidSource env (S (uuidCount st)).

Definition userMessage (env : Env) (st : State) (sent : jsstring)
  : ChatMessage :=
  {| id := userMsgId env st; role := user; text := sent;
     timestamp := clockSource env (clockCount st);
     isThinking := None; agentId := None |}.

(** The reply of a turn, with a given agent, text and thinking flag. *)
Definition agentMessage (env : Env) (st : State) (agent : RoleId)
           (content : jsstring) (thinking : bool) : ChatMessage :=
  {| id := aiMsgId env st; role := model; text := content;
     timestamp := clockSource env (S (clockCount st));
     isThinking := Some thinking; agentId := Some agent |}.

(** Whether the turn starts the topic extraction, the request it then
    sends and the topic the project has afterwards. *)
Definition firesTopic (st : State) : bool :=
  negb (truthy (projectTopic st)) && (length (messages st) <=? 1).

Definition topicCalls (st : State) (sent : jsstring) : list request :=
  if firesTopic st then [TopicRequest sent] else [].

Definition topicAfter (env : Env) (st : State) (sent : jsstring)
  : jsstring :=
  if firesTopic st then
    match generateContent (gateway env) (TopicRequest sent) with
    | ReplyThrows => projectTopic st
    | Reply response_text =>
      let topic := match response_text with
                   | Some t => or_else (trim t) (lit "新写作项目")
                   | None => lit "新写作项目"
                   end in
      if truthy topic then topic else projectTopic st
    end
  else projectTopic st.

(** The state when the [try] block is entered. *)
Definition started (env : Env) (st : State) (sent : jsstring) : State :=
  {| messages := messages st ++ [userMessage env st sent];
     inputValue := [];
     isProcessing := true;
     draftContent := draftContent st;
     researchNotes := researchNotes st;
     projectTopic := topicAfter env st sent;
     calls := calls st ++ topicCalls st sent;
     messageLog := messageLog st ++ [messages st ++ [userMessage env st sent]];
     uuidCount := S (uuidCount st);
     clockCount := S (clockCount st) |}.

(** The router's answer after normalisation: trimmed, lower-cased,
    double quotes removed. *)
Definition normalized {rt : JsRuntime} (t : jsstring) : jsstring :=
  replace_all [quote] [] (toLowerCase (trim t)).

(** The agent the router chooses. *)
Definition routerAnswer {rt : JsRuntime} (gw : Gateway)
           (history : list (Role * jsstring)) (sent : jsstring) : RoleId :=
  match generateContent gw (RouteRequest history sent) with
  | ReplyThrows => CHIEF
  | Reply response_text => validateAgent (routerText response_text)
  end.

Definition routedAgent {rt : JsRuntime} (env : Env) (st : State)
           (sent : jsstring) : RoleId :=
  routerAnswer (gateway env) (historyOf (messages st)) sent.

Definition routeRequest (st : State) (sent : jsstring) : request :=
  RouteRequest (historyOf (messages st)) sent.

(** What the critic reviews. *)
Definition contentToReview (st : State) (sent : jsstring) : jsstring :=
  if 50 <? length sent then sent else draftContent st.

(** The streamed request a routed turn sends for a given agent, if it
    sends one. *)
Definition streamRequest (env : Env) (st : State) (sent : jsstring)
           (agent : RoleId) : option request :=
  match agent with
  | RESEARCHER => None
  | EXECUTOR =>
    Some (ExecuteRequest sent
            (draftContent st ++ researchContextHeader ++ researchNotes st)
            (selectedPersona env))
  | EDITOR =>
    if truthy (contentToReview st sent)
    then Some (CritiqueRequest (contentToReview st sent)
                               (selectedPersona env))
    else None
  | _ =>
    Some (ChiefRequest (historyOf (messages st)) sent
                       (selectedPersona env) (draftContent st))
  end.

(** The request of the researcher. *)
Definition researchRequest (env : Env) (st : State) (sent : jsstring)
  : request :=
  ResearchRequest sent (draftContent st).

(** The request of the one-click fix. *)
Definition fixRequest (env : Env) (st : State) : request :=
  FixRequest (draftContent st) (lastCritique (messages st))
             (selectedPersona env).

(** The state of a routed turn when the agent is called: the router has
    answered and the pending reply has been appended. *)
Definition dispatched {rt : JsRuntime} (env : Env) (st : State)
           (sent : jsstring) : State :=
  let st1 := started env st sent in
  let pending := agentMessage env st (routedAgent env st sent) [] true in
  {| messages := messages st1 ++ [pending];
     inputValue := [];
     isProcessing := true;
     draftContent := draftContent st;
     researchNotes := researchNotes st;
     projectTopic := projectTopic st1;
     calls := calls st1 ++ [routeRequest st sent];
     messageLog := messageLog st1 ++ [messages st1 ++ [pending]];
     uuidCount := S (S (uuidCount st));
     clockCount := S (S (clockCount st)) |}.

(** The texts [fullText] goes through while chunks are consumed. *)
Fixpoint accumulated (fullText : jsstring) (increments : list jsstring)
  : list jsstring :=
  match increments with
  | [] => []
  | t :: rest => (fullText ++ t) :: accumulated (fullText ++ t) rest
  end.

(** The increments a list of chunks appends. *)
Definition incrementsOf (cs : list chunk) : list jsstring :=
  map (fun c => to_string (chunk_text c)) cs.

(** The state after the chunks [cs] have been merged into the reply
    [replyId], starting from [st]: each increment writes the text
    accumulated so far. *)
Definition afterChunks (replyId : jsstring) (cs : list chunk)
           (st : State) : State :=
  let texts := accumulated [] (incrementsOf cs) in
  let frames := map (fun t => finalizeById replyId t (messages st)) texts in
  {| messages := last frames (messages st);
     inputValue := inputValue st;
     isProcessing := isProcessing st;
     draftContent := draftContent st;
     researchNotes := researchNotes st;
     projectTopic := projectTopic st;
     calls := calls st;
     messageLog := messageLog st ++ frames;
     uuidCount := uuidCount st;
     clockCount := clockCount st |}.

(** The state after a request has been logged. *)
Definition withCall (rq : request) (st : State) : State :=
  snd (record_call rq st).

(** The state after the [catch] clause and after the [finally] clause. *)
Definition caught (st : State) : State :=
  snd (setMessages failPending st).

Definition finished (st : State) : State :=
  snd (setIsProcessing false st).

(** The messages of a streamed turn after [k] increments have been
    merged: the earlier messages and the user's message, then the reply,
    whose text is the concatenation of the first [k] increments and which
    is marked as thinking as long as no increment has been merged. *)
Definition replyAfter (env : Env) (st : State) (agent : RoleId)
           (increments : list jsstring) (k : nat) : ChatMessage :=
  agentMessage env st agent (concat (firstn k increments)) (k =? 0).

Definition frameAfter (env : Env) (st : State) (sent : jsstring)
           (agent : RoleId) (increments : list jsstring) (k : nat)
  : list ChatMessage :=
  let base := messages st ++ [userMessage env st sent] in
  (if k =? 0 then base
   else finalizeById (aiMsgId env st) (concat (firstn k increments)) base)
    ++ [replyAfter env st agent increments k].

(** The requests a run adds to the log. *)
Definition callsDuring {A} (m : M A) (st : State) : list request :=
  skipn (length (calls st)) (calls (snd (m st))).

Definition routerCalls {A} (m : M A) (st : State) : nat :=
  length (filter is_route_request (callsDuring m st)).

(** A chunk that carries a text. *)
Definition textChunk (t : jsstring) : chunk := {| chunk_text := Some t |}.

(** The text after a delimiter, up to the next delimiter. *)
Definition upToDelimiter (s : jsstring) : jsstring :=
  match indexOf delimiter s with
  | Some j => firstn j s
  | None => s
  end.

End Turn.

Import Turn.

(* ================================================================== *)
(** * Concrete runs *)
(* ================================================================== *)

Module Examples.

(** The greeting the component shows first. *)
Definition greeting : ChatMessage :=
  {| id := lit "init"; role := model;
     text := lit "你好! 我是首席写手。告诉我你的想法，我会帮你找到最佳切入角度和结构。如果需要调研或审稿，我的团队随时待命。"
                 ++ [newline; newline] ++ lit ":::SUGGESTIONS::: ["
                 ++ quoted "提供一个写作灵感" ++ lit ", "
                 ++ quoted "我想写一篇行业分析" ++ lit "]";
     timestamp := 0%N; isThinking := None; agentId := Some CHIEF |}.

Definition initialState : State :=
  {| messages := [greeting]; inputValue := []; isProcessing := false;
     draftContent := []; researchNotes := []; projectTopic := [];
     calls := []; messageLog := []; uuidCount := 0; clockCount := 0 |}.

(** A project under way: a topic, a draft and a review by the critic. *)
Definition review : ChatMessage :=
  {| id := lit "review"; role := model; text := lit "逻辑混乱，开头太弱";
     timestamp := 5%N; isThinking := Some false; agentId := Some EDITOR |}.

Definition draftingState : State :=
  {| messages := [greeting; review]; inputValue := specialCommand;
     isProcessing := false; draftContent := lit "旧稿";
     researchNotes := []; projectTopic := lit "咖啡文化";
     calls := []; messageLog := []; uuidCount := 0; clockCount := 0 |}.

(** A hosted model with fixed answers: one for the router, one for every
    other single-shot request, one for every streamed request. *)
Definition fixedGateway (route other : reply) (streamed : stream_reply)
  : Gateway :=
  {| generateContent :=
       fun rq => match rq with
                 | RouteRequest _ _ => route
                 | _ => other
                 end;
     generateContentStream := fun _ => streamed |}.

Definition envOf (gw : Gateway) : Env :=
  {| gateway := gw; selectedPersona := None;
     uuidSource := fun n => lit "msg-" ++ [(0x30 + N.of_nat n)%N];
     clockSource := fun n => (1700000000000 + N.of_nat n)%N |}.

(** The router answers [Executor] between quotes and spaces; the
    executor streams two increments. *)
Definition twoChunks : stream :=
  {| chunks := [textChunk (lit "a"); textChunk (lit "b")];
     ending := EndOfStream |}.

Definition executorEnv : Env :=
  envOf (fixedGateway
           (Reply (Some (lit " " ++ quoted "Executor" ++ lit " ")))
           ReplyThrows (StreamReply twoChunks)).

(** The fixing model answers with a fenced block. *)
Definition fencedAnswer : jsstring :=
  fence ++ lit "markdown" ++ [newline] ++ lit "新稿" ++ [newline] ++ fence.

Definition fixerEnv : Env :=
  envOf (fixedGateway ReplyThrows (Reply (Some fencedAnswer))
                      StreamCallThrows).

(** The router names the style analyzer. *)
Definition polisherGateway : Gateway :=
  fixedGateway (Reply (Some (quoted "Polisher"))) ReplyThrows
               StreamCallThrows.

(** The router names the critic, whose stream has one increment. *)
Definition criticEnv : Env :=
  envOf (fixedGateway
           (Reply (Some (lit "editor")))
           ReplyThrows
           (StreamReply {| chunks := [textChunk (lit "太弱")];
                           ending := EndOfStream |})).

(** Eighty characters of prose. *)
Definition eightyCharacters : jsstring :=
  lit "01234567890123456789012345678901234567890123456789012345678901234567890123456789".

(** The router fails, and so does every other call. *)
Definition failingEnv : Env :=
  envOf (fixedGateway ReplyThrows ReplyThrows StreamCallThrows).

(** The router fails, so the chief writer answers; its stream delivers
    one increment and then throws. *)
Definition brokenChiefEnv : Env :=
  envOf (fixedGateway
           ReplyThrows ReplyThrows
           (StreamReply {| chunks := [textChunk (lit "partial")];
                           ending := StreamThrows |})).

End Examples.

Import Examples.

(* ================================================================== *)
(** * More vocabulary *)
(* ================================================================== *)

Module TurnTerms.

Definition is_topic_request (rq : request) : bool :=
  match rq with TopicRequest _ => true | _ => false end.




(** No reply of the list is still marked as thinking. *)
Definition nothingPending (ms : list ChatMessage) : Prop :=
  Forall (fun m => isPendingReply m = false) ms.

End TurnTerms.

Import TurnTerms.

Module MoreExamples.

(** The router names the researcher, who finds something. *)
Definition researcherEnv : Env :=
  envOf (fixedGateway (Reply (Some (lit "researcher")))
                      (Reply (Some (lit "facts"))) StreamCallThrows).

(** The executor's stream throws after two increments. *)
Definition brokenStreamEnv : Env :=
  envOf (fixedGateway
           (Reply (Some (lit "executor"))) ReplyThrows
           (StreamReply {| chunks := [textChunk (lit "a");
                                      textChunk (lit "b")];
                           ending := StreamThrows |})).

End MoreExamples.

Import MoreExamples.

Module StyleTerms.

(** A turn of the history with its text cut to fifty code units. *)
Definition clip (h : Role * jsstring) : Role * jsstring :=
  (fst h, firstn 50 (snd h)).

(** The request [analyzeStyle] sends for a text and URLs. *)
Definition analysisRequest (text urls : jsstring) : AnalysisRequest :=
  {| sampleText := text; sampleUrls := urls;
     usesSearchTool := 0 <? length (trim urls);
     usesResponseSchema := negb (0 <? length (trim urls)) |}.

(** What [analyzeStyle] makes of a text handed to [JSON.parse]. *)
Definition parsedAs (t : jsstring) : analysisOutcome :=
  match JSON_parse t with
  | Ok v => Analysis v
  | Raise _ => InvalidFormat
  end.

(** An answer that wraps an object in a sentence and a fence-free
    remark. *)
Definition smallObject : jsstring :=
  openBrace ++ quoted "overview" ++ lit ":" ++ quoted "terse"
            ++ closeBrace.

End StyleTerms.

Import StyleTerms.

Module LabTerms.

Import PersonaLab.

(** [l.trim()] as a condition. *)
Definition nonblank (l : jsstring) : bool := truthy (trim l).

(** The link fields as [handleSave] and [loadPersonaForTracing] leave
    them for given links: the ones that are not blank, or one empty
    field. *)
Definition restoredLinks (links : list jsstring) : list jsstring :=
  match filter nonblank links with
  | [] => [[]]
  | kept => kept
  end.

(** What precedes an imported file in the input text. *)
Definition importPrefix (st : LabState) : jsstring :=
  if truthy (inputText st) then inputText st ++ [newline; newline]
  else [].

(** A URL parser that refuses texts with a space inside. *)
Definition spaceFreeUrls : UrlSyntax :=
  {| urlParses := fun s => negb (includes (lit " ") s) |}.

Definition sampleAnalysis : PersonaAnalysis :=
  {| overview := lit "terse"; methodology := lit "outline first";
     mindset := lit "pragmatic"; expression := lit "short sentences";
     habits := lit "opens with a question"; markers := lit "dashes" |}.

(** The component as it starts. *)
Definition emptyLab : LabState :=
  {| viewMode := create; name := []; inputText := [];
     linkInputs := [[]]; isAnalyzing := false; analysis := None;
     resultTab := preview; activeDimension := DimOverview;
     isUploading := false; errorMsg := None |}.

(** A form with a name, a sample, three link fields and an analysis. *)
Definition filledLab : LabState :=
  {| viewMode := create; name := lit " Ann "; inputText := lit "sample";
     linkInputs := [lit "https://a.b/c"; []; lit "www.mp.weixin.qq.com/s"];
     isAnalyzing := false; analysis := Some sampleAnalysis;
     resultTab := edit; activeDimension := DimHabits;
     isUploading := false; errorMsg := None |}.

Definition persona1 : Persona :=
  {| persona_id := lit "id-1"; Types.name := lit "Ann";
     Types.analysis := sampleAnalysis; createdAt := 1%N;
     sourceText := Some (lit "sample"); sourceUrls := None |}.

Definition persona2 : Persona :=
  {| persona_id := lit "id-2"; Types.name := lit "Bob";
     Types.analysis := sampleAnalysis; createdAt := 2%N;
     sourceText := None; sourceUrls := Some (lit "https://a.b/c") |}.

Definition twoPersonas : App.AppState :=
  {| App.activeRole := POLISHER; App.personas := [persona1; persona2];
     App.selectedPersonaId := Some (lit "id-2") |}.

Definition notesFile : File :=
  {| fileName := lit "notes.pdf"; fileType := pdfType;
     pdfPages := Some [[lit "Hello"; lit "world"]; []];
     textContents := None |}.

End LabTerms.

Unset Implicit Arguments.

(* ================================================================== *)
(** * Facts about strings *)
(* ================================================================== *)

Module JsStringFacts.

Lemma eqb_eq (a b : jsstring) : eqb a b = true <-> a = b.
Proof.
  revert b; induction a as [|x a IH]; intros [|y b]; simpl;
    try (split; congruence).
  rewrite andb_true_iff, N.eqb_eq, IH. split.
  - intros [-> ->]; reflexivity.
  - intros E; injection E; auto.
Qed.

Lemma eqb_refl (a : jsstring) : eqb a a = true.
Proof. apply eqb_eq; reflexivity. Qed.

Lemma eqb_neq (a b : jsstring) : eqb a b = false <-> a <> b.
Proof.
  rewrite <- eqb_eq. destruct (eqb a b); split; congruence.
Qed.

(** ** Prefixes *)

Lemma starts_with_app (pat r : jsstring) : starts_with pat (pat ++ r) = true.
Proof.
  induction pat as [|p pat IH]; simpl; [reflexivity|].
  rewrite N.eqb_refl; exact IH.
Qed.

Lemma starts_with_inv (pat s : jsstring) :
  starts_with pat s = true -> s = pat ++ skipn (length pat) s.
Proof.
  revert s; induction pat as [|p pat IH]; intros s H; simpl in *.
  - reflexivity.
  - destruct s as [|c s]; [discriminate|].
    apply andb_true_iff in H as [E H]. apply N.eqb_eq in E; subst c.
    simpl. f_equal. apply IH, H.
Qed.

Lemma starts_with_ext (pat s t : jsstring) :
  starts_with pat s = true -> starts_with pat (s ++ t) = true.
Proof.
  intros H. rewrite (starts_with_inv _ _ H), <- app_assoc.
  apply starts_with_app.
Qed.

Lemma starts_with_nil_r (pat : jsstring) :
  starts_with pat [] = true -> pat = [].
Proof. destruct pat; simpl; congruence. Qed.

Lemma starts_with_head (pat s : jsstring) (p c : code_unit) :
  p <> c -> starts_with (p :: pat) (c :: s) = false.
Proof.
  intros H; simpl. apply N.eqb_neq in H. rewrite H; reflexivity.
Qed.

(** ** [indexOf]: the first position where the pattern matches *)

Lemma indexOf_cons (pat : jsstring) (c : code_unit) (s : jsstring) :
  indexOf pat (c :: s)
  = if starts_with pat (c :: s) then Some 0
    else option_map S (indexOf pat s).
Proof. reflexivity. Qed.

Lemma indexOf_Some (pat s : jsstring) (i : nat) :
  indexOf pat s = Some i ->
  starts_with pat (skipn i s) = true
  /\ forall j, j < i -> starts_with pat (skipn j s) = false.
Proof.
  revert i; induction s as [|c s IH]; intros i H.
  - simpl in H. destruct (starts_with pat []) eqn:E; [|discriminate].
    injection H as <-. split; [exact E | intros j Hj; lia].
  - rewrite indexOf_cons in H.
    destruct (starts_with pat (c :: s)) eqn:E.
    + injection H as <-. split; [exact E | intros j Hj; lia].
    + destruct (indexOf pat s) as [k|] eqn:K; [|discriminate].
      injection H as <-. destruct (IH k eq_refl) as [A B].
      split; [exact A|]. intros [|j] Hj; [exact E|].
      apply B; lia.
Qed.

Lemma indexOf_first (pat s : jsstring) (i : nat) :
  starts_with pat (skipn i s) = true ->
  (forall j, j < i -> starts_with pat (skipn j s) = false) ->
  indexOf pat s = Some i.
Proof.
  revert i; induction s as [|c s IH]; intros i A B.
  - rewrite skipn_nil in A. simpl. rewrite A.
    destruct i as [|i]; [reflexivity|].
    specialize (B 0 (Nat.lt_0_succ i)). simpl in B. congruence.
  - rewrite indexOf_cons. destruct i as [|i].
    + simpl in A. rewrite A; reflexivity.
    + pose proof (B 0 (Nat.lt_0_succ i)) as B0. simpl in B0.
      rewrite B0, (IH i); [reflexivity | exact A |].
      intros j Hj. apply (B (S j)); lia.
Qed.

Lemma indexOf_None_cons (pat : jsstring) (c : code_unit) (s : jsstring) :
  indexOf pat (c :: s) = None
  <-> starts_with pat (c :: s) = false /\ indexOf pat s = None.
Proof.
  rewrite indexOf_cons.
  destruct (starts_with pat (c :: s)); destruct (indexOf pat s); simpl;
    split; try tauto; try congruence; intros [? ?]; congruence.
Qed.

Lemma indexOf_None_nil (pat : jsstring) :
  indexOf pat [] = None <-> pat <> [].
Proof.
  destruct pat; simpl; split; congruence.
Qed.

Lemma indexOf_None (pat s : jsstring) :
  indexOf pat s = None <-> forall j, starts_with pat (skipn j s) = false.
Proof.
  induction s as [|c s IH].
  - split.
    + intros H j. rewrite skipn_nil. simpl in H.
      destruct (starts_with pat []); congruence.
    + intros H. specialize (H 0). simpl in *. rewrite H; reflexivity.
  - rewrite indexOf_None_cons, IH. split.
    + intros [A B] [|j]; [exact A | apply B].
    + intros H. split; [apply (H 0) | intros j; apply (H (S j))].
Qed.

Lemma indexOf_None_head (pat : jsstring) (p c : code_unit) (s : jsstring) :
  p <> c -> indexOf (p :: pat) s = None -> indexOf (p :: pat) (c :: s) = None.
Proof.
  intros H K. apply indexOf_None_cons. split; [|exact K].
  apply starts_with_head, H.
Qed.

Lemma indexOf_None_suffix (pat a b : jsstring) :
  indexOf pat (a ++ b) = None -> indexOf pat b = None.
Proof.
  induction a as [|c a IH]; simpl app; [auto|].
  intros H. apply indexOf_None_cons in H. apply IH, H.
Qed.

Lemma indexOf_None_prefix (pat a b : jsstring) :
  indexOf pat (a ++ b) = None -> indexOf pat a = None.
Proof.
  induction a as [|c a IH]; simpl app; intros H.
  - apply indexOf_None_nil. intros ->.
    destruct b; simpl in H; discriminate.
  - apply indexOf_None_cons in H as [A B].
    apply indexOf_None_cons. split; [|apply IH, B].
    destruct (starts_with pat (c :: a)) eqn:E; [|reflexivity].
    apply (starts_with_ext _ _ b) in E. simpl app in E. congruence.
Qed.

(** A match needs room for the whole pattern. *)
Lemma starts_with_length (pat s : jsstring) :
  starts_with pat s = true -> length pat <= length s.
Proof.
  intros H. apply starts_with_inv in H.
  apply (f_equal (@length _)) in H. rewrite length_app in H. lia.
Qed.

Lemma indexOf_bound (pat s : jsstring) (i : nat) :
  pat <> [] -> indexOf pat s = Some i -> i + length pat <= length s.
Proof.
  intros Hp H. apply indexOf_Some in H as [A _].
  apply starts_with_length in A. rewrite length_skipn in A.
  destruct pat; [congruence|]. simpl in *. lia.
Qed.

Lemma indexOf_split (pat s : jsstring) (i : nat) :
  indexOf pat s = Some i ->
  s = firstn i s ++ pat ++ skipn (i + length pat) s.
Proof.
  intros H. apply indexOf_Some in H as [A _].
  apply starts_with_inv in A. rewrite skipn_skipn in A.
  rewrite (Nat.add_comm i), <- A. symmetry; apply firstn_skipn.
Qed.

Lemma starts_with_shrink (pat x r : jsstring) :
  starts_with pat (x ++ r) = true -> length pat <= length x ->
  starts_with pat x = true.
Proof.
  revert x; induction pat as [|p pat IH]; intros x H L; [reflexivity|].
  destruct x as [|c x]; simpl in *; [lia|].
  apply andb_true_iff in H as [E H]. rewrite E. simpl.
  apply IH; [exact H | lia].
Qed.

(** When the first match in [a ++ pat] is the final [pat] itself, it is
    also the first match in [a ++ pat ++ r]. *)
Lemma indexOf_app_r (pat a r : jsstring) :
  indexOf pat (a ++ pat) = Some (length a) ->
  indexOf pat (a ++ pat ++ r) = Some (length a).
Proof.
  intros H. apply indexOf_Some in H as [_ B]. apply indexOf_first.
  - rewrite skipn_app, skipn_all, Nat.sub_diag. simpl.
    apply starts_with_app.
  - intros j Hj. specialize (B j Hj).
    destruct (starts_with pat (skipn j (a ++ pat ++ r))) eqn:E;
      [|reflexivity].
    rewrite <- B. symmetry.
    rewrite skipn_app in *.
    replace (j - length a) with 0 in * by lia. simpl skipn in *.
    rewrite app_assoc in E.
    apply (starts_with_shrink _ _ _ E). rewrite length_app. lia.
Qed.

(** ** [split] *)

Lemma split_fuel_S (n : nat) (sep s : jsstring) :
  split_fuel (S n) sep s
  = match indexOf sep s with
    | None => [s]
    | Some i => firstn i s :: split_fuel n sep (skipn (i + length sep) s)
    end.
Proof. reflexivity. Qed.

Lemma split_fuel_enough (sep : jsstring) :
  sep <> [] ->
  forall n m s, length s < n -> length s < m ->
                split_fuel n sep s = split_fuel m sep s.
Proof.
  intros Hsep. induction n as [|n IH]; intros m s Hn Hm; [lia|].
  destruct m as [|m]; [lia|]. simpl.
  destruct (indexOf sep s) as [i|] eqn:E; [|reflexivity].
  f_equal. pose proof (indexOf_bound _ _ _ Hsep E) as L.
  assert (0 < length sep) by (destruct sep; [congruence | simpl; lia]).
  apply IH; rewrite length_skipn; lia.
Qed.

Lemma split_unfold (sep s : jsstring) :
  sep <> [] ->
  split sep s
  = match indexOf sep s with
    | None => [s]
    | Some i => firstn i s :: split sep (skipn (i + length sep) s)
    end.
Proof.
  intros Hsep. unfold split. destruct sep as [|p sep]; [congruence|].
  rewrite split_fuel_S.
  destruct (indexOf (p :: sep) s) as [i|] eqn:E; [|reflexivity].
  f_equal. pose proof (indexOf_bound _ _ _ Hsep E) as L. simpl length in L.
  apply split_fuel_enough; [exact Hsep | |];
    rewrite length_skipn; simpl length; lia.
Qed.

Lemma split_not_nil (sep s : jsstring) : sep <> [] -> split sep s <> [].
Proof.
  intros Hsep. rewrite split_unfold by exact Hsep.
  destruct (indexOf sep s); discriminate.
Qed.

(** ** [replace_all] *)

Lemma replace_all_fuel_S (n : nat) (pat rep s : jsstring) :
  replace_all_fuel (S n) pat rep s
  = match indexOf pat s with
    | None => s
    | Some i =>
      firstn i s ++ rep
             ++ replace_all_fuel n pat rep (skipn (i + length pat) s)
    end.
Proof. reflexivity. Qed.

Lemma replace_all_fuel_enough (pat rep : jsstring) :
  pat <> [] ->
  forall n m s, length s < n -> length s < m ->
                replace_all_fuel n pat rep s = replace_all_fuel m pat rep s.
Proof.
  intros Hp. induction n as [|n IH]; intros m s Hn Hm; [lia|].
  destruct m as [|m]; [lia|]. simpl.
  destruct (indexOf pat s) as [i|] eqn:E; [|reflexivity].
  do 2 f_equal. pose proof (indexOf_bound _ _ _ Hp E) as L.
  assert (0 < length pat) by (destruct pat; [congruence | simpl; lia]).
  apply IH; rewrite length_skipn; lia.
Qed.

Lemma replace_all_unfold (pat rep s : jsstring) :
  pat <> [] ->
  replace_all pat rep s
  = match indexOf pat s with
    | None => s
    | Some i =>
      firstn i s ++ rep ++ replace_all pat rep (skipn (i + length pat) s)
    end.
Proof.
  intros Hp. unfold replace_all. rewrite replace_all_fuel_S.
  destruct (indexOf pat s) as [i|] eqn:E; [|reflexivity].
  do 2 f_equal. pose proof (indexOf_bound _ _ _ Hp E) as L.
  assert (0 < length pat) by (destruct pat; [congruence | simpl; lia]).
  apply replace_all_fuel_enough; [exact Hp | |];
    rewrite length_skipn; lia.
Qed.

(** Removing every match of a pattern made of one character three
    times leaves no match: what precedes a match cannot end with that
    character, so no new match forms across the cut. *)
Lemma starts_with_triple_bridge (b : code_unit) (x r rest : jsstring) :
  x <> [] ->
  starts_with [b; b; b] (x ++ r) = true ->
  starts_with [b; b; b] (x ++ [b; b; b] ++ rest) = true.
Proof.
  intros Hx H.
  destruct x as [|x1 [|x2 [|x3 x]]]; [congruence| | |];
    cbn [app starts_with] in *; rewrite ?N.eqb_refl;
    repeat match goal with
           | K : context [(b =? ?y)%N] |- _ =>
             destruct (b =? y)%N; cbn [andb] in K; try discriminate K
           end; reflexivity.
Qed.

Lemma replace_all_triple (b : code_unit) (n : nat) :
  forall s, length s <= n ->
            indexOf [b; b; b] (replace_all [b; b; b] [] s) = None.
Proof.
  assert (Hp : [b; b; b] <> []) by discriminate.
  induction n as [|n IH]; intros s L;
    rewrite (replace_all_unfold _ _ _ Hp);
    destruct (indexOf [b; b; b] s) as [i|] eqn:E; try exact E.
  - apply (indexOf_bound _ _ _ Hp) in E. simpl in E. lia.
  - pose proof (indexOf_bound _ _ _ Hp E) as Bd. simpl length in Bd.
    pose proof (indexOf_split _ _ _ E) as Hs.
    destruct (indexOf_Some _ _ _ E) as [_ Hmin].
    set (rest := skipn (i + length [b; b; b]) s) in *.
    assert (Hr : indexOf [b; b; b] (replace_all [b; b; b] [] rest) = None).
    { apply IH. unfold rest. rewrite length_skipn. simpl length. lia. }
    set (r := replace_all [b; b; b] [] rest) in *.
    assert (La : length (firstn i s) = i) by (apply firstn_length_le; lia).
    cbn [app]. apply indexOf_None. intros j.
    rewrite skipn_app, La.
    destruct (Nat.lt_ge_cases j i) as [Hj|Hj].
    + replace (j - i) with 0 by lia. cbn [skipn].
      destruct (starts_with [b; b; b] (skipn j (firstn i s) ++ r)) eqn:K;
        [|reflexivity].
      rewrite <- (Hmin j Hj). symmetry.
      rewrite Hs at 1. rewrite skipn_app, La.
      replace (j - i) with 0 by lia. cbn [skipn].
      apply (starts_with_triple_bridge b _ r rest); [|exact K].
      intros Z. apply (f_equal (@length _)) in Z.
      rewrite length_skipn, La in Z. simpl in Z. lia.
    + rewrite skipn_all2 by lia. cbn [app].
      apply (proj1 (indexOf_None _ _) Hr).
Qed.

(** A text without a pattern is without any extension of the pattern. *)
Lemma indexOf_None_longer (pat ext s : jsstring) :
  indexOf pat s = None -> indexOf (pat ++ ext) s = None.
Proof.
  rewrite !indexOf_None. intros H j. specialize (H j).
  destruct (starts_with (pat ++ ext) (skipn j s)) eqn:K; [|reflexivity].
  rewrite <- H. symmetry.
  apply starts_with_inv in K. rewrite K, <- app_assoc.
  apply starts_with_app.
Qed.

(** ** [trim] *)

Lemma trim_start_suffix (s : jsstring) : exists w, s = w ++ trim_start s.
Proof.
  induction s as [|c s [w IH]]; simpl.
  - exists []; reflexivity.
  - destruct (is_space c).
    + exists (c :: w). simpl. f_equal. exact IH.
    + exists []. reflexivity.
Qed.

Lemma trim_end_prefix (s : jsstring) : exists w, s = trim_end s ++ w.
Proof.
  unfold trim_end. destruct (trim_start_suffix (rev s)) as [w H].
  exists (rev w). rewrite <- rev_app_distr, <- H, rev_involutive.
  reflexivity.
Qed.

Lemma trim_factor (s : jsstring) : exists a b, s = a ++ trim s ++ b.
Proof.
  unfold trim. destruct (trim_start_suffix s) as [a Ha].
  destruct (trim_end_prefix (trim_start s)) as [b Hb].
  exists a, b. rewrite <- Hb. exact Ha.
Qed.

Lemma indexOf_None_trim (pat s : jsstring) :
  indexOf pat s = None -> indexOf pat (trim s) = None.
Proof.
  destruct (trim_factor s) as (a & b & E). intros H. rewrite E in H.
  apply indexOf_None_suffix, indexOf_None_prefix in H. exact H.
Qed.

Lemma trim_start_id (c : code_unit) (s : jsstring) :
  is_space c = false -> trim_start (c :: s) = c :: s.
Proof. intros H; simpl; rewrite H; reflexivity. Qed.

(** A text that neither starts nor ends with white space is its own
    trimming. *)
Lemma trim_bracketed (c d : code_unit) (mid : jsstring) :
  is_space c = false -> is_space d = false ->
  trim (c :: mid ++ [d]) = c :: mid ++ [d].
Proof.
  intros Hc Hd. unfold trim, trim_end. rewrite (trim_start_id _ _ Hc).
  replace (rev (c :: mid ++ [d])) with (d :: rev (c :: mid)).
  - rewrite (trim_start_id _ _ Hd).
    change (d :: rev (c :: mid)) with ([d] ++ rev (c :: mid)).
    rewrite rev_app_distr, rev_involutive. reflexivity.
  - change (c :: mid ++ [d]) with ((c :: mid) ++ [d]).
    rewrite rev_app_distr. reflexivity.
Qed.

Lemma trim_nil : trim [] = [].
Proof. reflexivity. Qed.

End JsStringFacts.

Import JsStringFacts.

(* ================================================================== *)
(** * Facts about JSON *)
(* ================================================================== *)

Module JsonFacts.

Local Open Scope N_scope.

(** ** Hexadecimal escapes *)

Lemma hex_value_digit (d : N) : d < 16 -> hex_value (hex_digit d) = Some d.
Proof.
  intros H. unfold hex_digit, hex_value.
  destruct (N.ltb_spec d 10).
  - replace ((0x30 <=? 0x30 + d) && (0x30 + d <=? 0x39)) with true.
    + f_equal; lia.
    + symmetry. apply andb_true_iff; split; apply N.leb_le; lia.
  - replace ((0x30 <=? 0x61 + (d - 10)) && (0x61 + (d - 10) <=? 0x39))
      with false.
    + replace ((0x61 <=? 0x61 + (d - 10)) && (0x61 + (d - 10) <=? 0x66))
        with true.
      * f_equal; lia.
      * symmetry. apply andb_true_iff; split; apply N.leb_le; lia.
    + symmetry. apply andb_false_iff; right. apply N.leb_gt; lia.
Qed.

Lemma hex_digit_not_colon (d : N) : d < 16 -> hex_digit d <> 0x3A.
Proof.
  intros H. unfold hex_digit. destruct (N.ltb_spec d 10); lia.
Qed.

Lemma nibbles (c : N) :
  c < 0x10000 ->
  (((c / 0x1000) mod 16 * 16 + (c / 0x100) mod 16) * 16
   + (c / 0x10) mod 16) * 16 + c mod 16 = c.
Proof.
  intros H.
  replace (c / 0x1000) with (c / 16 / 16 / 16)
    by (rewrite !N.Div0.div_div; reflexivity).
  replace (c / 0x100) with (c / 16 / 16)
    by (rewrite !N.Div0.div_div; reflexivity).
  change 0x10 with 16.
  assert (B : c / 16 / 16 / 16 < 16).
  { rewrite !N.Div0.div_div. apply N.Div0.div_lt_upper_bound. exact H. }
  rewrite (N.mod_small _ _ B).
  pose proof (N.div_mod c 16 ltac:(lia)) as E0.
  pose proof (N.div_mod (c / 16) 16 ltac:(lia)) as E1.
  pose proof (N.div_mod (c / 16 / 16) 16 ltac:(lia)) as E2.
  lia.
Qed.

Lemma hex4_escape (c : N) :
  c < 0x10000 ->
  hex4 (hex_digit ((c / 0x1000) mod 16)) (hex_digit ((c / 0x100) mod 16))
       (hex_digit ((c / 0x10) mod 16)) (hex_digit (c mod 16)) = Some c.
Proof.
  intros H. unfold hex4.
  rewrite !hex_value_digit by (apply N.mod_upper_bound; lia).
  f_equal. apply nibbles, H.
Qed.

(** ** How the string parser reads what [quote_body] writes *)

Lemma parse_plain (c : code_unit) (r : jsstring) :
  c <> quote -> c <> backslash -> 0x20 <= c ->
  parse_string_body (c :: r) = cons_result c (parse_string_body r).
Proof.
  intros Hq Hb Hc. cbn [parse_string_body].
  apply N.eqb_neq in Hq, Hb. rewrite Hq, Hb.
  replace (c <? 0x20) with false by (symmetry; apply N.ltb_ge, Hc).
  reflexivity.
Qed.

Lemma short_escape_inv (c e : code_unit) :
  short_escape c = Some e ->
  (e =? 0x75) = false /\ unescape e = Some c /\ e <> 0x3A.
Proof.
  unfold short_escape.
  repeat match goal with
         | |- context [c =? ?k] =>
           destruct (N.eqb_spec c k) as [->|_];
             [intros [= <-];
              split; [reflexivity | split; [reflexivity | discriminate]]|]
         end.
  discriminate.
Qed.

Lemma short_escape_None (c : code_unit) :
  short_escape c = None -> c <> quote /\ c <> backslash.
Proof.
  unfold short_escape.
  repeat match goal with
         | |- context [c =? ?k] =>
           destruct (N.eqb_spec c k) as [->|?]; [discriminate|]
         end.
  intros _. split; assumption.
Qed.

Lemma parse_short (c e : code_unit) (r : jsstring) :
  short_escape c = Some e ->
  parse_string_body (backslash :: e :: r)
  = cons_result c (parse_string_body r).
Proof.
  intros H. apply short_escape_inv in H as (Hu & He & _).
  cbn [parse_string_body].
  change (backslash =? quote) with false.
  change (backslash =? backslash) with true.
  cbv iota. rewrite Hu, He. reflexivity.
Qed.

Lemma parse_unicode (c : code_unit) (r : jsstring) :
  c < 0x10000 ->
  parse_string_body (unicode_escape c ++ r)
  = cons_result c (parse_string_body r).
Proof.
  intros H. unfold unicode_escape. cbn [app parse_string_body].
  change (backslash =? quote) with false.
  change (backslash =? backslash) with true.
  change (0x75 =? 0x75) with true.
  cbv iota. rewrite (hex4_escape _ H). reflexivity.
Qed.

Lemma surrogate_plain (c : code_unit) :
  is_high_surrogate c = true \/ is_low_surrogate c = true ->
  c <> quote /\ c <> backslash /\ 0x20 <= c /\ c < 0x10000 /\ c <> 0x3A.
Proof.
  unfold is_high_surrogate, is_low_surrogate, quote, backslash.
  intros [H|H]; apply andb_true_iff in H as [A B];
    apply N.leb_le in A, B; repeat split; lia.
Qed.

(** Reading back an escaped string: the parser returns the string that
    was written and stops after the closing quote. *)
Lemma parse_quote_body_le (n : nat) :
  forall s rest,
    (length s <= n)%nat ->
    parse_string_body (quote_body s ++ quote :: rest) = Some (s, rest).
Proof.
  induction n as [|n IH]; intros s rest L.
  - destruct s; [|simpl in L; lia]. simpl.
    change (quote =? quote) with true. reflexivity.
  - destruct s as [|c s].
    { simpl. change (quote =? quote) with true. reflexivity. }
    simpl in L. assert (Ls : (length s <= n)%nat) by lia.
    cbn [quote_body].
    destruct (short_escape c) as [e|] eqn:Es.
    { cbn [app]. rewrite (parse_short _ _ _ Es), (IH s rest Ls).
      reflexivity. }
    destruct (short_escape_None _ Es) as [Hq Hb].
    destruct (N.ltb_spec c 0x20) as [Hc|Hc].
    { rewrite <- app_assoc, parse_unicode by lia.
      rewrite (IH s rest Ls). reflexivity. }
    destruct (is_high_surrogate c) eqn:Hh.
    { destruct (surrogate_plain c (or_introl Hh)) as (_ & _ & _ & Hr & _).
      destruct s as [|d s].
      - rewrite parse_unicode by exact Hr. simpl.
        change (quote =? quote) with true. reflexivity.
      - destruct (is_low_surrogate d) eqn:Hl.
        + destruct (surrogate_plain d (or_intror Hl))
            as (Hq' & Hb' & Hc' & _).
          cbn [app]. rewrite parse_plain by assumption.
          rewrite parse_plain by assumption.
          rewrite (IH s rest) by (simpl in Ls; lia). reflexivity.
        + rewrite <- app_assoc, parse_unicode by exact Hr.
          rewrite (IH (d :: s) rest Ls). reflexivity. }
    destruct (is_low_surrogate c) eqn:Hl.
    { destruct (surrogate_plain c (or_intror Hl)) as (_ & _ & _ & Hr & _).
      rewrite <- app_assoc, parse_unicode by exact Hr.
      rewrite (IH s rest Ls). reflexivity. }
    cbn [app]. rewrite parse_plain by assumption.
    rewrite (IH s rest Ls). reflexivity.
Qed.

Lemma parse_quote_body (s rest : jsstring) :
  parse_string_body (quote_body s ++ quote :: rest) = Some (s, rest).
Proof. apply (parse_quote_body_le (length s)). apply Nat.le_refl. Qed.

(** ** [JSON.parse] after [JSON.stringify] on an array of strings *)

Lemma parse_value_quote (fuel : nat) (r : jsstring) :
  parse_value (S fuel) (quote :: r)
  = match parse_string_body r with
    | Some (str, rest) => POk (JString str) rest
    | None => PErr
    end.
Proof. reflexivity. Qed.

Lemma parse_value_bracket (fuel : nat) (r : jsstring) :
  parse_value (S fuel) (0x5B :: r)
  = match skip_ws r with
    | [] => PErr
    | c' :: r' =>
      if c' =? 0x5D then POk (JArray []) r'
      else match parse_elements fuel r with
           | POk vs rest => POk (JArray vs) rest
           | PErr => PErr
           | PFuel => PFuel
           end
    end.
Proof. reflexivity. Qed.

Lemma parse_elements_S (fuel : nat) (s : jsstring) :
  parse_elements (S fuel) s
  = match parse_value fuel s with
    | POk v r =>
      match skip_ws r with
      | [] => PErr
      | c :: r' =>
        if c =? 0x2C then
          match parse_elements fuel r' with
          | POk vs rest => POk (v :: vs) rest
          | PErr => PErr
          | PFuel => PFuel
          end
        else if c =? 0x5D then POk [v] r'
        else PErr
      end
    | PErr => PErr
    | PFuel => PFuel
    end.
Proof. reflexivity. Qed.

Lemma quote_json_string_app (s rest : jsstring) :
  quote_json_string s ++ rest = quote :: quote_body s ++ quote :: rest.
Proof.
  unfold quote_json_string. simpl. rewrite <- app_assoc. reflexivity.
Qed.

Lemma parse_value_string (fuel : nat) (s rest : jsstring) :
  parse_value (S fuel) (quote_json_string s ++ rest) = POk (JString s) rest.
Proof.
  rewrite quote_json_string_app, parse_value_quote, parse_quote_body.
  reflexivity.
Qed.

Lemma join_cons2 (sep x y : jsstring) (l : list jsstring) :
  join sep (x :: y :: l) = x ++ sep ++ join sep (y :: l).
Proof. reflexivity. Qed.

Lemma parse_elements_strings (l : list jsstring) :
  forall e rest fuel,
    (length l + 1 <= fuel)%nat ->
    parse_elements (S fuel)
      (join [0x2C] (map quote_json_string (e :: l)) ++ 0x5D :: rest)
    = POk (map JString (e :: l)) rest.
Proof.
  induction l as [|e' l IH]; intros e rest fuel L.
  - destruct fuel as [|fuel]; [simpl in L; lia|].
    rewrite parse_elements_S. cbn [map join].
    rewrite parse_value_string. reflexivity.
  - destruct fuel as [|fuel]; [simpl in L; lia|].
    rewrite parse_elements_S. cbn [map]. rewrite join_cons2.
    rewrite <- !app_assoc, parse_value_string.
    cbn [app skip_ws]. change (is_json_ws 0x2C) with false. cbv iota.
    change (0x2C =? 0x2C) with true. cbv iota.
    change (quote_json_string e' :: map quote_json_string l)
      with (map quote_json_string (e' :: l)).
    rewrite IH by (simpl in L; lia). reflexivity.
Qed.

Lemma join_length (l : list jsstring) :
  Nat.le (length l) (length (join [0x2C] (map quote_json_string l))).
Proof.
  induction l as [|e l IH]; [apply Nat.le_refl|].
  destruct l as [|e' l].
  - simpl. lia.
  - cbn [map] in *. rewrite join_cons2, !length_app.
    simpl length in *. lia.
Qed.

Lemma JSON_parse_stringify (l : list jsstring) :
  JSON_parse (JSON_stringify l) = Ok (JArray (map JString l)).
Proof.
  unfold JSON_parse, JSON_stringify, parse_fuel.
  set (body := join [0x2C] (map quote_json_string l)).
  match goal with
  | |- context [parse_value (2 * ?n + 2)%nat _] =>
    replace (2 * n + 2)%nat with (S (S (2 * n))) by lia
  end.
  rewrite parse_value_bracket. subst body.
  destruct l as [|e l].
  - reflexivity.
  - assert (Q : exists t, join [0x2C] (map quote_json_string (e :: l))
                          = quote :: t).
    { destruct l; cbn [map]; [|rewrite join_cons2];
        unfold quote_json_string; simpl; eexists; reflexivity. }
    destruct Q as [t Q].
    replace (skip_ws (join [0x2C] (map quote_json_string (e :: l))
                           ++ [0x5D]))
      with (quote :: t ++ [0x5D]) by (rewrite Q; reflexivity).
    change (quote =? 0x5D) with false. cbv iota.
    rewrite parse_elements_strings; [reflexivity|].
    pose proof (join_length (e :: l)) as B.
    simpl length in *. rewrite length_app. simpl length. lia.
Qed.

Lemma JSON_stringify_trim (l : list jsstring) :
  trim (JSON_stringify l) = JSON_stringify l.
Proof. unfold JSON_stringify. apply trim_bracketed; reflexivity. Qed.

(** ** The fuel of [JSON_parse] is enough *)

Lemma skip_ws_length (s : jsstring) :
  (length (skip_ws s) <= length s)%nat.
Proof.
  induction s as [|c s IH]; simpl; [lia|].
  destruct (is_json_ws c); simpl; lia.
Qed.

Lemma skip_ws_cons (s r : jsstring) (c : code_unit) :
  skip_ws s = c :: r -> (length r < length s)%nat.
Proof.
  intros E. pose proof (skip_ws_length s) as L. rewrite E in L.
  simpl in L. lia.
Qed.

Lemma parse_string_body_length (n : nat) :
  forall s str rest,
    (length s <= n)%nat ->
    parse_string_body s = Some (str, rest) ->
    (length rest < length s)%nat.
Proof.
  induction n as [|n IH]; intros s str rest L E.
  - destruct s; [discriminate | simpl in L; lia].
  - destruct s as [|c r]; [discriminate|]. simpl in L.
    cbn [parse_string_body] in E.
    destruct (c =? quote); [injection E as <- <-; simpl; lia|].
    destruct (c =? backslash).
    + destruct r as [|e r']; [discriminate|].
      destruct (e =? 0x75).
      * destruct r' as [|h1 [|h2 [|h3 [|h4 r'']]]]; try discriminate.
        destruct (hex4 h1 h2 h3 h4); [|discriminate].
        destruct (parse_string_body r'') as [[str' rest']|] eqn:K;
          [|discriminate].
        injection E as <- <-.
        apply IH in K; simpl in *; lia.
      * destruct (unescape e); [|discriminate].
        destruct (parse_string_body r') as [[str' rest']|] eqn:K;
          [|discriminate].
        injection E as <- <-.
        apply IH in K; simpl in *; lia.
    + destruct (c <? 0x20); [discriminate|].
      destruct (parse_string_body r) as [[str' rest']|] eqn:K;
        [|discriminate].
      injection E as <- <-.
      apply IH in K; simpl in *; lia.
Qed.

Lemma span_digits_length (s : jsstring) :
  (length (snd (span_digits s)) <= length s)%nat.
Proof.
  induction s as [|c s IH]; simpl; [lia|].
  destruct (is_digit c); [|simpl; lia].
  destruct (span_digits s); simpl in *; lia.
Qed.

Lemma digits1_length (s ds r : jsstring) :
  digits1 s = Some (ds, r) -> (length r <= length s)%nat.
Proof.
  unfold digits1. pose proof (span_digits_length s) as L.
  destruct (span_digits s) as [[|d ds'] r']; [discriminate|].
  intros [= <- <-]. exact L.
Qed.

Lemma number_int_length (s i r : jsstring) :
  number_int s = Some (i, r) -> (length r < length s)%nat.
Proof.
  unfold number_int. destruct s as [|c s]; [discriminate|].
  destruct (c =? 0x30); [intros [= <- <-]; simpl; lia|].
  destruct (is_digit c); [|discriminate].
  pose proof (span_digits_length s) as L.
  destruct (span_digits s). intros [= <- <-]. simpl in *. lia.
Qed.

Lemma number_frac_length (s f r : jsstring) :
  number_frac s = Some (f, r) -> (length r <= length s)%nat.
Proof.
  unfold number_frac. destruct s as [|c s]; [intros [= <- <-]; lia|].
  destruct (c =? 0x2E); [|intros [= <- <-]; lia].
  destruct (digits1 s) as [[ds r']|] eqn:K; [|discriminate].
  intros [= <- <-]. apply digits1_length in K. simpl. lia.
Qed.

Lemma number_exp_length (s e r : jsstring) :
  number_exp s = Some (e, r) -> (length r <= length s)%nat.
Proof.
  unfold number_exp. destruct s as [|c s]; [intros [= <- <-]; lia|].
  destruct ((c =? 0x65) || (c =? 0x45)); [|intros [= <- <-]; lia].
  destruct s as [|g s0].
  - destruct (digits1 []) as [[ds r']|] eqn:K; [|discriminate].
    intros [= <- <-]. apply digits1_length in K. simpl in *. lia.
  - destruct ((g =? 0x2B) || (g =? 0x2D)).
    + destruct (digits1 s0) as [[ds r']|] eqn:K; [|discriminate].
      intros [= <- <-]. apply digits1_length in K. simpl in *. lia.
    + destruct (digits1 (g :: s0)) as [[ds r']|] eqn:K; [|discriminate].
      intros [= <- <-]. apply digits1_length in K. simpl in *. lia.
Qed.

Lemma parse_number_length (s l r : jsstring) :
  parse_number s = Some (l, r) -> (length r < length s)%nat.
Proof.
  unfold parse_number.
  assert (G : forall s1, (length s1 <= length s)%nat ->
              match number_int s1 with
              | Some (i, s2) =>
                match number_frac s2 with
                | Some (f, s3) =>
                  match number_exp s3 with
                  | Some (e, s4) => (length s4 < length s)%nat
                  | None => True
                  end
                | None => True
                end
              | None => True
              end).
  { intros s1 L1.
    destruct (number_int s1) as [[i s2]|] eqn:K1; [|exact I].
    destruct (number_frac s2) as [[f s3]|] eqn:K2; [|exact I].
    destruct (number_exp s3) as [[e s4]|] eqn:K3; [|exact I].
    apply number_int_length in K1. apply number_frac_length in K2.
    apply number_exp_length in K3. lia. }
  destruct s as [|c s']; [discriminate|].
  destruct (c =? 0x2D).
  - specialize (G s' ltac:(simpl; lia)).
    destruct (number_int s') as [[i s2]|]; [|discriminate].
    destruct (number_frac s2) as [[f s3]|]; [|discriminate].
    destruct (number_exp s3) as [[e s4]|]; [|discriminate].
    intros [= <- <-]. exact G.
  - specialize (G (c :: s') (Nat.le_refl _)).
    destruct (number_int (c :: s')) as [[i s2]|]; [|discriminate].
    destruct (number_frac s2) as [[f s3]|]; [|discriminate].
    destruct (number_exp s3) as [[e s4]|]; [|discriminate].
    intros [= <- <-]. exact G.
Qed.

Ltac after_literal :=
  repeat match goal with
         | |- context [match ?t with _ => _ end] => destruct t
         end;
  simpl in *; lia.

Lemma parse_progress (fuel : nat) : progress_at fuel.
Proof.
  induction fuel as [|fuel (IHv & IHe & IHm)];
    [repeat split; intros; discriminate|].
  repeat split.
  - intros s v r E. cbn [parse_value] in E.
    destruct (skip_ws s) as [|c t] eqn:Ws; [discriminate|].
    apply skip_ws_cons in Ws.
    destruct (c =? quote).
    { destruct (parse_string_body t) as [[str rest]|] eqn:K;
        [|discriminate].
      injection E as <- <-.
      apply (parse_string_body_length (length t)) in K; lia. }
    destruct (c =? 0x5B).
    { destruct (skip_ws t) as [|c' t'] eqn:Wt; [discriminate|].
      apply skip_ws_cons in Wt.
      destruct (c' =? 0x5D); [injection E as <- <-; lia|].
      destruct (parse_elements fuel t) as [vs rest| |] eqn:K;
        try discriminate.
      injection E as <- <-. apply IHe in K. lia. }
    destruct (c =? 0x7B).
    { destruct (skip_ws t) as [|c' t'] eqn:Wt; [discriminate|].
      apply skip_ws_cons in Wt.
      destruct (c' =? 0x7D); [injection E as <- <-; lia|].
      destruct (parse_members fuel t) as [ms rest| |] eqn:K;
        try discriminate.
      injection E as <- <-. apply IHm in K. lia. }
    destruct (starts_with (lit "true") (c :: t));
      [injection E as <- <-; after_literal|].
    destruct (starts_with (lit "false") (c :: t));
      [injection E as <- <-; after_literal|].
    destruct (starts_with (lit "null") (c :: t));
      [injection E as <- <-; after_literal|].
    destruct (parse_number (c :: t)) as [[l rest]|] eqn:K; [|discriminate].
    injection E as <- <-. apply parse_number_length in K. simpl in *. lia.
  - intros s vs r E. cbn [parse_elements] in E.
    destruct (parse_value fuel s) as [v t| |] eqn:K; try discriminate.
    apply IHv in K.
    destruct (skip_ws t) as [|c t'] eqn:Wt; [discriminate|].
    apply skip_ws_cons in Wt.
    destruct (c =? 0x2C).
    { destruct (parse_elements fuel t') as [vs' rest| |] eqn:K';
        try discriminate.
      injection E as <- <-. apply IHe in K'. lia. }
    destruct (c =? 0x5D); [injection E as <- <-; lia | discriminate].
  - intros s ms r E. cbn [parse_members] in E.
    destruct (skip_ws s) as [|q t0] eqn:Ws; [discriminate|].
    apply skip_ws_cons in Ws.
    destruct (q =? quote); [|discriminate].
    destruct (parse_string_body t0) as [[k t1]|] eqn:K0; [|discriminate].
    apply (parse_string_body_length (length t0)) in K0; [|lia].
    destruct (skip_ws t1) as [|c1 t2] eqn:W1; [discriminate|].
    apply skip_ws_cons in W1.
    destruct (c1 =? 0x3A); [|discriminate].
    destruct (parse_value fuel t2) as [v t3| |] eqn:K; try discriminate.
    apply IHv in K.
    destruct (skip_ws t3) as [|c3 t4] eqn:W3; [discriminate|].
    apply skip_ws_cons in W3.
    destruct (c3 =? 0x2C).
    { destruct (parse_members fuel t4) as [ms' rest| |] eqn:K';
        try discriminate.
      injection E as <- <-. apply IHm in K'. lia. }
    destruct (c3 =? 0x7D); [injection E as <- <-; lia | discriminate].
Qed.

Lemma parse_fuel_enough (fuel : nat) : enough_at fuel.
Proof.
  induction fuel as [|fuel (IHv & IHe & IHm)];
    [repeat split; intros; lia|].
  destruct (parse_progress fuel) as (Pv & Pe & Pm).
  repeat split.
  - intros s L. cbn [parse_value].
    destruct (skip_ws s) as [|c t] eqn:Ws; [discriminate|].
    apply skip_ws_cons in Ws.
    destruct (c =? quote).
    { destruct (parse_string_body t) as [[str rest]|]; discriminate. }
    destruct (c =? 0x5B).
    { destruct (skip_ws t) as [|c' t'] eqn:Wt; [discriminate|].
      destruct (c' =? 0x5D); [discriminate|].
      specialize (IHe t ltac:(lia)).
      destruct (parse_elements fuel t); congruence. }
    destruct (c =? 0x7B).
    { destruct (skip_ws t) as [|c' t'] eqn:Wt; [discriminate|].
      destruct (c' =? 0x7D); [discriminate|].
      specialize (IHm t ltac:(lia)).
      destruct (parse_members fuel t); congruence. }
    destruct (starts_with (lit "true") (c :: t)); [discriminate|].
    destruct (starts_with (lit "false") (c :: t)); [discriminate|].
    destruct (starts_with (lit "null") (c :: t)); [discriminate|].
    destruct (parse_number (c :: t)) as [[l rest]|]; discriminate.
  - intros s L. cbn [parse_elements].
    specialize (IHv s ltac:(lia)).
    destruct (parse_value fuel s) as [v t| |] eqn:K;
      [|discriminate|congruence].
    apply Pv in K.
    destruct (skip_ws t) as [|c t'] eqn:Wt; [discriminate|].
    apply skip_ws_cons in Wt.
    destruct (c =? 0x2C).
    { specialize (IHe t' ltac:(lia)).
      destruct (parse_elements fuel t'); congruence. }
    destruct (c =? 0x5D); discriminate.
  - intros s L. cbn [parse_members].
    destruct (skip_ws s) as [|q t0] eqn:Ws; [discriminate|].
    apply skip_ws_cons in Ws.
    destruct (q =? quote); [|discriminate].
    destruct (parse_string_body t0) as [[k t1]|] eqn:K0; [|discriminate].
    apply (parse_string_body_length (length t0)) in K0; [|lia].
    destruct (skip_ws t1) as [|c1 t2] eqn:W1; [discriminate|].
    apply skip_ws_cons in W1.
    destruct (c1 =? 0x3A); [|discriminate].
    specialize (IHv t2 ltac:(lia)).
    destruct (parse_value fuel t2) as [v t3| |] eqn:K;
      [|discriminate|congruence].
    apply Pv in K.
    destruct (skip_ws t3) as [|c3 t4] eqn:W3; [discriminate|].
    apply skip_ws_cons in W3.
    destruct (c3 =? 0x2C).
    { specialize (IHm t4 ltac:(lia)).
      destruct (parse_members fuel t4); congruence. }
    destruct (c3 =? 0x7D); discriminate.
Qed.

(** [JSON_parse] never stops for lack of fuel: its errors are syntax
    errors. *)
Lemma parse_value_fuel_enough (s : jsstring) :
  parse_value (parse_fuel s) s <> PFuel.
Proof.
  apply (proj1 (parse_fuel_enough (parse_fuel s))).
  unfold parse_fuel. lia.
Qed.

Lemma parse_fuel_stable (fuel : nat) : stable_at fuel.
Proof.
  induction fuel as [|fuel (IHv & IHe & IHm)];
    [repeat split; intros s more N; exfalso; apply N; reflexivity|].
  repeat split; intros s more N; cbn [Nat.add].
  - cbn [parse_value] in *.
    destruct (skip_ws s) as [|c t]; [reflexivity|].
    destruct (c =? quote); [reflexivity|].
    destruct (c =? 0x5B).
    { destruct (skip_ws t) as [|c' t']; [reflexivity|].
      destruct (c' =? 0x5D); [reflexivity|].
      rewrite IHe; [reflexivity|].
      intros K. rewrite K in N. apply N; reflexivity. }
    destruct (c =? 0x7B); [|reflexivity].
    destruct (skip_ws t) as [|c' t']; [reflexivity|].
    destruct (c' =? 0x7D); [reflexivity|].
    rewrite IHm; [reflexivity|].
    intros K. rewrite K in N. apply N; reflexivity.
  - cbn [parse_elements] in *.
    rewrite IHv by (intros K; rewrite K in N; apply N; reflexivity).
    destruct (parse_value fuel s) as [v t| |]; try reflexivity.
    destruct (skip_ws t) as [|c t']; [reflexivity|].
    destruct (c =? 0x2C); [|reflexivity].
    rewrite IHe; [reflexivity|].
    intros K. rewrite K in N. apply N; reflexivity.
  - cbn [parse_members] in *.
    destruct (skip_ws s) as [|q t0]; [reflexivity|].
    destruct (q =? quote); [|reflexivity].
    destruct (parse_string_body t0) as [[k t1]|]; [|reflexivity].
    destruct (skip_ws t1) as [|c1 t2]; [reflexivity|].
    destruct (c1 =? 0x3A); [|reflexivity].
    rewrite IHv by (intros K; rewrite K in N; apply N; reflexivity).
    destruct (parse_value fuel t2) as [v t3| |]; try reflexivity.
    destruct (skip_ws t3) as [|c3 t4]; [reflexivity|].
    destruct (c3 =? 0x2C); [|reflexivity].
    rewrite IHm; [reflexivity|].
    intros K. rewrite K in N. apply N; reflexivity.
Qed.

(** The value [JSON_parse] computes is the one any larger fuel gives. *)
Lemma parse_value_any_fuel (s : jsstring) (more : nat) :
  parse_value (parse_fuel s + more) s = parse_value (parse_fuel s) s.
Proof.
  apply (proj1 (parse_fuel_stable (parse_fuel s))).
  apply parse_value_fuel_enough.
Qed.

(** ** Where a pattern can occur in the output of [JSON.stringify] *)

Lemma starts_with_quote_body (pat : jsstring) :
  Forall plain pat ->
  forall e rest,
    starts_with pat (quote_body e ++ quote :: rest) = true ->
    starts_with pat e = true.
Proof.
  induction 1 as [|p pat (Hq & Hb & Hh) _ IH]; intros e rest H;
    [reflexivity|].
  assert (Hesc : forall c r, starts_with (p :: pat)
                               (unicode_escape c ++ r) = false).
  { intros c r. apply starts_with_head, Hb. }
  destruct e as [|c e].
  { simpl in H. apply N.eqb_neq in Hq. rewrite Hq in H. discriminate. }
  cbn [quote_body] in H.
  destruct (short_escape c) as [x|].
  { cbn [app] in H. rewrite starts_with_head in H by exact Hb.
    discriminate. }
  destruct (c <? 0x20).
  { rewrite <- app_assoc, Hesc in H. discriminate. }
  assert (Hplain : starts_with (p :: pat)
                     (c :: quote_body e ++ quote :: rest) = true ->
                   starts_with (p :: pat) (c :: e) = true).
  { cbn [starts_with]. intros K. apply andb_true_iff in K as [K1 K2].
    rewrite K1. simpl. apply (IH e rest K2). }
  destruct (is_high_surrogate c) eqn:Hc.
  { destruct e as [|d e].
    - rewrite Hesc in H. discriminate.
    - destruct (is_low_surrogate d).
      + cbn [app starts_with] in H.
        apply andb_true_iff in H as [K _]. apply N.eqb_eq in K.
        subst c. congruence.
      + rewrite <- app_assoc, Hesc in H. discriminate. }
  destruct (is_low_surrogate c).
  { rewrite <- app_assoc, Hesc in H. discriminate. }
  apply Hplain, H.
Qed.

Section Colon.

(** A pattern that starts with a colon and is made of plain
    characters, such as the suggestion delimiter. *)
Variable pat' : jsstring.
Hypothesis pat'_plain : Forall plain pat'.

Lemma pat_plain : Forall plain (0x3A :: pat').
Proof.
  constructor; [|exact pat'_plain].
  repeat split; discriminate.
Qed.

Lemma unicode_escape_no_colon (c : code_unit) (r : jsstring) :
  indexOf (0x3A :: pat') r = None ->
  indexOf (0x3A :: pat') (unicode_escape c ++ r) = None.
Proof.
  intros H. unfold unicode_escape. cbn [app].
  repeat (apply indexOf_None_head;
          [first [discriminate
                 | apply not_eq_sym, hex_digit_not_colon,
                   N.mod_upper_bound; discriminate]|]).
  exact H.
Qed.

Lemma quote_body_no_pattern (n : nat) :
  forall e rest,
    (length e <= n)%nat ->
    indexOf (0x3A :: pat') e = None ->
    indexOf (0x3A :: pat') (quote :: rest) = None ->
    indexOf (0x3A :: pat') (quote_body e ++ quote :: rest) = None.
Proof.
  induction n as [|n IH]; intros e rest L He Hr.
  - destruct e; [exact Hr | simpl in L; lia].
  - destruct e as [|c e]; [exact Hr|].
    simpl in L. assert (Le : (length e <= n)%nat) by lia.
    apply indexOf_None_cons in He as [Hc He].
    cbn [quote_body].
    destruct (short_escape c) as [x|] eqn:Es.
    { apply short_escape_inv in Es as (_ & _ & Hx). cbn [app].
      apply indexOf_None_head; [discriminate|].
      apply indexOf_None_head; [apply not_eq_sym, Hx|].
      apply IH; assumption. }
    destruct (c <? 0x20).
    { rewrite <- app_assoc. apply unicode_escape_no_colon.
      apply IH; assumption. }
    destruct (is_high_surrogate c) eqn:Hh.
    { destruct e as [|d e].
      - apply unicode_escape_no_colon. simpl. exact Hr.
      - destruct (is_low_surrogate d) eqn:Hl.
        + destruct (surrogate_plain c (or_introl Hh))
            as (_ & _ & _ & _ & K1).
          destruct (surrogate_plain d (or_intror Hl))
            as (_ & _ & _ & _ & K2).
          apply indexOf_None_cons in He as [_ He].
          cbn [app].
          apply indexOf_None_head; [apply not_eq_sym, K1|].
          apply indexOf_None_head; [apply not_eq_sym, K2|].
          apply IH; [simpl in Le; lia | exact He | exact Hr].
        + rewrite <- app_assoc. apply unicode_escape_no_colon.
          apply IH; assumption. }
    destruct (is_low_surrogate c).
    { rewrite <- app_assoc. apply unicode_escape_no_colon.
      apply IH; assumption. }
    cbn [app]. apply indexOf_None_cons. split.
    + destruct (starts_with (0x3A :: pat') (c :: quote_body e ++ quote :: rest))
        eqn:K; [|reflexivity].
      rewrite <- Hc. symmetry. cbn [starts_with] in *.
      apply andb_true_iff in K as [K1 K2]. rewrite K1. simpl.
      apply (starts_with_quote_body _ pat'_plain e rest K2).
    + apply IH; assumption.
Qed.

Lemma stringify_body_no_pattern (l : list jsstring) :
  Forall (fun s => indexOf (0x3A :: pat') s = None) l ->
  indexOf (0x3A :: pat')
          (join [0x2C] (map quote_json_string l) ++ [0x5D]) = None.
Proof.
  induction 1 as [|e l He _ IH].
  - simpl. reflexivity.
  - assert (Step : forall rest,
               indexOf (0x3A :: pat') rest = None ->
               hd 0 rest <> 0x3A ->
               indexOf (0x3A :: pat') (quote_json_string e ++ rest) = None).
    { intros rest Hr Hhd. rewrite quote_json_string_app.
      apply indexOf_None_head; [discriminate|].
      apply (quote_body_no_pattern (length e));
        [apply Nat.le_refl | exact He |].
      apply indexOf_None_head; [discriminate | exact Hr]. }
    destruct l as [|e' l].
    + cbn [map join]. apply Step; [reflexivity | discriminate].
    + cbn [map]. rewrite join_cons2, <- !app_assoc.
      apply Step; [|discriminate].
      cbn [app]. apply indexOf_None_head; [discriminate|].
      exact IH.
Qed.

Lemma stringify_no_pattern (l : list jsstring) :
  Forall (fun s => indexOf (0x3A :: pat') s = None) l ->
  indexOf (0x3A :: pat') (JSON_stringify l) = None.
Proof.
  intros H. unfold JSON_stringify.
  apply indexOf_None_head; [discriminate|].
  apply stringify_body_no_pattern, H.
Qed.

End Colon.

End JsonFacts.

Import JsonFacts.

(* ================================================================== *)
(** * Facts about a turn *)
(* ================================================================== *)

Module TurnFacts.

(** Running the monad: the combinators are unfolded and the projections
    of the states they build are reduced. *)
Ltac run :=
  cbv beta iota zeta delta
      [bind ret throw try_catch try_finally get setMessages setInputValue
       setIsProcessing setDraftContent setResearchNotes setProjectTopic
       record_call randomUUID dateNow callModel callModelStream];
  cbn [fst snd messages inputValue isProcessing draftContent researchNotes
       projectTopic calls messageLog uuidCount clockCount].

Lemma determineNextAgent_run {rt : JsRuntime} (gw : Gateway)
      (history : list (Role * jsstring)) (sent : jsstring) (st : State) :
  determineNextAgent gw history sent st
  = (Ok (routerAnswer gw history sent),
     snd (record_call (RouteRequest history sent) st)).
Proof.
  unfold determineNextAgent, routerAnswer. run.
  destruct (generateContent gw (RouteRequest history sent)); reflexivity.
Qed.

Lemma startTurn_run (env : Env) (st : State) (sent : jsstring) :
  startTurn env st sent st
  = (Ok (userMessage env st sent), started env st sent).
Proof.
  unfold startTurn, started, topicAfter, topicCalls, firesTopic,
    fireTopicExtraction, extractTopicFromInput.
  run.
  destruct (negb (truthy (projectTopic st))
            && (length (messages st) <=? 1)).
  - run. destruct (generateContent (gateway env) (TopicRequest sent))
      as [|response_text]; run.
    + reflexivity.
    + match goal with
      | |- context [truthy ?t] => destruct (truthy t)
      end; reflexivity.
  - run. rewrite app_nil_r. reflexivity.
Qed.

Lemma handleSend_blank {rt : JsRuntime} (env : Env)
      (textOverride : option jsstring) (st : State) :
  truthy (trim (sentText textOverride st)) = false ->
  handleSend env textOverride st = (Ok tt, st).
Proof.
  unfold sentText. intros Hb. unfold handleSend. run. rewrite Hb.
  reflexivity.
Qed.

(** An accepted text starts a turn: the [try] block runs from the
    state [started]. *)
Lemma handleSend_accepted {rt : JsRuntime} (env : Env)
      (textOverride : option jsstring) (st : State) :
  truthy (trim (sentText textOverride st)) = true ->
  handleSend env textOverride st
  = try_finally
      (try_catch
         (turnBody env st (sentText textOverride st)
                   (userMessage env st (sentText textOverride st)))
         (fun _ => setMessages failPending))
      (setIsProcessing false)
      (started env st (sentText textOverride st)).
Proof.
  unfold sentText. intros Hb. unfold handleSend.
  cbv beta iota zeta delta [bind get]. rewrite Hb. cbn [negb].
  rewrite startTurn_run. reflexivity.
Qed.

Lemma turnBody_special {rt : JsRuntime} (env : Env) (st : State)
      (userMsg : ChatMessage) :
  turnBody env st specialCommand userMsg = oneClickFix env st.
Proof. unfold turnBody. rewrite eqb_refl. reflexivity. Qed.

Lemma turnBody_routed {rt : JsRuntime} (env : Env) (st : State)
      (sent : jsstring) (userMsg : ChatMessage) :
  sent <> specialCommand ->
  turnBody env st sent userMsg = routedTurn env st (text userMsg).
Proof.
  intros Hs. unfold turnBody. apply eqb_neq in Hs. rewrite Hs.
  reflexivity.
Qed.

(** ** The one-click fix *)

Lemma handleSend_special {rt : JsRuntime} (env : Env)
      (textOverride : option jsstring) (st : State) :
  sentText textOverride st = specialCommand ->
  handleSend env textOverride st
  = let st1 := started env st specialCommand in
    let pending := agentMessage env st EDITOR fixingText true in
    match generateContent (gateway env) (fixRequest env st) with
    | Reply response_text =>
      (Ok tt,
       {| messages := finalizeById (aiMsgId env st) fixedText
                                   (messages st1 ++ [pending]);
          inputValue := [];
          isProcessing := false;
          draftContent := or_else (stripFences response_text)
                                  (draftContent st);
          researchNotes := researchNotes st;
          projectTopic := projectTopic st1;
          calls := calls st1 ++ [fixRequest env st];
          messageLog :=
            (messageLog st1 ++ [messages st1 ++ [pending]])
              ++ [finalizeById (aiMsgId env st) fixedText
                               (messages st1 ++ [pending])];
          uuidCount := S (S (uuidCount st));
          clockCount := S (S (clockCount st)) |})
    | ReplyThrows =>
      (Ok tt,
       {| messages := failPending (messages st1 ++ [pending]);
          inputValue := [];
          isProcessing := false;
          draftContent := draftContent st;
          researchNotes := researchNotes st;
          projectTopic := projectTopic st1;
          calls := calls st1 ++ [fixRequest env st];
          messageLog :=
            (messageLog st1 ++ [messages st1 ++ [pending]])
              ++ [failPending (messages st1 ++ [pending])];
          uuidCount := S (S (uuidCount st));
          clockCount := S (S (clockCount st)) |})
    end.
Proof.
  intros Hs. rewrite handleSend_accepted by (rewrite Hs; reflexivity).
  rewrite Hs, turnBody_special.
  unfold oneClickFix, applyEditorFixes, fixRequest, agentMessage, aiMsgId.
  run.
  destruct (generateContent (gateway env) _); run; reflexivity.
Qed.

(** ** The routed flow *)

Lemma routedTurn_run {rt : JsRuntime} (env : Env) (st : State)
      (sent : jsstring) :
  routedTurn env st sent (started env st sent)
  = dispatch env st sent (routedAgent env st sent) (aiMsgId env st)
             (dispatched env st sent).
Proof.
  unfold routedTurn. cbv beta iota zeta delta [bind].
  rewrite determineNextAgent_run. run. reflexivity.
Qed.

Lemma handleSend_routed {rt : JsRuntime} (env : Env)
      (textOverride : option jsstring) (st : State) :
  let sent := sentText textOverride st in
  truthy (trim sent) = true ->
  sent <> specialCommand ->
  handleSend env textOverride st
  = try_finally
      (try_catch
         (dispatch env st sent (routedAgent env st sent) (aiMsgId env st))
         (fun _ => setMessages failPending))
      (setIsProcessing false)
      (dispatched env st sent).
Proof.
  intros sent Hb Hs. rewrite handleSend_accepted by exact Hb.
  fold sent. rewrite (turnBody_routed _ _ _ _ Hs).
  cbv beta iota zeta delta [try_finally try_catch].
  cbn [text userMessage]. rewrite routedTurn_run. reflexivity.
Qed.

(** ** Merging the chunks of a stream *)

Lemma finalizeById_twice (replyId t1 t2 : jsstring)
      (ms : list ChatMessage) :
  finalizeById replyId t2 (finalizeById replyId t1 ms)
  = finalizeById replyId t2 ms.
Proof.
  unfold finalizeById. rewrite map_map. apply map_ext. intros m.
  destruct (eqb (id m) replyId) eqn:E; cbn [id]; rewrite E; reflexivity.
Qed.

Lemma last_cons {A} (l : list A) :
  forall a d, last (a :: l) d = last l a.
Proof.
  induction l as [|b l IH]; intros a d; [reflexivity|].
  change (last (a :: b :: l) d) with (last (b :: l) d).
  rewrite !IH. reflexivity.
Qed.

Lemma consumeChunks_run (replyId : jsstring) (cs : list chunk) :
  forall fullText st,
    let texts := accumulated fullText (incrementsOf cs) in
    let frames :=
        map (fun t => finalizeById replyId t (messages st)) texts in
    consumeChunks replyId fullText cs st
    = (Ok (last texts fullText),
       {| messages := last frames (messages st);
          inputValue := inputValue st;
          isProcessing := isProcessing st;
          draftContent := draftContent st;
          researchNotes := researchNotes st;
          projectTopic := projectTopic st;
          calls := calls st;
          messageLog := messageLog st ++ frames;
          uuidCount := uuidCount st;
          clockCount := clockCount st |}).
Proof.
  induction cs as [|c cs IH]; intros fullText st.
  - cbn. rewrite app_nil_r. destruct st; reflexivity.
  - cbn [consumeChunks incrementsOf map accumulated].
    unfold updateAiMessage. cbv beta iota zeta delta [bind setMessages].
    rewrite IH. cbn [messages inputValue isProcessing draftContent
                     researchNotes projectTopic calls messageLog uuidCount
                     clockCount].
    fold (incrementsOf cs).
    set (full' := fullText ++ to_string (chunk_text c)).
    assert (E : map (fun t => finalizeById replyId t
                                (finalizeById replyId full' (messages st)))
                    (accumulated full' (incrementsOf cs))
                = map (fun t => finalizeById replyId t (messages st))
                      (accumulated full' (incrementsOf cs))).
    { apply map_ext. intros t. apply finalizeById_twice. }
    rewrite E, !last_cons, <- app_assoc. reflexivity.
Qed.

Lemma consumeStream_run (replyId : jsstring) (s : stream) (st : State) :
  consumeStream replyId s st
  = (match ending s with
     | EndOfStream => Ok tt
     | StreamThrows => Raise GatewayError
     end,
     afterChunks replyId (chunks s) st).
Proof.
  unfold consumeStream. cbv beta iota zeta delta [bind].
  rewrite consumeChunks_run. unfold afterChunks.
  destruct (ending s); reflexivity.
Qed.

(** A routed turn whose agent streams sends the request
    [streamRequest] and merges the reply. *)
Lemma dispatch_stream (env : Env) (st : State) (sent : jsstring)
      (agent : RoleId) (replyId : jsstring) (rq : request) :
  streamRequest env st sent agent = Some rq ->
  dispatch env st sent agent replyId
  = bind (callModelStream (gateway env) rq) (consumeStream replyId).
Proof.
  unfold streamRequest, contentToReview, dispatch, executeWriting,
    critiqueDraft, chatWithChief.
  destruct agent; try (intros [= <-]; reflexivity); try discriminate.
  destruct (truthy _); [intros [= <-]; reflexivity | discriminate].
Qed.

Lemma dispatch_stream_run (env : Env) (st : State) (sent : jsstring)
      (agent : RoleId) (replyId : jsstring) (rq : request) (st2 : State) :
  streamRequest env st sent agent = Some rq ->
  dispatch env st sent agent replyId st2
  = match generateContentStream (gateway env) rq with
    | StreamCallThrows => (Raise GatewayError, withCall rq st2)
    | StreamReply s =>
      (match ending s with
       | EndOfStream => Ok tt
       | StreamThrows => Raise GatewayError
       end,
       afterChunks replyId (chunks s) (withCall rq st2))
    end.
Proof.
  intros Hrq. rewrite (dispatch_stream _ _ _ _ _ _ Hrq).
  unfold callModelStream, withCall.
  cbv beta iota zeta delta [bind record_call throw ret].
  destruct (generateContentStream (gateway env) rq) as [|s];
    [reflexivity|].
  rewrite consumeStream_run. reflexivity.
Qed.

(** The whole turn, when the agent streams. *)
Lemma handleSend_stream {rt : JsRuntime} (env : Env)
      (textOverride : option jsstring) (st : State) (rq : request) :
  let sent := sentText textOverride st in
  truthy (trim sent) = true ->
  sent <> specialCommand ->
  streamRequest env st sent (routedAgent env st sent) = Some rq ->
  handleSend env textOverride st
  = (Ok tt,
     match generateContentStream (gateway env) rq with
     | StreamCallThrows =>
       finished (caught (withCall rq (dispatched env st sent)))
     | StreamReply s =>
       let st3 := afterChunks (aiMsgId env st) (chunks s)
                              (withCall rq (dispatched env st sent)) in
       match ending s with
       | EndOfStream => finished st3
       | StreamThrows => finished (caught st3)
       end
     end).
Proof.
  intros sent Hb Hs Hrq.
  rewrite handleSend_routed by assumption. fold sent.
  cbv beta iota zeta delta [try_finally try_catch].
  rewrite (dispatch_stream_run _ _ _ _ _ _ _ Hrq).
  destruct (generateContentStream (gateway env) rq) as [|s];
    [reflexivity|].
  destruct (ending s); reflexivity.
Qed.

End TurnFacts.

Import TurnFacts.

(* ================================================================== *)
(** * The suggestion parser *)
(* ================================================================== *)

Module ParserFacts.

Lemma delimiter_not_nil : delimiter <> [].
Proof. discriminate. Qed.

Lemma delimiter_shape :
  exists pat', delimiter = 0x3A%N :: pat' /\ Forall plain pat'.
Proof.
  eexists. split; [reflexivity|].
  repeat constructor; discriminate.
Qed.

(** Without delimiter the whole text is displayed. *)
Lemma parse_without_delimiter (content : jsstring) :
  indexOf delimiter content = None ->
  parseMessageContent content
  = Ok {| cleanText := trim content; suggestions := JArray [] |}.
Proof.
  intros H. unfold parseMessageContent.
  rewrite (split_unfold _ _ delimiter_not_nil), H. reflexivity.
Qed.

(** With a delimiter, the text before its first occurrence is displayed
    and the text up to the next occurrence is the payload. *)
Lemma parse_at_delimiter (content : jsstring) (i : nat) :
  indexOf delimiter content = Some i ->
  parseMessageContent content
  = Ok {| cleanText := trim (firstn i content);
          suggestions :=
            match JSON_parse
                    (trim (upToDelimiter
                             (skipn (i + length delimiter) content))) with
            | Ok v => v
            | Raise _ => JArray []
            end |}.
Proof.
  intros H. unfold parseMessageContent, upToDelimiter.
  rewrite (split_unfold _ _ delimiter_not_nil), H.
  set (rest := skipn (i + length delimiter) content).
  rewrite (split_unfold _ rest delimiter_not_nil).
  destruct (indexOf delimiter rest); reflexivity.
Qed.

Lemma parseMessageContent_total (content : jsstring) :
  exists p, parseMessageContent content = Ok p.
Proof.
  destruct (indexOf delimiter content) as [i|] eqn:E.
  - rewrite (parse_at_delimiter _ _ E). eexists; reflexivity.
  - rewrite (parse_without_delimiter _ E). eexists; reflexivity.
Qed.

Lemma includes_false (pat s : jsstring) :
  includes pat s = false <-> indexOf pat s = None.
Proof.
  unfold includes. destruct (indexOf pat s); split; congruence.
Qed.

Lemma stringify_no_delimiter (items : list jsstring) :
  Forall (fun s => includes delimiter s = false) items ->
  indexOf delimiter (JSON_stringify items) = None.
Proof.
  intros H. destruct delimiter_shape as (pat' & E & Hp).
  rewrite E. apply (stringify_no_pattern _ Hp).
  eapply Forall_impl; [|exact H]. intros s Hs.
  rewrite <- E. apply includes_false, Hs.
Qed.

(** C5 (as amended). Suggestion-chip round trip: for every displayText
    such that the delimiter appended to it is the first occurrence of the
    delimiter in the concatenation, and every list of strings none of
    which contains the delimiter, parsing
    displayText + delimiter + JSON.stringify(list) yields
    displayText.trim() as the display text and exactly list as the
    suggestions. *)
Theorem suggestions_round_trip (displayText : jsstring)
        (items : list jsstring) :
  indexOf delimiter (displayText ++ delimiter) = Some (length displayText) ->
  Forall (fun s => includes delimiter s = false) items ->
  parseMessageContent (displayText ++ delimiter ++ JSON_stringify items)
  = Ok {| cleanText := trim displayText;
          suggestions := JArray (map JString items) |}.
Proof.
  intros Hd Hl.
  rewrite (parse_at_delimiter _ (length displayText))
    by (apply indexOf_app_r, Hd).
  rewrite firstn_app, firstn_all, Nat.sub_diag, app_nil_r.
  rewrite skipn_app, skipn_all2, Nat.add_comm, Nat.add_sub by lia.
  cbn [app]. rewrite skipn_app, skipn_all, Nat.sub_diag. cbn [app skipn].
  unfold upToDelimiter. rewrite (stringify_no_delimiter _ Hl).
  rewrite JSON_stringify_trim, JSON_parse_stringify. reflexivity.
Qed.

Lemma suggestions_round_trip_witness :
  parseMessageContent
    (lit " pick one " ++ delimiter
         ++ JSON_stringify [lit "yes"; quote :: lit "no\"])
  = Ok {| cleanText := trim (lit " pick one ");
          suggestions :=
            JArray (map JString [lit "yes"; quote :: lit "no\"]) |}.
Proof.
  apply suggestions_round_trip.
  - vm_compute. reflexivity.
  - repeat constructor.
Defined.

(** C5 fails as stated.  A displayText that ends with the start of the
    delimiter does not contain the delimiter, yet together with the
    appended delimiter it forms an earlier occurrence; and a list element
    that contains the delimiter cuts the payload short. *)
Lemma suggestions_round_trip_counterexample :
  (includes delimiter (lit ":::SUGGESTIONS") = false
   /\ parseMessageContent
        (lit ":::SUGGESTIONS" ++ delimiter ++ JSON_stringify [lit "a"])
      = Ok {| cleanText := []; suggestions := JArray [] |}
   /\ trim (lit ":::SUGGESTIONS") <> [])
  /\ (includes delimiter (lit "x") = false
      /\ parseMessageContent
           (lit "x" ++ delimiter
                ++ JSON_stringify [lit "a:::SUGGESTIONS:::b"])
         = Ok {| cleanText := lit "x"; suggestions := JArray [] |}).
Proof.
  repeat split; try (vm_compute; reflexivity). discriminate.
Qed.

Lemma upToDelimiter_whole (s : jsstring) :
  includes delimiter s = false -> upToDelimiter s = s.
Proof.
  intros H. apply includes_false in H. unfold upToDelimiter.
  rewrite H. reflexivity.
Qed.

(** C6. The parser returns a result on every text.  For every raw text
    that contains the delimiter and whose payload, the text between the
    first occurrence of the delimiter and the next one (or the end), is
    not valid JSON once trimmed, it returns the trimmed prefix as display
    text and an empty list of suggestions.  This is so in particular when
    the text after the first delimiter holds no further delimiter and is
    not valid JSON. *)
Theorem malformed_payload_is_dropped :
  (forall content, exists p, parseMessageContent content = Ok p)
  /\ (forall content i,
         indexOf delimiter content = Some i ->
         (forall v, JSON_parse
                      (trim (upToDelimiter
                               (skipn (i + length delimiter) content)))
                    <> Ok v) ->
         parseMessageContent content
         = Ok {| cleanText := trim (firstn i content);
                 suggestions := JArray [] |})
  /\ (forall content i,
         indexOf delimiter content = Some i ->
         includes delimiter (skipn (i + length delimiter) content)
         = false ->
         (forall v, JSON_parse
                      (trim (skipn (i + length delimiter) content))
                    <> Ok v) ->
         parseMessageContent content
         = Ok {| cleanText := trim (firstn i content);
                 suggestions := JArray [] |}).
Proof.
  assert (H : forall content i,
             indexOf delimiter content = Some i ->
             (forall v, JSON_parse
                          (trim (upToDelimiter
                                   (skipn (i + length delimiter) content)))
                        <> Ok v) ->
             parseMessageContent content
             = Ok {| cleanText := trim (firstn i content);
                     suggestions := JArray [] |}).
  { intros content i Hi Hbad. rewrite (parse_at_delimiter _ _ Hi).
    destruct (JSON_parse _) as [v|e]; [|reflexivity].
    exfalso. exact (Hbad v eq_refl). }
  split; [exact parseMessageContent_total|]. split; [exact H|].
  intros content i Hi Hn Hbad. apply (H _ _ Hi).
  rewrite (upToDelimiter_whole _ Hn). exact Hbad.
Qed.

(** The text after the first delimiter need not be malformed as far as
    the parser reads it: here it is not valid JSON as a whole, but the
    piece up to the second delimiter is, and that piece is what the
    parser returns as suggestions. *)
Lemma malformed_payload_counterexample :
  let raw := lit "x:::SUGGESTIONS:::[1]:::SUGGESTIONS:::y" in
  let suffix := skipn (1 + length delimiter) raw in
  indexOf delimiter raw = Some 1
  /\ suffix = lit "[1]:::SUGGESTIONS:::y"
  /\ (forall v, JSON_parse suffix <> Ok v)
  /\ (forall v, JSON_parse (trim suffix) <> Ok v)
  /\ parseMessageContent raw
     = Ok {| cleanText := lit "x";
             suggestions := JArray [JNumber (lit "1")] |}
  /\ parseMessageContent raw
     <> Ok {| cleanText := trim (firstn 1 raw);
              suggestions := JArray [] |}.
Proof.
  repeat split; try (vm_compute; reflexivity);
    try (intros v; vm_compute; discriminate).
Qed.

(** The reply of the critic to an empty subject carries a payload
    without quotes, which is not JSON. *)
Lemma malformed_payload_is_dropped_witness :
  parseMessageContent (nothingToReviewText [])
  = Ok {| cleanText := trim (firstn 24 (nothingToReviewText []));
          suggestions := JArray [] |}.
Proof.
  apply (proj1 (proj2 malformed_payload_is_dropped)).
  - vm_compute. reflexivity.
  - intros v. vm_compute. discriminate.
Defined.

(** C10. The parser does not check the shape of the payload: whenever
    the payload is valid JSON, of whatever type, the parsed value is
    returned as the suggestions; a number, a string and an object are
    returned as they are. *)
Theorem payload_is_not_validated :
  (forall content i v,
      indexOf delimiter content = Some i ->
      JSON_parse (trim (upToDelimiter
                          (skipn (i + length delimiter) content))) = Ok v ->
      parseMessageContent content
      = Ok {| cleanText := trim (firstn i content); suggestions := v |})
  /\ parseMessageContent (lit "ok:::SUGGESTIONS::: 42")
     = Ok {| cleanText := lit "ok"; suggestions := JNumber (lit "42") |}
  /\ parseMessageContent (lit "ok:::SUGGESTIONS:::" ++ quoted "go on")
     = Ok {| cleanText := lit "ok"; suggestions := JString (lit "go on") |}
  /\ parseMessageContent
       (lit "ok:::SUGGESTIONS:::{" ++ quoted "a" ++ lit ":null}")
     = Ok {| cleanText := lit "ok";
             suggestions := JObject [(lit "a", JNull)] |}.
Proof.
  split; [|repeat split; vm_compute; reflexivity].
  intros content i v Hi Hv. rewrite (parse_at_delimiter _ _ Hi), Hv.
  reflexivity.
Qed.

Lemma payload_is_not_validated_witness :
  let raw := lit "total:::SUGGESTIONS::: [1, true] :::SUGGESTIONS:::x" in
  parseMessageContent raw
  = Ok {| cleanText := trim (firstn 5 raw);
          suggestions := JArray [JNumber (lit "1"); JBool true] |}.
Proof.
  intros raw. apply (proj1 payload_is_not_validated).
  - vm_compute. reflexivity.
  - vm_compute. reflexivity.
Defined.

End ParserFacts.

Import ParserFacts.

(* ================================================================== *)
(** * The services *)
(* ================================================================== *)

Module ServiceFacts.

Lemma validateAgent_allowed (t : jsstring) :
  In (validateAgent t) allowedAgents.
Proof.
  unfold validateAgent.
  destruct (find _ allowedAgents) as [r|] eqn:F.
  - apply find_some in F. apply F.
  - left; reflexivity.
Qed.

Lemma validateAgent_default (t : jsstring) :
  ~ In t (map RoleId_value allowedAgents) -> validateAgent t = CHIEF.
Proof.
  intros Hn. unfold validateAgent.
  destruct (find _ allowedAgents) as [r|] eqn:F; [|reflexivity].
  apply find_some in F as [Hin Heq]. apply eqb_eq in Heq. subst t.
  exfalso. apply Hn. apply in_map, Hin.
Qed.

Lemma routerText_default {rt : JsRuntime} (response_text : option jsstring) :
  (forall t, response_text = Some t ->
             ~ In (normalized t) (map RoleId_value allowedAgents)) ->
  validateAgent (routerText response_text) = CHIEF.
Proof.
  intros Hn. destruct response_text as [t|]; [|reflexivity].
  specialize (Hn t eq_refl). unfold routerText. fold (normalized t).
  unfold or_else. destruct (truthy (normalized t)); [|reflexivity].
  apply validateAgent_default, Hn.
Qed.

(** C4. [determineNextAgent] never raises and always resolves to one of
    the four allowed identities; it resolves to the default identity
    (chief) when the call to the hosted model throws, when the response
    has no text, and whenever the normalised text (trimmed, lower-cased,
    quotes stripped) is outside the allowed set, which holds neither the
    analyzer identity nor the empty string. *)
Theorem router_defaults_to_chief {rt : JsRuntime} (gw : Gateway)
        (history : list (Role * jsstring)) (latest : jsstring)
        (st : State) :
  (exists agent,
      determineNextAgent gw history latest st
      = (Ok agent, withCall (RouteRequest history latest) st)
      /\ In agent allowedAgents)
  /\ (generateContent gw (RouteRequest history latest) = ReplyThrows ->
      fst (determineNextAgent gw history latest st) = Ok CHIEF)
  /\ (generateContent gw (RouteRequest history latest) = Reply None ->
      fst (determineNextAgent gw history latest st) = Ok CHIEF)
  /\ (forall t,
         generateContent gw (RouteRequest history latest)
         = Reply (Some t) ->
         ~ In (normalized t) (map RoleId_value allowedAgents) ->
         fst (determineNextAgent gw history latest st) = Ok CHIEF)
  /\ ~ In (RoleId_value POLISHER) (map RoleId_value allowedAgents)
  /\ ~ In [] (map RoleId_value allowedAgents).
Proof.
  rewrite determineNextAgent_run. unfold routerAnswer. cbn [fst].
  split; [|split; [|split; [|split; [|split]]]].
  - eexists. split; [reflexivity|].
    destruct (generateContent gw _); [left; reflexivity|].
    apply validateAgent_allowed.
  - intros ->. reflexivity.
  - intros ->. reflexivity.
  - intros t -> Hn. f_equal. apply routerText_default.
    intros t' [= <-]. exact Hn.
  - cbn. intros [K|[K|[K|[K|[]]]]]; discriminate K.
  - cbn. intros [K|[K|[K|[K|[]]]]]; discriminate K.
Qed.

Lemma router_defaults_to_chief_witness :
  fst (determineNextAgent (rt := ascii_runtime) polisherGateway []
                          (lit "analyze my style") initialState)
  = Ok CHIEF.
Proof.
  apply (proj1 (proj2 (proj2 (proj2
           (router_defaults_to_chief (rt := ascii_runtime) polisherGateway []
              (lit "analyze my style") initialState)))) (quoted "Polisher")).
  - reflexivity.
  - vm_compute. intros [K|[K|[K|[K|[]]]]]; discriminate K.
Defined.

Lemma fence_removed (s : jsstring) :
  indexOf fence (replace_all fence [] s) = None.
Proof. apply (replace_all_triple backtick (length s)), Nat.le_refl. Qed.

(** C9. When the hosted model answers, [applyEditorFixes] returns its
    text with the occurrences of the markdown fence, then those of the
    triple backtick, removed, and trimmed; the result is empty when the
    answer has no text; it never contains a triple backtick, nor
    therefore a markdown fence. *)
Theorem fixes_never_contain_a_fence (gw : Gateway)
        (draft critique : jsstring) (persona : option Persona)
        (st : State) (response_text : option jsstring) :
  generateContent gw (FixRequest draft critique persona)
  = Reply response_text ->
  let result :=
      trim (replace_all fence []
              (replace_all markdownFence []
                           (opt_or_else response_text []))) in
  applyEditorFixes gw draft critique persona st
  = (Ok result, withCall (FixRequest draft critique persona) st)
  /\ includes fence result = false
  /\ includes markdownFence result = false
  /\ (response_text = None \/ response_text = Some [] -> result = []).
Proof.
  intros Hg result.
  assert (Hf : indexOf fence result = None)
    by (apply indexOf_None_trim, fence_removed).
  split; [|split; [|split]].
  - unfold applyEditorFixes, withCall. run. rewrite Hg. reflexivity.
  - apply includes_false, Hf.
  - apply includes_false. unfold markdownFence.
    apply indexOf_None_longer, Hf.
  - intros [->| ->]; reflexivity.
Qed.

Lemma fixes_never_contain_a_fence_witness :
  applyEditorFixes (gateway fixerEnv) (lit "旧稿") (lit "逻辑混乱，开头太弱")
                   None draftingState
  = (Ok (lit "新稿"),
     withCall (FixRequest (lit "旧稿") (lit "逻辑混乱，开头太弱") None)
              draftingState)
  /\ includes fence (lit "新稿") = false.
Proof.
  destruct (fixes_never_contain_a_fence
              (gateway fixerEnv) (lit "旧稿") (lit "逻辑混乱，开头太弱")
              None draftingState (Some fencedAnswer) eq_refl)
    as (A & B & _).
  split; [exact A | exact B].
Defined.

End ServiceFacts.

Import ServiceFacts.

(* ================================================================== *)
(** * The orchestrator *)
(* ================================================================== *)

Module OrchestratorFacts.

(** ** Updates of the message list *)

Lemma finalizeById_reply (env : Env) (st : State) (agent : RoleId)
      (t0 t : jsstring) (b : bool) (ms : list ChatMessage) :
  finalizeById (aiMsgId env st) t (ms ++ [agentMessage env st agent t0 b])
  = finalizeById (aiMsgId env st) t ms ++ [agentMessage env st agent t false].
Proof.
  unfold finalizeById. rewrite map_app. cbn [map agentMessage id].
  rewrite eqb_refl. reflexivity.
Qed.

Lemma failPending_turn (env : Env) (st : State) (sent : jsstring)
      (agent : RoleId) (t : jsstring) :
  failPending (messages st ++ [userMessage env st sent;
                               agentMessage env st agent t true])
  = failPending (messages st)
                ++ [userMessage env st sent;
                    agentMessage env st agent errorText false].
Proof. unfold failPending. rewrite map_app. reflexivity. Qed.

(** A reply that is no longer marked as thinking is left alone by the
    [catch] clause. *)
Lemma failPending_settled (env : Env) (st : State) (agent : RoleId)
      (t : jsstring) (ms : list ChatMessage) :
  failPending (ms ++ [agentMessage env st agent t false])
  = failPending ms ++ [agentMessage env st agent t false].
Proof. unfold failPending. rewrite map_app. reflexivity. Qed.

(** ** The texts a stream goes through *)

Lemma accumulated_concat (increments : list jsstring) :
  forall fullText,
    accumulated fullText increments
    = map (fun k => fullText ++ concat (firstn k increments))
          (seq 1 (length increments)).
Proof.
  induction increments as [|t rest IH]; intros fullText; [reflexivity|].
  cbn [accumulated length seq map firstn concat].
  rewrite app_nil_r. f_equal.
  rewrite IH, <- (seq_shift (length rest) 1), map_map. apply map_ext. intros k.
  cbn [firstn concat]. rewrite app_assoc. reflexivity.
Qed.

Lemma incrementsOf_text (increments : list jsstring) :
  incrementsOf (map textChunk increments) = increments.
Proof.
  unfold incrementsOf. rewrite map_map. cbn. apply map_id.
Qed.

Lemma last_map_seq {A} (f : nat -> A) (n : nat) :
  last (map f (seq 1 n)) (f 0) = f n.
Proof.
  destruct n as [|n]; [reflexivity|].
  rewrite seq_S, map_app. cbn [map]. apply last_last.
Qed.

(** ** The log of requests *)

Lemma skipn_app_exact {A} (a b : list A) : skipn (length a) (a ++ b) = b.
Proof. rewrite skipn_app, skipn_all, Nat.sub_diag. reflexivity. Qed.

Lemma callsDuring_intro {A} (m : M A) (st : State) (added : list request) :
  calls (snd (m st)) = calls st ++ added -> callsDuring m st = added.
Proof. unfold callsDuring. intros ->. apply skipn_app_exact. Qed.

Lemma topicCalls_no_route (st : State) (sent : jsstring) :
  filter is_route_request (topicCalls st sent) = [].
Proof. unfold topicCalls. destruct (firesTopic st); reflexivity. Qed.

(** ** The end of every turn *)

Lemma guarded_body (body : M unit) (st : State) :
  let r := try_finally (try_catch body (fun _ => setMessages failPending))
                       (setIsProcessing false) st in
  fst r = Ok tt /\ isProcessing (snd r) = false.
Proof.
  cbv beta iota zeta delta [try_finally try_catch setMessages
                            setIsProcessing].
  destruct (body st) as [[[]|e] st1]; split; reflexivity.
Qed.

Lemma handleSend_settles {rt : JsRuntime} (env : Env)
      (textOverride : option jsstring) (st : State) :
  truthy (trim (sentText textOverride st)) = true ->
  fst (handleSend env textOverride st) = Ok tt
  /\ isProcessing (snd (handleSend env textOverride st)) = false.
Proof.
  intros Hb. rewrite (handleSend_accepted _ _ _ Hb). apply guarded_body.
Qed.

(** ** The special command *)

Lemma handleSend_special_calls {rt : JsRuntime} (env : Env)
      (textOverride : option jsstring) (st : State) :
  sentText textOverride st = specialCommand ->
  callsDuring (handleSend env textOverride) st
  = topicCalls st specialCommand ++ [fixRequest env st].
Proof.
  intros Hs. apply callsDuring_intro.
  rewrite (handleSend_special _ _ _ Hs). cbv zeta.
  destruct (generateContent (gateway env) (fixRequest env st));
    cbn [snd calls started]; rewrite <- app_assoc; reflexivity.
Qed.

(** C3. For every user input equal to the special-command literal, the
    turn sends no request to the router: the requests of the turn are
    the topic extraction, if the turn starts it, and the apply-fixes
    request. *)
Theorem special_command_bypasses_router {rt : JsRuntime} (env : Env)
        (textOverride : option jsstring) (st : State) :
  sentText textOverride st = specialCommand ->
  routerCalls (handleSend env textOverride) st = 0
  /\ callsDuring (handleSend env textOverride) st
     = topicCalls st specialCommand ++ [fixRequest env st].
Proof.
  intros Hs. split; [|apply handleSend_special_calls, Hs].
  unfold routerCalls. rewrite (handleSend_special_calls _ _ _ Hs).
  rewrite filter_app, topicCalls_no_route. reflexivity.
Qed.

Lemma special_command_bypasses_router_witness :
  routerCalls (handleSend (rt := ascii_runtime) fixerEnv None) draftingState
  = 0
  /\ callsDuring (handleSend (rt := ascii_runtime) fixerEnv None)
                 draftingState
     = topicCalls draftingState specialCommand
                  ++ [fixRequest fixerEnv draftingState].
Proof.
  apply (special_command_bypasses_router (rt := ascii_runtime)).
  reflexivity.
Defined.

(** C2 (as amended). When the user input equals the special-command
    literal and the apply-fixes call succeeds, the orchestrator overwrites
    draftContent with the result when it is not empty and leaves it
    unchanged otherwise, finalizes the pending critic-tagged message with
    a fixed confirmation string that carries three suggestion chips, and
    ends the turn: the turn is no longer in progress and no other request
    follows. *)
Theorem one_click_fix_applies {rt : JsRuntime} (env : Env)
        (textOverride : option jsstring) (st : State)
        (response_text : option jsstring) :
  sentText textOverride st = specialCommand ->
  generateContent (gateway env) (fixRequest env st) = Reply response_text ->
  let result := stripFences response_text in
  let st' := snd (handleSend env textOverride st) in
  fst (handleSend env textOverride st) = Ok tt
  /\ draftContent st' = (if truthy result then result else draftContent st)
  /\ messages st'
     = finalizeById (aiMsgId env st) fixedText
                    (messages st ++ [userMessage env st specialCommand])
                    ++ [agentMessage env st EDITOR fixedText false]
  /\ (exists display,
         parseMessageContent fixedText
         = Ok {| cleanText := display;
                 suggestions :=
                   JArray [JString (lit "继续完善草稿");
                           JString (lit "再次评审");
                           JString (lit "完成项目")] |})
  /\ isProcessing st' = false
  /\ callsDuring (handleSend env textOverride) st
     = topicCalls st specialCommand ++ [fixRequest env st].
Proof.
  intros Hs Hg result st'.
  pose proof (handleSend_special_calls env textOverride st Hs) as Hc.
  subst st'. rewrite (handleSend_special _ _ _ Hs) in *. cbv zeta in *.
  rewrite Hg in *. cbn [fst snd draftContent messages isProcessing started].
  repeat split.
  - apply finalizeById_reply.
  - eexists. vm_compute. reflexivity.
  - exact Hc.
Qed.

Lemma one_click_fix_applies_witness :
  let st' := snd (handleSend (rt := ascii_runtime) fixerEnv None
                             draftingState) in
  draftContent st' = lit "新稿"
  /\ isProcessing st' = false
  /\ exists others, messages st'
                    = others ++ [agentMessage fixerEnv draftingState EDITOR
                                              fixedText false].
Proof.
  destruct (one_click_fix_applies (rt := ascii_runtime) fixerEnv None
              draftingState (Some fencedAnswer) eq_refl eq_refl)
    as (_ & A & B & _ & C & _).
  split; [exact A|]. split; [exact C|]. eexists. exact B.
Defined.

(** C2 fails as stated: after a successful one-click fix the finalized
    message carries three suggestion chips, not two. *)
Lemma one_click_fix_counterexample :
  let st' := snd (handleSend (rt := ascii_runtime) fixerEnv None
                             draftingState) in
  let m := last (messages st') greeting in
  agentId m = Some EDITOR
  /\ isThinking m = Some false
  /\ exists p,
      parseMessageContent (text m) = Ok p
      /\ suggestionCount p = Some 3
      /\ suggestionCount p <> Some 2.
Proof.
  split; [vm_compute; reflexivity|]. split; [vm_compute; reflexivity|].
  eexists. split; [vm_compute; reflexivity|].
  split; [reflexivity | discriminate].
Qed.

(** ** Streamed replies *)

Lemma frameAfter_zero (env : Env) (st : State) (sent : jsstring)
      (agent : RoleId) (increments : list jsstring) :
  frameAfter env st sent agent increments 0
  = (messages st ++ [userMessage env st sent])
      ++ [agentMessage env st agent [] true].
Proof. reflexivity. Qed.

Lemma streamed_frames (env : Env) (st : State) (sent : jsstring)
      (agent : RoleId) (increments : list jsstring) :
  map (fun t => finalizeById (aiMsgId env st) t
                 ((messages st ++ [userMessage env st sent])
                    ++ [agentMessage env st agent [] true]))
      (accumulated [] increments)
  = map (frameAfter env st sent agent increments)
        (seq 1 (length increments)).
Proof.
  rewrite accumulated_concat, map_map. apply map_ext_in.
  intros k Hk. apply in_seq in Hk.
  unfold frameAfter, replyAfter.
  replace (k =? 0) with false by (symmetry; apply Nat.eqb_neq; lia).
  cbn [app]. apply finalizeById_reply.
Qed.

(** C1 (as amended). For every streamed agent response delivered as N
    text increments, the messages go through N + 1 states after the
    pending reply has been appended; after k increments the text of the
    reply is the concatenation of the first k increments, in delivery
    order, so that the final text is the concatenation of all N; the
    isThinking flag of the reply is true as long as no increment has been
    merged and false from the first increment on. *)
Theorem streamed_reply_assembly {rt : JsRuntime} (env : Env)
        (textOverride : option jsstring) (st : State) (rq : request)
        (increments : list jsstring) :
  let sent := sentText textOverride st in
  truthy (trim sent) = true ->
  sent <> specialCommand ->
  streamRequest env st sent (routedAgent env st sent) = Some rq ->
  generateContentStream (gateway env) rq
  = StreamReply {| chunks := map textChunk increments;
                   ending := EndOfStream |} ->
  let agent := routedAgent env st sent in
  let st' := snd (handleSend env textOverride st) in
  messageLog st'
  = messageLog st
      ++ (messages st ++ [userMessage env st sent])
      :: map (frameAfter env st sent agent increments)
             (seq 0 (S (length increments)))
  /\ messages st'
     = frameAfter env st sent agent increments (length increments)
  /\ forall k,
      exists others,
        frameAfter env st sent agent increments k
        = others ++ [agentMessage env st agent
                                  (concat (firstn k increments))
                                  (k =? 0)].
Proof.
  intros sent Hb Hs Hrq Hg agent st'. subst st'.
  rewrite (handleSend_stream _ _ _ _ Hb Hs Hrq), Hg. fold sent.
  cbn [snd chunks ending].
  unfold finished, afterChunks, withCall, dispatched.
  cbn [snd setIsProcessing record_call messages messageLog started].
  rewrite incrementsOf_text. fold agent. rewrite streamed_frames.
  split; [|split].
  - rewrite <- (app_assoc (messageLog st ++ _)),
      <- (app_assoc (messageLog st)).
    reflexivity.
  - rewrite <- frameAfter_zero with (increments := increments).
    apply last_map_seq.
  - intros k. eexists. reflexivity.
Qed.

Lemma streamed_reply_assembly_witness :
  let st' := snd (handleSend (rt := ascii_runtime) executorEnv
                             (Some (lit "write the intro"))
                             initialState) in
  messages st'
  = frameAfter executorEnv initialState (lit "write the intro") EXECUTOR
               [lit "a"; lit "b"] 2.
Proof.
  apply (streamed_reply_assembly (rt := ascii_runtime) executorEnv
           (Some (lit "write the intro")) initialState
           (ExecuteRequest (lit "write the intro") researchContextHeader
                           None)
           [lit "a"; lit "b"]);
    [reflexivity | discriminate | reflexivity | reflexivity].
Defined.

(** C1 fails as stated: with two increments, the reply is no longer
    marked as thinking once the first increment has been merged, while
    its text is only the first increment. *)
Lemma streamed_reply_counterexample :
  let st' := snd (handleSend (rt := ascii_runtime) executorEnv
                             (Some (lit "write the intro"))
                             initialState) in
  (exists frame,
      nth_error (messageLog st') 2 = Some frame
      /\ text (last frame greeting) = lit "a"
      /\ isThinking (last frame greeting) = Some false)
  /\ text (last (messages st') greeting) = lit "ab"
  /\ lit "a" <> lit "ab".
Proof.
  split; [eexists; split; [vm_compute; reflexivity|]; split;
          vm_compute; reflexivity|].
  split; [vm_compute; reflexivity | discriminate].
Qed.

(** ** The requests of a routed turn *)

Lemma handleSend_stream_calls {rt : JsRuntime} (env : Env)
      (textOverride : option jsstring) (st : State) (rq : request) :
  let sent := sentText textOverride st in
  truthy (trim sent) = true ->
  sent <> specialCommand ->
  streamRequest env st sent (routedAgent env st sent) = Some rq ->
  callsDuring (handleSend env textOverride) st
  = topicCalls st sent ++ [routeRequest st sent; rq].
Proof.
  intros sent Hb Hs Hrq. apply callsDuring_intro.
  rewrite (handleSend_stream _ _ _ _ Hb Hs Hrq). fold sent. cbn [snd].
  destruct (generateContentStream (gateway env) rq) as [|s];
    [|destruct (ending s)];
    cbn [finished caught afterChunks withCall dispatched started snd
         setIsProcessing setMessages record_call calls];
    rewrite <- !app_assoc; reflexivity.
Qed.

(** The critic without subject: no request, a fixed reply. *)
Lemma handleSend_nothing_to_review {rt : JsRuntime} (env : Env)
      (textOverride : option jsstring) (st : State) :
  let sent := sentText textOverride st in
  truthy (trim sent) = true ->
  sent <> specialCommand ->
  routedAgent env st sent = EDITOR ->
  truthy (contentToReview st sent) = false ->
  handleSend env textOverride st
  = (Ok tt,
     finished (snd (updateAiMessage
                      (aiMsgId env st)
                      (nothingToReviewText (draftContent st))
                      (dispatched env st sent)))).
Proof.
  intros sent Hb Hs Ha Hc.
  rewrite handleSend_routed by assumption. fold sent. rewrite Ha.
  unfold dispatch. unfold contentToReview in Hc. rewrite Hc.
  reflexivity.
Qed.

Lemma long_text_is_truthy (s : jsstring) : 50 < length s -> truthy s = true.
Proof. destruct s; simpl; [lia | reflexivity]. Qed.

Lemma truthy_false (s : jsstring) : truthy s = false <-> s = [].
Proof. destruct s; simpl; split; congruence. Qed.

(** C7. On a turn routed to the critic: when the user's message is
    longer than 50 characters the critique request is about the message
    itself, whatever the draft; otherwise, when the draft is not empty, it
    is about the draft; otherwise no critique is requested and the pending
    reply is finalized with the fixed nothing-to-review text, the sentence
    that asks for a draft followed by its suggestion. *)
Theorem critic_subject {rt : JsRuntime} (env : Env)
        (textOverride : option jsstring) (st : State) :
  let sent := sentText textOverride st in
  truthy (trim sent) = true ->
  sent <> specialCommand ->
  routedAgent env st sent = EDITOR ->
  let st' := snd (handleSend env textOverride st) in
  let nothingToReview :=
      lit "请先生成草稿，或者直接把要评审的内容发给我。"
          ++ [newline; newline] ++ lit ":::SUGGESTIONS::: [我来写一段]" in
  (50 < length sent ->
   callsDuring (handleSend env textOverride) st
   = topicCalls st sent
                ++ [routeRequest st sent;
                    CritiqueRequest sent (selectedPersona env)])
  /\ (length sent <= 50 -> draftContent st <> [] ->
      callsDuring (handleSend env textOverride) st
      = topicCalls st sent
                   ++ [routeRequest st sent;
                       CritiqueRequest (draftContent st)
                                       (selectedPersona env)])
  /\ (length sent <= 50 -> draftContent st = [] ->
      callsDuring (handleSend env textOverride) st
      = topicCalls st sent ++ [routeRequest st sent]
      /\ messages st'
         = finalizeById (aiMsgId env st) nothingToReview
                        (messages st ++ [userMessage env st sent])
                        ++ [agentMessage env st EDITOR
                                         nothingToReview false]).
Proof.
  intros sent Hb Hs Ha st' nothingToReview. split; [|split].
  - intros Hl. apply (handleSend_stream_calls _ _ _ _ Hb Hs).
    fold sent. rewrite Ha. unfold streamRequest, contentToReview.
    replace (50 <? length sent) with true
      by (symmetry; apply Nat.ltb_lt, Hl).
    rewrite (long_text_is_truthy _ Hl). reflexivity.
  - intros Hl Hd. apply (handleSend_stream_calls _ _ _ _ Hb Hs).
    fold sent. rewrite Ha. unfold streamRequest, contentToReview.
    replace (50 <? length sent) with false
      by (symmetry; apply Nat.ltb_ge, Hl).
    destruct (draftContent st); [congruence | reflexivity].
  - intros Hl Hd.
    assert (Hc : truthy (contentToReview st sent) = false).
    { unfold contentToReview.
      replace (50 <? length sent) with false
        by (symmetry; apply Nat.ltb_ge, Hl).
      rewrite Hd. reflexivity. }
    subst st'. split.
    + apply callsDuring_intro.
      rewrite (handleSend_nothing_to_review _ _ _ Hb Hs Ha Hc).
      fold sent.
      cbn [snd finished updateAiMessage setMessages setIsProcessing
           calls dispatched started].
      rewrite <- app_assoc. reflexivity.
    + rewrite (handleSend_nothing_to_review _ _ _ Hb Hs Ha Hc).
      fold sent. rewrite Hd, <- Ha.
      cbn [snd finished updateAiMessage setMessages setIsProcessing
           messages dispatched started].
      assert (E : nothingToReviewText [] = nothingToReview)
        by (vm_compute; reflexivity).
      rewrite E. apply finalizeById_reply.
Qed.

(** Eighty characters pasted to the critic are reviewed as they are. *)
Lemma critic_subject_witness :
  let sent := sentText (Some eightyCharacters) draftingState in
  length sent = 80
  /\ callsDuring (handleSend (rt := ascii_runtime) criticEnv
                             (Some eightyCharacters)) draftingState
     = topicCalls draftingState sent
                  ++ [routeRequest draftingState sent;
                      CritiqueRequest sent (selectedPersona criticEnv)].
Proof.
  intros sent. split; [vm_compute; reflexivity|].
  refine (proj1 (critic_subject (rt := ascii_runtime) criticEnv
                   (Some eightyCharacters) draftingState _ _ _) _).
  - vm_compute. reflexivity.
  - intros E. vm_compute in E. discriminate E.
  - vm_compute. reflexivity.
  - vm_compute. lia.
Defined.

(** ** Failures of the hosted model *)

Lemma handleSend_research {rt : JsRuntime} (env : Env)
      (textOverride : option jsstring) (st : State) :
  let sent := sentText textOverride st in
  truthy (trim sent) = true ->
  sent <> specialCommand ->
  routedAgent env st sent = RESEARCHER ->
  let st2 := withCall (researchRequest env st sent)
                      (dispatched env st sent) in
  handleSend env textOverride st
  = (Ok tt,
     match generateContent (gateway env) (researchRequest env st sent) with
     | ReplyThrows => finished (caught st2)
     | Reply found =>
       let st3 := snd (updateAiMessage
                         (aiMsgId env st)
                         (opt_or_else found noResearchText) st2) in
       finished
         (match found with
          | Some r =>
            if truthy r
            then snd (setResearchNotes
                        (researchNotes st ++ researchHeader sent ++ r) st3)
            else st3
          | None => st3
          end)
     end).
Proof.
  intros sent Hb Hs Ha st2.
  rewrite handleSend_routed by assumption. fold sent. rewrite Ha.
  unfold dispatch, performResearch, researchRequest in *.
  cbv beta iota zeta delta [try_finally try_catch bind callModel
                            record_call throw ret].
  subst st2. unfold withCall.
  destruct (generateContent (gateway env) _) as [|[r|]];
    [reflexivity | | reflexivity].
  cbv beta iota zeta delta [updateAiMessage setMessages].
  destruct (truthy r); reflexivity.
Qed.

(** C8. On a routed turn, whatever the hosted model does, the handler
    returns normally and the turn-in-progress flag is false afterward.
    When the call of the chosen agent throws while the reply of the turn
    is still pending (the call itself throws, or a stream throws before
    its first chunk), that reply, like every reply still pending, gets
    the fixed error text and is no longer pending.  When a stream throws
    after at least one chunk, the reply is no longer pending: it keeps
    the text merged so far and the error text is not written to it. *)
Theorem gateway_failure_is_reported {rt : JsRuntime} (env : Env)
        (textOverride : option jsstring) (st : State) :
  let sent := sentText textOverride st in
  truthy (trim sent) = true ->
  sent <> specialCommand ->
  let agent := routedAgent env st sent in
  let st' := snd (handleSend env textOverride st) in
  let failed :=
      failPending (messages st)
                  ++ [userMessage env st sent;
                      agentMessage env st agent
                                   (lit "发生错误，请重试。") false] in
  fst (handleSend env textOverride st) = Ok tt
  /\ isProcessing st' = false
  /\ (forall rq,
         streamRequest env st sent agent = Some rq ->
         generateContentStream (gateway env) rq = StreamCallThrows
         \/ generateContentStream (gateway env) rq
            = StreamReply {| chunks := []; ending := StreamThrows |} ->
         messages st' = failed)
  /\ (agent = RESEARCHER ->
      generateContent (gateway env) (researchRequest env st sent)
      = ReplyThrows ->
      messages st' = failed)
  /\ (forall rq c cs,
         streamRequest env st sent agent = Some rq ->
         generateContentStream (gateway env) rq
         = StreamReply {| chunks := c :: cs; ending := StreamThrows |} ->
         let merged := concat (incrementsOf (c :: cs)) in
         messages st'
         = failPending
             (finalizeById (aiMsgId env st) merged
                           (messages st ++ [userMessage env st sent]))
             ++ [agentMessage env st agent merged false]).
Proof.
  intros sent Hb Hs agent st' failed.
  destruct (handleSend_settles env textOverride st Hb) as [A B].
  split; [exact A|]. split; [exact B|]. subst st' failed.
  assert (E : lit "发生错误，请重试。" = errorText)
    by (vm_compute; reflexivity).
  rewrite E. clear E.
  split; [|split].
  - intros rq Hrq Hg.
    rewrite (handleSend_stream _ _ _ _ Hb Hs Hrq). fold sent.
    destruct Hg as [-> | ->];
      cbn [snd chunks ending finished caught afterChunks withCall
           dispatched started setIsProcessing setMessages record_call
           messages incrementsOf accumulated map last];
      rewrite <- app_assoc; apply failPending_turn.
  - intros Ha Hg.
    rewrite (handleSend_research _ _ _ Hb Hs Ha). fold sent.
    rewrite Hg.
    cbn [snd finished caught withCall dispatched started setIsProcessing
         setMessages record_call messages].
    rewrite <- app_assoc. apply failPending_turn.
  - intros rq c cs Hrq Hg merged. subst merged.
    rewrite (handleSend_stream _ _ _ _ Hb Hs Hrq), Hg. fold sent.
    cbn [snd chunks ending].
    unfold finished, caught, afterChunks, withCall, dispatched.
    cbn [snd setIsProcessing setMessages record_call messages started].
    rewrite streamed_frames.
    rewrite <- frameAfter_zero
      with (increments := incrementsOf (c :: cs)).
    rewrite last_map_seq. unfold frameAfter, replyAfter.
    rewrite firstn_all. cbn [incrementsOf map length Nat.eqb].
    apply failPending_settled.
Qed.

(** The default lead-writer path with a hosted model that throws. *)
Lemma gateway_failure_is_reported_witness :
  let sent := sentText (Some (lit "hello")) initialState in
  let st' := snd (handleSend (rt := ascii_runtime) failingEnv
                             (Some (lit "hello")) initialState) in
  routedAgent (rt := ascii_runtime) failingEnv initialState sent = CHIEF
  /\ isProcessing st' = false
  /\ messages st'
     = failPending (messages initialState)
                   ++ [userMessage failingEnv initialState sent;
                       agentMessage failingEnv initialState
                         (routedAgent (rt := ascii_runtime) failingEnv
                                      initialState sent)
                         (lit "发生错误，请重试。") false].
Proof.
  intros sent st'. split; [reflexivity|].
  assert (Hb : truthy (trim sent) = true) by (vm_compute; reflexivity).
  assert (Hs : sent <> specialCommand)
    by (intros E; vm_compute in E; discriminate E).
  destruct (gateway_failure_is_reported (rt := ascii_runtime) failingEnv
              (Some (lit "hello")) initialState Hb Hs)
    as (_ & B & C & _).
  split; [exact B|].
  apply (C (ChiefRequest (historyOf (messages initialState)) sent None [])).
  - reflexivity.
  - left. reflexivity.
Defined.

(** The gateway can throw during the dispatch of a routed turn without
    the error text being written: on the lead-writer path, a stream that
    throws after one increment leaves the reply with that increment, the
    reply is not pending, no message carries the error text, and the
    turn-in-progress flag is cleared. *)
Lemma gateway_failure_counterexample :
  let sent := sentText (Some (lit "hello")) initialState in
  let st' := snd (handleSend (rt := ascii_runtime) brokenChiefEnv
                             (Some (lit "hello")) initialState) in
  routedAgent (rt := ascii_runtime) brokenChiefEnv initialState sent
  = CHIEF
  /\ generateContentStream
       (gateway brokenChiefEnv)
       (ChiefRequest (historyOf (messages initialState)) sent None [])
     = StreamReply {| chunks := [textChunk (lit "partial")];
                      ending := StreamThrows |}
  /\ messages st'
     = [greeting; userMessage brokenChiefEnv initialState sent;
        agentMessage brokenChiefEnv initialState CHIEF (lit "partial")
                     false]
  /\ existsb (fun m => eqb (text m) (lit "发生错误，请重试。"))
             (messages st') = false
  /\ isProcessing st' = false.
Proof.
  repeat split; vm_compute; reflexivity.
Qed.

(** X8. A stream that throws after its first chunks leaves the text
    merged so far: the reply is no longer pending when the [catch] clause
    runs, so the error text does not replace it. *)
Lemma partial_reply_survives {rt : JsRuntime} (env : Env)
      (textOverride : option jsstring) (st : State) (rq : request)
      (first : jsstring) (more : list jsstring) :
  let sent := sentText textOverride st in
  truthy (trim sent) = true ->
  sent <> specialCommand ->
  streamRequest env st sent (routedAgent env st sent) = Some rq ->
  generateContentStream (gateway env) rq
  = StreamReply {| chunks := map textChunk (first :: more);
                   ending := StreamThrows |} ->
  exists others,
    messages (snd (handleSend env textOverride st))
    = others ++ [agentMessage env st (routedAgent env st sent)
                              (concat (first :: more)) false].
Proof.
  intros sent Hb Hs Hrq Hg.
  rewrite (handleSend_stream _ _ _ _ Hb Hs Hrq), Hg. fold sent.
  cbn [snd chunks ending].
  unfold finished, caught, afterChunks, withCall, dispatched.
  cbn [snd setIsProcessing setMessages record_call messages started].
  rewrite incrementsOf_text, streamed_frames.
  rewrite <- frameAfter_zero with (increments := first :: more).
  rewrite last_map_seq. unfold frameAfter, replyAfter.
  rewrite firstn_all. cbn [length Nat.eqb].
  rewrite failPending_settled. eexists. reflexivity.
Qed.

(** ** The router is called once on every other turn *)

Lemma streamRequest_not_route (env : Env) (st : State) (sent : jsstring)
      (agent : RoleId) (rq : request) :
  streamRequest env st sent agent = Some rq -> is_route_request rq = false.
Proof.
  unfold streamRequest.
  destruct agent; try destruct (truthy _); intros [= <-]; reflexivity.
Qed.

(** X9. Every accepted turn other than the special command asks the
    router exactly once, whatever the router and the agents answer. *)
Lemma routed_turn_calls_router_once {rt : JsRuntime} (env : Env)
      (textOverride : option jsstring) (st : State) :
  let sent := sentText textOverride st in
  truthy (trim sent) = true ->
  sent <> specialCommand ->
  routerCalls (handleSend env textOverride) st = 1.
Proof.
  intros sent Hb Hs. unfold routerCalls.
  destruct (streamRequest env st sent (routedAgent env st sent))
    as [rq|] eqn:Hrq.
  - rewrite (handleSend_stream_calls _ _ _ _ Hb Hs Hrq). fold sent.
    rewrite filter_app, topicCalls_no_route. cbn.
    rewrite (streamRequest_not_route _ _ _ _ _ Hrq). reflexivity.
  - assert (E : callsDuring (handleSend env textOverride) st
                = topicCalls st sent ++ [routeRequest st sent]
                \/ callsDuring (handleSend env textOverride) st
                   = topicCalls st sent
                                ++ [routeRequest st sent;
                                    researchRequest env st sent]).
    { unfold streamRequest in Hrq.
      destruct (routedAgent env st sent) eqn:Ha; try discriminate Hrq.
      - right. apply callsDuring_intro.
        rewrite (handleSend_research _ _ _ Hb Hs Ha). fold sent.
        destruct (generateContent (gateway env) _) as [|[r|]];
          [| destruct (truthy r) |];
          cbn [snd finished caught withCall dispatched started
               setIsProcessing setMessages setResearchNotes record_call
               updateAiMessage calls];
          rewrite <- !app_assoc; reflexivity.
      - left. destruct (truthy (contentToReview st sent)) eqn:Hc;
          [discriminate Hrq|].
        apply callsDuring_intro.
        rewrite (handleSend_nothing_to_review _ _ _ Hb Hs Ha Hc).
        fold sent.
        cbn [snd finished updateAiMessage setMessages setIsProcessing
             calls dispatched started].
        rewrite <- app_assoc. reflexivity. }
    destruct E as [-> | ->];
      rewrite filter_app, topicCalls_no_route; reflexivity.
Qed.

End OrchestratorFacts.

Import OrchestratorFacts.

(* ================================================================== *)
(** * More about a turn *)
(* ================================================================== *)

Module TurnShape.

(** The three ways a routed turn can go: the agent streams, the
    researcher answers in one piece, or the critic has nothing to
    review. *)
Lemma routed_cases {rt : JsRuntime} (env : Env)
      (textOverride : option jsstring) (st : State) :
  let sent := sentText textOverride st in
  truthy (trim sent) = true ->
  sent <> specialCommand ->
  (exists rq,
      streamRequest env st sent (routedAgent env st sent) = Some rq)
  \/ routedAgent env st sent = RESEARCHER
  \/ (routedAgent env st sent = EDITOR
      /\ truthy (contentToReview st sent) = false).
Proof.
  intros sent Hb Hs.
  destruct (streamRequest env st sent (routedAgent env st sent))
    as [rq|] eqn:Hrq; [left; eexists; reflexivity|].
  right. unfold streamRequest in Hrq.
  destruct (routedAgent env st sent); try discriminate Hrq.
  - left; reflexivity.
  - right. split; [reflexivity|].
    destruct (truthy (contentToReview st sent)); [discriminate|reflexivity].
Qed.

Lemma finalizeById_length (replyId t : jsstring) (ms : list ChatMessage) :
  length (finalizeById replyId t ms) = length ms.
Proof. apply length_map. Qed.

Lemma failPending_length (ms : list ChatMessage) :
  length (failPending ms) = length ms.
Proof. apply length_map. Qed.

Lemma last_map_invariant {A} (P : A -> Prop) (f : jsstring -> A)
      (l : list jsstring) (d : A) :
  P d -> (forall t, P (f t)) -> P (last (map f l) d).
Proof.
  intros Hd Hf. destruct l as [|t l]; [exact Hd|].
  cbn [map]. rewrite last_cons.
  revert t. induction l as [|u l IH]; intros t; [apply Hf|].
  cbn [map]. rewrite last_cons. apply IH.
Qed.

Lemma afterChunks_length (replyId : jsstring) (cs : list chunk)
      (st : State) :
  length (messages (afterChunks replyId cs st)) = length (messages st).
Proof.
  unfold afterChunks. cbn [messages].
  apply (last_map_invariant (fun ms => length ms = length (messages st)));
    [reflexivity | intros t; apply finalizeById_length].
Qed.

Lemma dispatched_length {rt : JsRuntime} (env : Env) (st : State)
      (sent : jsstring) :
  length (messages (dispatched env st sent)) = length (messages st) + 2.
Proof.
  unfold dispatched, started. cbn [messages].
  rewrite !length_app. simpl. lia.
Qed.

Lemma streamRequest_not_topic (env : Env) (st : State) (sent : jsstring)
      (agent : RoleId) (rq : request) :
  streamRequest env st sent agent = Some rq -> is_topic_request rq = false.
Proof.
  unfold streamRequest.
  destruct agent; try destruct (truthy _); intros [= <-]; reflexivity.
Qed.

(** The requests of an accepted turn: the topic extraction, if the turn
    starts it, then requests of other kinds. *)
Lemma turn_requests {rt : JsRuntime} (env : Env)
      (textOverride : option jsstring) (st : State) :
  let sent := sentText textOverride st in
  truthy (trim sent) = true ->
  exists rest,
    callsDuring (handleSend env textOverride) st = topicCalls st sent ++ rest
    /\ Forall (fun rq => is_topic_request rq = false) rest.
Proof.
  intros sent Hb.
  destruct (eqb sent specialCommand) eqn:Hs.
  - apply eqb_eq in Hs. eexists. split.
    + rewrite (handleSend_special_calls _ _ _ Hs). fold sent.
      rewrite Hs. reflexivity.
    + repeat constructor.
  - apply eqb_neq in Hs.
    destruct (routed_cases env textOverride st Hb Hs)
      as [[rq Hrq] | [Ha | [Ha Hc]]].
    + eexists. split;
        [apply (handleSend_stream_calls _ _ _ _ Hb Hs Hrq)|].
      repeat constructor. apply (streamRequest_not_topic _ _ _ _ _ Hrq).
    + exists [routeRequest st sent; researchRequest env st sent].
      split; [|repeat constructor].
      apply callsDuring_intro.
      rewrite (handleSend_research _ _ _ Hb Hs Ha). fold sent.
      destruct (generateContent (gateway env) _) as [|[r|]];
        [| destruct (truthy r) |];
        cbn [snd finished caught withCall dispatched started
             setIsProcessing setMessages setResearchNotes record_call
             updateAiMessage calls];
        rewrite <- !app_assoc; reflexivity.
    + exists [routeRequest st sent]. split; [|repeat constructor].
      apply callsDuring_intro.
      rewrite (handleSend_nothing_to_review _ _ _ Hb Hs Ha Hc).
      fold sent.
      cbn [snd finished updateAiMessage setMessages setIsProcessing
           calls dispatched started].
      rewrite <- app_assoc. reflexivity.
Qed.

(** What an accepted turn leaves behind. *)
Lemma turn_footprint {rt : JsRuntime} (env : Env)
      (textOverride : option jsstring) (st : State) :
  let sent := sentText textOverride st in
  let st' := snd (handleSend env textOverride st) in
  truthy (trim sent) = true ->
  inputValue st' = []
  /\ length (messages st') = length (messages st) + 2
  /\ projectTopic st' = topicAfter env st sent
  /\ (sent <> specialCommand -> draftContent st' = draftContent st)
  /\ (sent = specialCommand -> researchNotes st' = researchNotes st)
  /\ (exists added, researchNotes st' = researchNotes st ++ added)
  /\ (researchNotes st' <> researchNotes st ->
      routedAgent env st sent = RESEARCHER).
Proof.
  intros sent st' Hb. subst st'.
  destruct (eqb sent specialCommand) eqn:Hs.
  - apply eqb_eq in Hs. rewrite (handleSend_special _ _ _ Hs). cbv zeta.
    rewrite <- Hs. fold sent.
    destruct (generateContent (gateway env) (fixRequest env st));
      cbn [snd inputValue messages projectTopic draftContent researchNotes
           started];
      rewrite ?finalizeById_length, ?failPending_length, !length_app;
      (split; [reflexivity|]); (split; [simpl; lia|]);
      (split; [reflexivity|]); (split; [congruence|]);
      (split; [reflexivity|]);
      (split; [exists []; rewrite app_nil_r; reflexivity | congruence]).
  - apply eqb_neq in Hs.
    pose proof (dispatched_length env st sent) as Ld.
    destruct (routed_cases env textOverride st Hb Hs)
      as [[rq Hrq] | [Ha | [Ha Hc]]].
    + rewrite (handleSend_stream _ _ _ _ Hb Hs Hrq). fold sent.
      cbn [snd].
      destruct (generateContentStream (gateway env) rq) as [|s];
        [|destruct (ending s)];
        cbn [finished caught withCall snd setIsProcessing setMessages
             record_call inputValue messages projectTopic draftContent
             researchNotes];
        rewrite ?failPending_length, ?afterChunks_length;
        cbn [messages afterChunks inputValue projectTopic draftContent
             researchNotes dispatched started];
        (split; [reflexivity|]); (split; [exact Ld|]);
        (split; [reflexivity|]); (split; [reflexivity|]);
        (split; [reflexivity|]);
        (split; [exists []; rewrite app_nil_r; reflexivity | congruence]).
    + rewrite (handleSend_research _ _ _ Hb Hs Ha). fold sent. cbn [snd].
      destruct (generateContent (gateway env) _) as [|[r|]];
        [| destruct (truthy r) |];
        cbn [finished caught withCall snd setIsProcessing setMessages
             setResearchNotes updateAiMessage record_call inputValue
             messages projectTopic draftContent researchNotes];
        rewrite ?failPending_length, ?finalizeById_length;
        cbn [projectTopic draftContent researchNotes dispatched started];
        (split; [reflexivity|]); (split; [exact Ld|]);
        (split; [reflexivity|]); (split; [reflexivity|]);
        (split; [congruence|]);
        (split; [|intros _; exact Ha]);
        try (exists []; rewrite app_nil_r; reflexivity).
      eexists. reflexivity.
    + rewrite (handleSend_nothing_to_review _ _ _ Hb Hs Ha Hc).
      fold sent.
      cbn [finished snd setIsProcessing setMessages updateAiMessage
           inputValue messages projectTopic draftContent researchNotes].
      rewrite finalizeById_length.
      cbn [projectTopic draftContent researchNotes dispatched started].
      (split; [reflexivity|]); (split; [exact Ld|]);
      (split; [reflexivity|]); (split; [reflexivity|]);
      (split; [congruence|]);
      (split; [exists []; rewrite app_nil_r; reflexivity | congruence]).
Qed.

(** ** The messages after a turn *)












Lemma topicCalls_quiet (st : State) (sent : jsstring) :
  firesTopic st = false -> topicCalls st sent = [].
Proof. unfold topicCalls. intros ->. reflexivity. Qed.

Lemma topicAfter_quiet (env : Env) (st : State) (sent : jsstring) :
  firesTopic st = false -> topicAfter env st sent = projectTopic st.
Proof. unfold topicAfter. intros ->. reflexivity. Qed.

(** X2. The topic extraction belongs to the first turn only: after any
    accepted turn the conditions to start it no longer hold, and a turn
    that starts from such a state sends no topic request and leaves the
    topic as it is. *)
Theorem topic_extraction_only_once {rt : JsRuntime} (env : Env)
        (textOverride : option jsstring) (st : State) :
  truthy (trim (sentText textOverride st)) = true ->
  let st' := snd (handleSend env textOverride st) in
  firesTopic st' = false
  /\ forall env' textOverride',
      Forall (fun rq => is_topic_request rq = false)
             (callsDuring (handleSend env' textOverride') st')
      /\ projectTopic (snd (handleSend env' textOverride' st'))
         = projectTopic st'.
Proof.
  intros Hb st'.
  destruct (turn_footprint env textOverride st Hb) as (_ & L & _).
  fold st' in L.
  assert (Hq : firesTopic st' = false).
  { unfold firesTopic. apply andb_false_iff. right.
    apply Nat.leb_gt. lia. }
  split; [exact Hq|]. intros env' textOverride'.
  destruct (truthy (trim (sentText textOverride' st'))) eqn:Hb'.
  - destruct (turn_requests env' textOverride' st' Hb') as (rest & E & F).
    destruct (turn_footprint env' textOverride' st' Hb')
      as (_ & _ & T & _).
    rewrite E, (topicCalls_quiet _ _ Hq), T, (topicAfter_quiet _ _ _ Hq).
    split; [exact F | reflexivity].
  - rewrite (handleSend_blank _ _ _ Hb'). unfold callsDuring.
    rewrite (handleSend_blank _ _ _ Hb'). cbn [snd].
    rewrite skipn_all. split; [constructor | reflexivity].
Qed.

Lemma topic_extraction_only_once_witness :
  let st' := snd (handleSend (rt := ascii_runtime) executorEnv
                             (Some (lit "write the intro"))
                             initialState) in
  firesTopic initialState = true
  /\ firesTopic st' = false
  /\ projectTopic (snd (handleSend (rt := ascii_runtime) criticEnv
                                   (Some eightyCharacters) st'))
     = projectTopic st'.
Proof.
  intros st'. split; [reflexivity|].
  destruct (topic_extraction_only_once (rt := ascii_runtime) executorEnv
              (Some (lit "write the intro")) initialState)
    as [A B]; [vm_compute; reflexivity|].
  split; [exact A|]. apply (B criticEnv (Some eightyCharacters)).
Defined.

(** X3. What a turn may write: a routed turn never changes the draft,
    the one-click fix never changes the research notes, every turn keeps
    the earlier notes as a prefix of the new ones, and the notes change
    only on a turn routed to the researcher. *)
Theorem draft_and_notes_footprint {rt : JsRuntime} (env : Env)
        (textOverride : option jsstring) (st : State) :
  let sent := sentText textOverride st in
  let st' := snd (handleSend env textOverride st) in
  truthy (trim sent) = true ->
  (sent <> specialCommand -> draftContent st' = draftContent st)
  /\ (sent = specialCommand -> researchNotes st' = researchNotes st)
  /\ (exists added, researchNotes st' = researchNotes st ++ added)
  /\ (researchNotes st' <> researchNotes st ->
      routedAgent env st sent = RESEARCHER).
Proof.
  intros sent st' Hb.
  destruct (turn_footprint env textOverride st Hb)
    as (_ & _ & _ & A & B & C & D).
  repeat split; assumption.
Qed.

Lemma draft_and_notes_footprint_witness :
  draftContent (snd (handleSend (rt := ascii_runtime) criticEnv
                                (Some eightyCharacters) draftingState))
  = draftContent draftingState.
Proof.
  refine (proj1 (draft_and_notes_footprint (rt := ascii_runtime) criticEnv
                   (Some eightyCharacters) draftingState _) _).
  - vm_compute. reflexivity.
  - intros E. vm_compute in E. discriminate E.
Defined.

End TurnShape.

Import TurnShape.

(* ================================================================== *)
(** * Outcomes of a turn *)
(* ================================================================== *)

Module TurnOutcomes.

(** X4. On a turn routed to the researcher whose call succeeds, the
    reply shows the result, or a fixed text when there is none; a
    result that is not empty is appended to the research notes under a
    header that names the request, and the notes are left alone
    otherwise. *)
Theorem researcher_turn {rt : JsRuntime} (env : Env)
        (textOverride : option jsstring) (st : State)
        (found : option jsstring) :
  let sent := sentText textOverride st in
  truthy (trim sent) = true ->
  sent <> specialCommand ->
  routedAgent env st sent = RESEARCHER ->
  generateContent (gateway env) (researchRequest env st sent)
  = Reply found ->
  let st' := snd (handleSend env textOverride st) in
  let shown := opt_or_else found noResearchText in
  messages st'
  = finalizeById (aiMsgId env st) shown
                 (messages st ++ [userMessage env st sent])
                 ++ [agentMessage env st RESEARCHER shown false]
  /\ researchNotes st'
     = match found with
       | Some r =>
         if truthy r
         then researchNotes st ++ researchHeader sent ++ r
         else researchNotes st
       | None => researchNotes st
       end.
Proof.
  intros sent Hb Hs Ha Hg st' shown. subst st'.
  rewrite (handleSend_research _ _ _ Hb Hs Ha). fold sent.
  rewrite Hg. cbn [snd]. rewrite <- Ha.
  destruct found as [r|]; [destruct (truthy r)|];
    cbn [finished snd setIsProcessing setMessages setResearchNotes
         updateAiMessage withCall record_call messages researchNotes
         dispatched started];
    (split; [apply finalizeById_reply | reflexivity]).
Qed.

Lemma researcher_turn_witness :
  let sent := sentText (Some (lit "find data")) draftingState in
  researchNotes (snd (handleSend (rt := ascii_runtime) researcherEnv
                                 (Some (lit "find data")) draftingState))
  = researchNotes draftingState ++ researchHeader sent ++ lit "facts".
Proof.
  intros sent.
  refine (proj2 (researcher_turn (rt := ascii_runtime) researcherEnv
                   (Some (lit "find data")) draftingState
                   (Some (lit "facts")) _ _ _ _)).
  - vm_compute. reflexivity.
  - intros E. vm_compute in E. discriminate E.
  - vm_compute. reflexivity.
  - reflexivity.
Defined.

Lemma failPending_nothing_pending (ms : list ChatMessage) :
  nothingPending (failPending ms).
Proof.
  unfold nothingPending, failPending. apply Forall_forall.
  intros m' Hin. apply in_map_iff in Hin as (m & <- & _).
  destruct (isPendingReply m) eqn:E; [|exact E].
  unfold isPendingReply. cbn. apply andb_false_r.
Qed.

(** X5. When the apply-fixes call throws, the handler still returns
    normally: the draft is unchanged, the pending reply gets the fixed
    error text, no reply is left marked as thinking, and the turn is no
    longer in progress. *)
Theorem failed_fix_leaves_draft {rt : JsRuntime} (env : Env)
        (textOverride : option jsstring) (st : State) :
  sentText textOverride st = specialCommand ->
  generateContent (gateway env) (fixRequest env st) = ReplyThrows ->
  let st' := snd (handleSend env textOverride st) in
  fst (handleSend env textOverride st) = Ok tt
  /\ draftContent st' = draftContent st
  /\ messages st'
     = failPending (messages st)
                   ++ [userMessage env st specialCommand;
                       agentMessage env st EDITOR errorText false]
  /\ nothingPending (messages st')
  /\ isProcessing st' = false.
Proof.
  intros Hs Hg st'. subst st'.
  rewrite (handleSend_special _ _ _ Hs). cbv zeta. rewrite Hg.
  cbn [fst snd draftContent messages isProcessing started].
  repeat split.
  - rewrite <- app_assoc. apply failPending_turn.
  - apply failPending_nothing_pending.
Qed.

Lemma failed_fix_leaves_draft_witness :
  let st' := snd (handleSend (rt := ascii_runtime) failingEnv None
                             draftingState) in
  draftContent st' = draftContent draftingState
  /\ nothingPending (messages st').
Proof.
  destruct (failed_fix_leaves_draft (rt := ascii_runtime) failingEnv None
              draftingState eq_refl eq_refl) as (_ & A & _ & B & _).
  split; [exact A | exact B].
Defined.

Lemma find_app_skip {A} (f : A -> bool) (a b : list A) :
  Forall (fun x => f x = false) a -> find f (a ++ b) = find f b.
Proof.
  induction 1 as [|x a Hx _ IH]; [reflexivity|].
  cbn. rewrite Hx. exact IH.
Qed.

Lemma Forall_rev_iff {A} (P : A -> Prop) (l : list A) :
  Forall P l -> Forall P (rev l).
Proof.
  intros H. apply Forall_forall. intros x Hx.
  apply in_rev in Hx. revert x Hx. apply Forall_forall, H.
Qed.

Lemma lastCritique_at (earlier later : list ChatMessage) (m : ChatMessage) :
  isEditorReply m = true ->
  Forall (fun x => isEditorReply x = false) later ->
  lastCritique (earlier ++ m :: later) = text m.
Proof.
  intros Hm Hl. unfold lastCritique.
  rewrite rev_app_distr. cbn [rev]. rewrite <- app_assoc.
  rewrite find_app_skip by (apply Forall_rev_iff, Hl).
  cbn. rewrite Hm. reflexivity.
Qed.

(** X6. The critique handed to the one-click fix is the text of the
    most recent message that the critic sent as the model, whatever that
    message is; without such a message it is the fixed fallback. *)
Theorem critique_is_latest_critic_message :
  (forall earlier m later,
      isEditorReply m = true ->
      Forall (fun x => isEditorReply x = false) later ->
      lastCritique (earlier ++ m :: later) = text m)
  /\ (forall ms,
         Forall (fun x => isEditorReply x = false) ms ->
         lastCritique ms = defaultCritique).
Proof.
  split; [intros; apply lastCritique_at; assumption|].
  intros ms H. unfold lastCritique.
  rewrite <- (app_nil_r (rev ms)).
  rewrite find_app_skip by (apply Forall_rev_iff, H). reflexivity.
Qed.

Lemma critique_is_latest_critic_message_witness :
  lastCritique ([greeting] ++ review :: [greeting]) = text review
  /\ lastCritique [greeting] = defaultCritique.
Proof.
  split.
  - apply (proj1 critique_is_latest_critic_message).
    + reflexivity.
    + repeat constructor.
  - apply (proj2 critique_is_latest_critic_message).
    repeat constructor.
Defined.

(** X7. The confirmation of a one-click fix is itself a message of the
    critic: after a successful fix, a second one-click fix asks the
    hosted model to apply the confirmation text, not the earlier review,
    to the new draft. *)
Theorem second_fix_applies_confirmation {rt : JsRuntime} (env : Env)
        (textOverride : option jsstring) (st : State)
        (response_text : option jsstring) :
  sentText textOverride st = specialCommand ->
  generateContent (gateway env) (fixRequest env st) = Reply response_text ->
  let st' := snd (handleSend env textOverride st) in
  lastCritique (messages st') = fixedText
  /\ forall env' textOverride',
      sentText textOverride' st' = specialCommand ->
      callsDuring (handleSend env' textOverride') st'
      = [FixRequest (draftContent st') fixedText (selectedPersona env')].
Proof.
  intros Hs Hg st'.
  assert (Hb : truthy (trim (sentText textOverride st)) = true)
    by (rewrite Hs; reflexivity).
  assert (L : lastCritique (messages st') = fixedText).
  { subst st'. rewrite (handleSend_special _ _ _ Hs). cbv zeta.
    rewrite Hg. cbn [snd messages]. rewrite finalizeById_reply.
    transitivity (text (agentMessage env st EDITOR fixedText false));
      [|reflexivity].
    apply lastCritique_at; [reflexivity | constructor]. }
  split; [exact L|]. intros env' textOverride' Hs'.
  rewrite (handleSend_special_calls _ _ _ Hs').
  destruct (turn_footprint env textOverride st Hb) as (_ & Len & _).
  fold st' in Len.
  rewrite topicCalls_quiet.
  - unfold fixRequest. rewrite L. reflexivity.
  - unfold firesTopic. apply andb_false_iff. right.
    apply Nat.leb_gt. lia.
Qed.

Lemma second_fix_applies_confirmation_witness :
  let st' := snd (handleSend (rt := ascii_runtime) fixerEnv None
                             draftingState) in
  lastCritique (messages draftingState) = lit "逻辑混乱，开头太弱"
  /\ callsDuring (handleSend (rt := ascii_runtime) fixerEnv
                             (Some specialCommand)) st'
     = [FixRequest (draftContent st') fixedText None].
Proof.
  intros st'. split; [vm_compute; reflexivity|].
  apply (proj2 (second_fix_applies_confirmation (rt := ascii_runtime)
                  fixerEnv None draftingState (Some fencedAnswer)
                  eq_refl eq_refl) fixerEnv (Some specialCommand)).
  reflexivity.
Defined.

(** ** Witnesses for two facts of the orchestrator *)

Lemma partial_reply_survives_witness :
  exists others,
    messages (snd (handleSend (rt := ascii_runtime) brokenStreamEnv
                              (Some (lit "write the intro"))
                              initialState))
    = others
        ++ [agentMessage brokenStreamEnv initialState
              (routedAgent (rt := ascii_runtime) brokenStreamEnv
                           initialState
                           (sentText (Some (lit "write the intro"))
                                     initialState))
              (concat [lit "a"; lit "b"]) false].
Proof.
  refine (partial_reply_survives
            (rt := ascii_runtime) brokenStreamEnv
            (Some (lit "write the intro")) initialState
            (ExecuteRequest (lit "write the intro") researchContextHeader
                            None)
            (lit "a") [lit "b"] _ _ _ _).
  - vm_compute. reflexivity.
  - intros E. vm_compute in E. discriminate E.
  - reflexivity.
  - reflexivity.
Defined.

Lemma routed_turn_calls_router_once_witness :
  routerCalls (handleSend (rt := ascii_runtime) failingEnv
                          (Some (lit "hello"))) initialState = 1.
Proof.
  refine (routed_turn_calls_router_once
            (rt := ascii_runtime) failingEnv (Some (lit "hello"))
            initialState _ _).
  - vm_compute. reflexivity.
  - intros E. vm_compute in E. discriminate E.
Defined.

End TurnOutcomes.

Import TurnOutcomes.

(* ================================================================== *)
(** * Display text, fences and the router's answers *)
(* ================================================================== *)

Module DisplayFacts.

(** ** More about [trim] and [indexOf] *)

Lemma trim_start_app_end (a : jsstring) (c : code_unit) :
  is_space c = false -> trim_start (a ++ [c]) = trim_start a ++ [c].
Proof.
  intros Hc. induction a as [|x a IH]; cbn [app trim_start].
  - rewrite Hc. reflexivity.
  - destruct (is_space x); [exact IH | reflexivity].
Qed.

Lemma trim_end_cons (c : code_unit) (r : jsstring) :
  is_space c = false -> trim_end (c :: r) = c :: trim_end r.
Proof.
  intros Hc. unfold trim_end. cbn [rev].
  rewrite (trim_start_app_end _ _ Hc), rev_app_distr. reflexivity.
Qed.

Lemma trim_start_head (s : jsstring) :
  trim_start s = [] \/ exists c r, trim_start s = c :: r /\ is_space c = false.
Proof.
  induction s as [|x s IH]; [left; reflexivity|].
  cbn [trim_start]. destruct (is_space x) eqn:E; [exact IH|].
  right. exists x, s. split; [reflexivity | exact E].
Qed.

Lemma trim_start_idempotent (s : jsstring) :
  trim_start (trim_start s) = trim_start s.
Proof.
  destruct (trim_start_head s) as [-> | (c & r & -> & Hc)];
    [reflexivity|].
  apply trim_start_id, Hc.
Qed.

Lemma trim_end_idempotent (s : jsstring) :
  trim_end (trim_end s) = trim_end s.
Proof.
  unfold trim_end. rewrite rev_involutive, trim_start_idempotent.
  reflexivity.
Qed.

Lemma trim_idempotent (s : jsstring) : trim (trim s) = trim s.
Proof.
  unfold trim.
  destruct (trim_start_head s) as [-> | (c & r & -> & Hc)];
    [reflexivity|].
  rewrite (trim_end_cons _ _ Hc), (trim_start_id _ _ Hc).
  rewrite <- (trim_end_cons _ _ Hc). apply trim_end_idempotent.
Qed.

(** Nothing before the first match holds a match. *)
Lemma indexOf_firstn_None (pat s : jsstring) (i : nat) :
  pat <> [] -> indexOf pat s = Some i -> indexOf pat (firstn i s) = None.
Proof.
  intros Hp H. destruct (indexOf_Some _ _ _ H) as [_ Hmin].
  pose proof (indexOf_bound _ _ _ Hp H) as Bd.
  apply indexOf_None. intros j.
  destruct (starts_with pat (skipn j (firstn i s))) eqn:K; [|reflexivity].
  destruct (Nat.lt_ge_cases j i) as [Hj|Hj].
  - rewrite <- (Hmin j Hj). symmetry.
    rewrite <- (firstn_skipn i s) at 1.
    rewrite skipn_app, firstn_length_le by lia.
    replace (j - i) with 0 by lia. cbn [skipn].
    apply starts_with_ext, K.
  - rewrite skipn_all2 in K by (rewrite firstn_length_le; lia).
    apply starts_with_nil_r in K. congruence.
Qed.

(** A match over [u ++ c :: b] lies within [u] or covers [c]. *)
Lemma starts_with_straddle (pat u b : jsstring) (c : code_unit) :
  starts_with pat (u ++ c :: b) = true ->
  starts_with pat u = true \/ In c pat.
Proof.
  revert u. induction pat as [|p pat IH]; intros u H; [left; reflexivity|].
  destruct u as [|y u]; cbn [app starts_with] in *.
  - apply andb_true_iff in H as [E _]. apply N.eqb_eq in E.
    right. left. exact E.
  - apply andb_true_iff in H as [E H]. rewrite E. cbn [andb].
    destruct (IH u H) as [K|K]; [left; exact K | right; right; exact K].
Qed.

Lemma indexOf_None_around (pat a b : jsstring) (c : code_unit) :
  ~ In c pat ->
  indexOf pat a = None -> indexOf pat (c :: b) = None ->
  indexOf pat (a ++ c :: b) = None.
Proof.
  intros Hc Ha Hb. induction a as [|x a IH]; [exact Hb|].
  apply indexOf_None_cons in Ha as [A1 A2].
  cbn [app]. apply indexOf_None_cons. split; [|apply IH, A2].
  destruct (starts_with pat (x :: a ++ c :: b)) eqn:K; [|reflexivity].
  destruct (starts_with_straddle pat (x :: a) b c K) as [E|E];
    [congruence | contradiction].
Qed.

(** ** The display text *)

Lemma display_text_has_no_delimiter (content : jsstring) (p : parsed) :
  parseMessageContent content = Ok p ->
  indexOf delimiter (cleanText p) = None.
Proof.
  intros H. destruct (indexOf delimiter content) as [i|] eqn:E.
  - rewrite (parse_at_delimiter _ _ E) in H. injection H as <-.
    cbn [cleanText]. apply indexOf_None_trim.
    apply (indexOf_firstn_None _ _ _ delimiter_not_nil E).
  - rewrite (parse_without_delimiter _ E) in H. injection H as <-.
    cbn [cleanText]. apply indexOf_None_trim, E.
Qed.

(** X13. Whatever the text of a message, its display text never
    contains the suggestion delimiter, and parsing the display text again
    gives it back unchanged, without suggestions. *)
Theorem display_text_is_stable (content : jsstring) :
  exists p,
    parseMessageContent content = Ok p
    /\ includes delimiter (cleanText p) = false
    /\ parseMessageContent (cleanText p)
       = Ok {| cleanText := cleanText p; suggestions := JArray [] |}.
Proof.
  destruct (parseMessageContent_total content) as [p Hp].
  exists p. split; [exact Hp|].
  pose proof (display_text_has_no_delimiter _ _ Hp) as Hn.
  split; [apply includes_false, Hn|].
  rewrite (parse_without_delimiter _ Hn). do 2 f_equal.
  destruct (indexOf delimiter content) as [i|] eqn:E.
  - rewrite (parse_at_delimiter _ _ E) in Hp. injection Hp as <-.
    apply trim_idempotent.
  - rewrite (parse_without_delimiter _ E) in Hp. injection Hp as <-.
    apply trim_idempotent.
Qed.

Lemma newline_not_in_delimiter : ~ In newline delimiter.
Proof.
  vm_compute. intros H.
  repeat (destruct H as [H|H]; [discriminate H|]). exact H.
Qed.

(** X14. Quoting a reply into the draft keeps the old draft as a prefix
    and appends the display text of the reply, after two line feeds when
    the old draft is not empty; a draft without suggestion delimiter stays
    without one, whatever the reply holds. *)
Theorem quote_appends_display_text (msg : ChatMessage) (st : State) :
  exists p,
    parseMessageContent (text msg) = Ok p
    /\ fst (quoteToDraft msg st) = Ok tt
    /\ draftContent (snd (quoteToDraft msg st))
       = draftContent st
         ++ (if truthy (draftContent st) then [newline; newline] else [])
         ++ cleanText p
    /\ messages (snd (quoteToDraft msg st)) = messages st
    /\ (includes delimiter (draftContent st) = false ->
        includes delimiter (draftContent (snd (quoteToDraft msg st)))
        = false).
Proof.
  destruct (parseMessageContent_total (text msg)) as [p Hp].
  exists p. split; [exact Hp|].
  pose proof (display_text_has_no_delimiter _ _ Hp) as Hn.
  unfold quoteToDraft. run. rewrite Hp. run.
  repeat split. intros Hd. apply includes_false in Hd.
  apply includes_false.
  destruct (draftContent st) as [|c d] eqn:E; [exact Hn|].
  cbn [truthy]. rewrite <- E in *.
  apply indexOf_None_around;
    [exact newline_not_in_delimiter | exact Hd |].
  apply indexOf_None_cons. split; [reflexivity|].
  apply indexOf_None_cons. split; [reflexivity | exact Hn].
Qed.

Lemma quote_appends_display_text_witness :
  includes delimiter
           (draftContent (snd (quoteToDraft greeting draftingState)))
  = false.
Proof.
  destruct (quote_appends_display_text greeting draftingState)
    as (p & _ & _ & _ & _ & K).
  apply K. vm_compute. reflexivity.
Defined.

(** ** The critic without subject *)

(** X10. When a turn is routed to the critic with a short message and an
    empty draft, the reply that is shown is the fixed sentence alone: its
    suggestion payload is written without quotes, is not JSON, and yields
    no chip. *)
Theorem empty_review_offers_no_chip {rt : JsRuntime} (env : Env)
        (textOverride : option jsstring) (st : State) :
  let sent := sentText textOverride st in
  truthy (trim sent) = true ->
  sent <> specialCommand ->
  routedAgent env st sent = EDITOR ->
  length sent <= 50 ->
  draftContent st = [] ->
  exists others m,
    messages (snd (handleSend env textOverride st)) = others ++ [m]
    /\ agentId m = Some EDITOR
    /\ isThinking m = Some false
    /\ parseMessageContent (text m)
       = Ok {| cleanText :=
                 lit "请先生成草稿，或者直接把要评审的内容发给我。";
               suggestions := JArray [] |}.
Proof.
  intros sent Hb Hs Ha Hl Hd.
  assert (Hc : truthy (contentToReview st sent) = false).
  { unfold contentToReview.
    replace (50 <? length sent) with false
      by (symmetry; apply Nat.ltb_ge, Hl).
    rewrite Hd. reflexivity. }
  rewrite (handleSend_nothing_to_review _ _ _ Hb Hs Ha Hc). fold sent.
  rewrite Hd, <- Ha.
  cbn [snd finished updateAiMessage setMessages setIsProcessing messages
       dispatched started].
  rewrite finalizeById_reply. do 2 eexists.
  split; [reflexivity|]. split; [reflexivity|]. split; [reflexivity|].
  cbn [text agentMessage]. vm_compute. reflexivity.
Qed.

Lemma empty_review_offers_no_chip_witness :
  exists others m,
    messages (snd (handleSend (rt := ascii_runtime) criticEnv
                              (Some (lit "review it")) initialState))
    = others ++ [m]
    /\ agentId m = Some EDITOR
    /\ isThinking m = Some false
    /\ parseMessageContent (text m)
       = Ok {| cleanText :=
                 lit "请先生成草稿，或者直接把要评审的内容发给我。";
               suggestions := JArray [] |}.
Proof.
  refine (empty_review_offers_no_chip (rt := ascii_runtime) criticEnv
            (Some (lit "review it")) initialState _ _ _ _ _).
  - vm_compute. reflexivity.
  - intros E. vm_compute in E. discriminate E.
  - vm_compute. reflexivity.
  - vm_compute. lia.
  - reflexivity.
Defined.

(** ** The router's answers *)

Lemma validateAgent_member (agent : RoleId) :
  In agent allowedAgents -> validateAgent (RoleId_value agent) = agent.
Proof.
  intros [<-|[<-|[<-|[<-|[]]]]]; vm_compute; reflexivity.
Qed.

Lemma RoleId_value_truthy (agent : RoleId) :
  truthy (RoleId_value agent) = true.
Proof. destruct agent; reflexivity. Qed.

(** X11. Whenever the router's answer, once trimmed, lower-cased and
    stripped of double quotes, is the value of one of the four allowed
    identities, [determineNextAgent] returns that identity. *)
Theorem router_honours_valid_answers {rt : JsRuntime} (gw : Gateway)
        (history : list (Role * jsstring)) (latest : jsstring)
        (st : State) (t : jsstring) (agent : RoleId) :
  In agent allowedAgents ->
  generateContent gw (RouteRequest history latest) = Reply (Some t) ->
  normalized t = RoleId_value agent ->
  fst (determineNextAgent gw history latest st) = Ok agent.
Proof.
  intros Hin Hg Hn. rewrite determineNextAgent_run.
  unfold routerAnswer. rewrite Hg. cbn [fst]. f_equal.
  unfold routerText. fold (normalized t). rewrite Hn.
  unfold or_else. rewrite RoleId_value_truthy.
  apply validateAgent_member, Hin.
Qed.

Lemma router_honours_valid_answers_witness :
  fst (determineNextAgent
         (rt := ascii_runtime)
         (gateway executorEnv) [] (lit "write it") initialState)
  = Ok EXECUTOR.
Proof.
  apply (router_honours_valid_answers
           (rt := ascii_runtime) (gateway executorEnv) []
           (lit "write it") initialState
           (lit " " ++ quoted "Executor" ++ lit " ") EXECUTOR).
  - right; right; left; reflexivity.
  - reflexivity.
  - vm_compute. reflexivity.
Defined.

(** ** Fences *)

Lemma replace_all_absent (pat rep s : jsstring) :
  pat <> [] -> indexOf pat s = None -> replace_all pat rep s = s.
Proof.
  intros Hp H. rewrite (replace_all_unfold _ _ _ Hp), H. reflexivity.
Qed.

Lemma stripFences_clean (t : jsstring) :
  indexOf fence t = None -> stripFences (Some t) = trim t.
Proof.
  intros H. unfold stripFences, opt_or_else, or_else.
  destruct (truthy t) eqn:E.
  - rewrite (replace_all_absent markdownFence);
      [| discriminate | apply indexOf_None_longer, H].
    rewrite (replace_all_absent fence); [reflexivity | discriminate | exact H].
  - destruct t; [reflexivity | discriminate E].
Qed.

(** X12. An answer without triple backtick is returned by the fence
    stripping of [applyEditorFixes] as it is, only trimmed; and stripping
    is idempotent: a result of the stripping is left unchanged by a
    second stripping. *)
Theorem fence_stripping_is_idempotent :
  (forall t, includes fence t = false -> stripFences (Some t) = trim t)
  /\ forall response_text,
      stripFences (Some (stripFences response_text))
      = stripFences response_text.
Proof.
  split.
  - intros t H. apply stripFences_clean, includes_false, H.
  - intros response_text. rewrite stripFences_clean.
    + unfold stripFences. apply trim_idempotent.
    + unfold stripFences. apply indexOf_None_trim, fence_removed.
Qed.

Lemma fence_stripping_is_idempotent_witness :
  stripFences (Some (lit "  plain text ")) = trim (lit "  plain text ").
Proof.
  apply (proj1 fence_stripping_is_idempotent).
  vm_compute. reflexivity.
Defined.

End DisplayFacts.

Import DisplayFacts.

(* ================================================================== *)
(** * The style analysis and the prompts *)
(* ================================================================== *)

Module StyleFacts.

(** ** Single code units: [indexOf], [lastIndexOf], [substring] *)

Lemma indexOf_unit_absent (c : code_unit) (s : jsstring) :
  ~ In c s <-> indexOf [c] s = None.
Proof.
  induction s as [|x s IH].
  - split; [reflexivity | intros _ []].
  - rewrite indexOf_None_cons. cbn [starts_with In].
    rewrite andb_true_r, N.eqb_neq, <- IH. split.
    + intros H. split; intros K; apply H; [left | right]; congruence.
    + intros [A B] [K|K]; [apply A; congruence | exact (B K)].
Qed.

Lemma indexOf_unit_app (c : code_unit) (a r : jsstring) :
  ~ In c a -> indexOf [c] (a ++ c :: r) = Some (length a).
Proof.
  induction a as [|x a IH]; intros H.
  - cbn. rewrite N.eqb_refl. reflexivity.
  - cbn [app]. rewrite indexOf_cons. cbn [starts_with].
    assert (E : (c =? x)%N = false)
      by (apply N.eqb_neq; intros ->; apply H; left; reflexivity).
    rewrite E. cbn [andb]. rewrite IH; [reflexivity|].
    intros K; apply H; right; exact K.
Qed.

Lemma lastIndexOf_unit_absent (c : code_unit) (s : jsstring) :
  ~ In c s -> lastIndexOf [c] s = None.
Proof.
  induction s as [|x s IH]; intros H; [reflexivity|].
  cbn [lastIndexOf]. rewrite IH by (intros K; apply H; right; exact K).
  cbn [starts_with].
  assert (E : (c =? x)%N = false)
    by (apply N.eqb_neq; intros ->; apply H; left; reflexivity).
  rewrite E. reflexivity.
Qed.

Lemma lastIndexOf_unit_app (c : code_unit) (a r : jsstring) :
  ~ In c r -> lastIndexOf [c] (a ++ c :: r) = Some (length a).
Proof.
  intros H. induction a as [|x a IH].
  - cbn [app lastIndexOf length].
    rewrite (lastIndexOf_unit_absent _ _ H). cbn [starts_with].
    rewrite N.eqb_refl. reflexivity.
  - cbn [app lastIndexOf length]. rewrite IH. reflexivity.
Qed.

Lemma substring_middle (a m b : jsstring) :
  substring (a ++ m ++ b) (length a) (length a + length m) = m.
Proof.
  unfold substring. rewrite !length_app.
  replace (Nat.min (length a) (length a + (length m + length b)))
    with (length a) by lia.
  replace (Nat.min (length a + length m)
                   (length a + (length m + length b)))
    with (length a + length m) by lia.
  replace (Nat.max (length a) (length a + length m)
           - Nat.min (length a) (length a + length m))
    with (length m) by lia.
  replace (Nat.min (length a) (length a + length m))
    with (length a + 0) by lia.
  rewrite skipn_app, skipn_all2 by lia.
  replace (length a + 0 - length a) with 0 by lia. cbn [skipn app].
  rewrite firstn_app, firstn_all, Nat.sub_diag. cbn [firstn].
  apply app_nil_r.
Qed.

Lemma substring_prefix (s : jsstring) (n : nat) :
  substring s 0 n = firstn n s.
Proof.
  unfold substring. cbn [Nat.min].
  replace (Nat.max 0 (Nat.min n (length s)) - 0)
    with (Nat.min n (length s)) by lia.
  cbn [skipn]. rewrite <- firstn_firstn.
  rewrite firstn_all. reflexivity.
Qed.

(** ** [analyzeStyle] *)

Lemma extractJson_object (before body after : jsstring) :
  ~ In 0x7B%N before -> ~ In 0x7D%N after ->
  indexOf fence (openBrace ++ body ++ closeBrace) = None ->
  extractJson (before ++ (openBrace ++ body ++ closeBrace) ++ after)
  = openBrace ++ body ++ closeBrace.
Proof.
  intros Hb Ha Hf. unfold extractJson.
  assert (E1 : indexOf openBrace
                       (before ++ (openBrace ++ body ++ closeBrace) ++ after)
               = Some (length before))
    by (apply (indexOf_unit_app _ _ _ Hb)).
  assert (E2 : lastIndexOf
                 closeBrace
                 (before ++ (openBrace ++ body ++ closeBrace) ++ after)
               = Some (length before + S (length body))).
  { replace (before ++ (openBrace ++ body ++ closeBrace) ++ after)
      with ((before ++ openBrace ++ body) ++ 0x7D%N :: after)
      by (unfold closeBrace; rewrite <- !app_assoc; reflexivity).
    unfold closeBrace. rewrite (lastIndexOf_unit_app _ _ _ Ha).
    rewrite !length_app. reflexivity. }
  rewrite E1, E2.
  replace (length before + S (length body) + 1)
    with (length before + length (openBrace ++ body ++ closeBrace))
    by (rewrite !length_app; cbn [length openBrace closeBrace]; lia).
  rewrite substring_middle.
  rewrite (replace_all_absent jsonFence);
    [| discriminate | apply indexOf_None_longer, Hf].
  rewrite (replace_all_absent fence); [| discriminate | exact Hf].
  apply (trim_bracketed 0x7B%N 0x7D%N body); reflexivity.
Qed.

(** X15. [analyzeStyle] tolerates text around the object: when the
    answer is some text without opening brace, an object from its opening
    to its closing brace with no triple backtick inside, and some text
    without closing brace, the outcome is what [JSON.parse] makes of the
    object alone: the parsed value, or the invalid-format error. *)
Theorem analysis_tolerates_chatter
        (generate : AnalysisRequest -> reply) (text urls : jsstring)
        (before body after : jsstring) :
  ~ In 0x7B%N before -> ~ In 0x7D%N after ->
  includes fence (openBrace ++ body ++ closeBrace) = false ->
  generate (analysisRequest text urls)
  = Reply (Some (before ++ (openBrace ++ body ++ closeBrace) ++ after)) ->
  analyzeStyle generate text urls
  = parsedAs (openBrace ++ body ++ closeBrace).
Proof.
  intros Hb Ha Hf Hg. unfold analyzeStyle.
  change {| sampleText := text; sampleUrls := urls;
            usesSearchTool := 0 <? length (trim urls);
            usesResponseSchema := negb (0 <? length (trim urls)) |}
    with (analysisRequest text urls).
  rewrite Hg. unfold opt_or_else, or_else.
  assert (T : truthy (before ++ (openBrace ++ body ++ closeBrace) ++ after)
              = true) by (destruct before; reflexivity).
  rewrite T. rewrite extractJson_object; [reflexivity | exact Hb | exact Ha |].
  unfold includes in Hf.
  destruct (indexOf fence (openBrace ++ body ++ closeBrace));
    [discriminate Hf | reflexivity].
Qed.

Lemma analysis_tolerates_chatter_witness :
  let generate := fun _ : AnalysisRequest =>
                    Reply (Some (lit "Here it is: " ++ smallObject
                                     ++ lit " I hope it helps.")) in
  analyzeStyle generate (lit "sample") []
  = Analysis (JObject [(lit "overview", JString (lit "terse"))]).
Proof.
  intros generate.
  refine (eq_trans
            (analysis_tolerates_chatter
               generate (lit "sample") [] (lit "Here it is: ")
               (quoted "overview" ++ lit ":" ++ quoted "terse")
               (lit " I hope it helps.") _ _ _ _) _).
  - vm_compute. intros [K|[K|[K|[K|[K|[K|[K|[K|[K|[K|[K|[K|[]]]]]]]]]]]]];
      discriminate K.
  - vm_compute.
    repeat (let K := fresh in intros [K|K]; [discriminate K | revert K]).
    intros [].
  - vm_compute. reflexivity.
  - vm_compute. reflexivity.
  - vm_compute. reflexivity.
Defined.

(** X16. When the hosted model answers without a text, or with an empty
    one, [analyzeStyle] resolves, and to the empty object: a value with
    none of the six fields of a [PersonaAnalysis], not an error. *)
Theorem analysis_of_missing_text
        (generate : AnalysisRequest -> reply) (text urls : jsstring)
        (response_text : option jsstring) :
  generate (analysisRequest text urls) = Reply response_text ->
  response_text = None \/ response_text = Some [] ->
  analyzeStyle generate text urls = Analysis (JObject []).
Proof.
  intros Hg H. unfold analyzeStyle.
  change {| sampleText := text; sampleUrls := urls;
            usesSearchTool := 0 <? length (trim urls);
            usesResponseSchema := negb (0 <? length (trim urls)) |}
    with (analysisRequest text urls).
  rewrite Hg. destruct H as [-> | ->]; vm_compute; reflexivity.
Qed.

Lemma analysis_of_missing_text_witness :
  analyzeStyle (fun _ => Reply None) (lit "sample") (lit "https://a.b")
  = Analysis (JObject []).
Proof.
  refine (analysis_of_missing_text
            (fun _ => Reply None) (lit "sample") (lit "https://a.b")
            None _ _).
  - reflexivity.
  - left. reflexivity.
Defined.

(** ** The prompts *)

Lemma lastn_app_exact (A : Type) (n : nat) (older recent : list A) :
  length recent = n -> lastn n (older ++ recent) = recent.
Proof.
  intros H. unfold lastn. rewrite length_app.
  replace (length older + length recent - n) with (length older) by lia.
  rewrite skipn_app, skipn_all, Nat.sub_diag. reflexivity.
Qed.

Lemma lastn_length (A : Type) (n : nat) (l : list A) :
  length (lastn n l) <= n.
Proof. unfold lastn. rewrite length_skipn. lia. Qed.

Lemma lastn_short (A : Type) (n : nat) (l : list A) :
  length l <= n -> lastn n l = l.
Proof.
  intros H. unfold lastn.
  replace (length l - n) with 0 by lia. reflexivity.
Qed.

Lemma roleName_length (r : Role) : length (roleName r) <= 5.
Proof. destruct r; vm_compute; lia. Qed.

Lemma join_length_bound (sep : jsstring) (n : nat) (l : list jsstring) :
  Forall (fun x => length x <= n) l ->
  length (join sep l) <= length l * (n + length sep) - length sep.
Proof.
  induction 1 as [|x l Hx Hl IH]; [cbn; lia|].
  destruct l as [|y l].
  - cbn [join length]. lia.
  - change (join sep (x :: y :: l)) with (x ++ sep ++ join sep (y :: l)).
    rewrite !length_app. cbn [length] in *. nia.
Qed.

Lemma summary_line_clip (h : Role * jsstring) :
  roleName (fst (clip h)) ++ lit ": "
           ++ substring (snd (clip h)) 0 50 ++ lit "..."
  = roleName (fst h) ++ lit ": " ++ substring (snd h) 0 50 ++ lit "...".
Proof.
  unfold clip. cbn [fst snd]. rewrite !substring_prefix.
  rewrite firstn_firstn. reflexivity.
Qed.

Lemma historySummary_length (history : list (Role * jsstring)) :
  length (historySummary history) <= 182.
Proof.
  unfold historySummary.
  pose proof (lastn_length _ 3 history) as L.
  etransitivity; [apply (join_length_bound _ 60)|].
  - apply Forall_map, Forall_forall. intros h _.
    rewrite !length_app, substring_prefix, length_firstn.
    pose proof (roleName_length (fst h)).
    change (length (lit ": ")) with 2. change (length (lit "...")) with 3.
    lia.
  - rewrite length_map. cbn [length newline]. nia.
Qed.

Lemma historySummary_clip (history : list (Role * jsstring)) :
  historySummary history = historySummary (map clip (lastn 3 history)).
Proof.
  unfold historySummary.
  rewrite (lastn_short _ 3 (map clip (lastn 3 history)))
    by (rewrite length_map; apply lastn_length).
  rewrite map_map. f_equal. apply map_ext. intros h.
  symmetry. apply summary_line_clip.
Qed.

(** X17. The history summary in the prompt of [determineNextAgent] shows
    the router the last three turns only, and of each only the first fifty
    code units: whatever the history, the summary is that of its last
    three turns cut to fifty code units, and it has at most 182 code
    units.  The last three turns of a history of at most three turns are
    the whole history; those of a longer one are its three final turns,
    so the turns before them do not change the summary. *)
Theorem router_sees_a_bounded_history (history : list (Role * jsstring)) :
  historySummary history = historySummary (map clip (lastn 3 history))
  /\ length (historySummary history) <= 182
  /\ (length history <= 3 -> lastn 3 history = history)
  /\ (forall older recent,
         history = older ++ recent -> length recent = 3 ->
         lastn 3 history = recent
         /\ historySummary history = historySummary recent).
Proof.
  split; [apply historySummary_clip|].
  split; [apply historySummary_length|].
  split; [apply lastn_short|].
  intros older recent -> H.
  pose proof (lastn_app_exact _ 3 older recent H) as E.
  split; [exact E|].
  unfold historySummary. rewrite E, (lastn_short _ 3 recent); [reflexivity|].
  rewrite H. apply Nat.le_refl.
Qed.

(** The history of the first turn, one message, and a history of four
    turns. *)
Lemma router_sees_a_bounded_history_witness :
  let first := [(model, eightyCharacters)] in
  let older := [(user, lit "an old question")] in
  let recent := [(user, eightyCharacters); (model, lit "ok");
                 (user, lit "write it")] in
  (historySummary first = historySummary (map clip first)
   /\ length (historySummary first) <= 182)
  /\ historySummary (older ++ recent) = historySummary recent
  /\ length (historySummary (older ++ recent)) <= 182.
Proof.
  intros first older recent. split; [|split].
  - destruct (router_sees_a_bounded_history first) as (A & B & C & _).
    rewrite (C ltac:(vm_compute; lia)) in A. split; [exact A | exact B].
  - destruct (router_sees_a_bounded_history (older ++ recent))
      as (_ & _ & _ & D).
    apply (D older recent); reflexivity.
  - apply (router_sees_a_bounded_history (older ++ recent)).
Defined.

(** X18. The instruction of [chatWithChief] shows the chief writer the
    first thousand code units of the draft only, followed by the
    truncation marker: two drafts that agree there give the same excerpt,
    of at most 1015 code units, and a draft of at most a thousand code
    units is shown whole, still followed by the marker. *)
Theorem chief_sees_first_thousand (draft other : jsstring) :
  firstn 1000 draft = firstn 1000 other ->
  draftExcerpt draft = draftExcerpt other
  /\ length (draftExcerpt draft) <= 1015
  /\ (length draft <= 1000
      -> draftExcerpt draft = draft ++ lit "... (truncated)").
Proof.
  intros H. unfold draftExcerpt. rewrite !substring_prefix.
  split; [rewrite H; reflexivity|]. split.
  - rewrite length_app, length_firstn.
    change (length (lit "... (truncated)")) with 15. lia.
  - intros L. rewrite (firstn_all2 _ L). reflexivity.
Qed.

Lemma chief_sees_first_thousand_witness :
  let draft := repeat 0x61%N 1000 ++ lit "one ending" in
  let other := repeat 0x61%N 1000 ++ lit "another" in
  draftExcerpt draft = draftExcerpt other
  /\ length (draftExcerpt draft) <= 1015
  /\ (length draft <= 1000
      -> draftExcerpt draft = draft ++ lit "... (truncated)").
Proof.
  intros draft other.
  refine (chief_sees_first_thousand draft other _).
  vm_compute. reflexivity.
Defined.

End StyleFacts.

Import StyleFacts.

(* ================================================================== *)
(** * The persona lab *)
(* ================================================================== *)

Module LabFacts.

Import PersonaLab LabTerms.

(** ** The list of link fields *)

Lemma removeAt_length (A : Type) (index : nat) (l : list A) :
  index < length l -> S (length (removeAt index l)) = length l.
Proof.
  revert index; induction l as [|x l IH]; intros index H;
    cbn [length] in *; [lia|].
  destruct index as [|k]; cbn [removeAt length]; [reflexivity|].
  rewrite IH; [reflexivity | lia].
Qed.

Lemma setAt_in_range (index : nat) (val : jsstring) (l : list jsstring) :
  index < length l ->
  exists l', setAt index val l = Some l'
             /\ length l' = length l
             /\ nth_error l' index = Some val.
Proof.
  revert index; induction l as [|x l IH]; intros index H;
    cbn [length] in *; [lia|].
  destruct index as [|k]; cbn [setAt].
  - exists (val :: l). repeat split.
  - destruct (IH k) as (l' & E & L & N); [lia|].
    rewrite E. exists (x :: l'). cbn [option_map length nth_error].
    repeat split; [congruence | exact N].
Qed.

(** X19. The list of link fields always holds between one and ten
    fields: adding a field, removing one and editing one keep it in these
    bounds, and an edit changes the field it addresses and not the
    number of fields. *)
Theorem link_list_stays_bounded
        (l : list jsstring) (index : nat) (val : jsstring) :
  1 <= length l <= 10 -> index < length l ->
  1 <= length (addLinkInput l) <= 10
  /\ 1 <= length (removeLinkInput index l) <= 10
  /\ exists l', handleLinkChange index val l = Some l'
                /\ length l' = length l
                /\ nth_error l' index = Some val.
Proof.
  intros B H. split; [|split].
  - unfold addLinkInput. destruct (Nat.ltb_spec (length l) 10) as [L|L].
    + rewrite length_app. cbn [length]. lia.
    + lia.
  - unfold removeLinkInput. pose proof (removeAt_length _ index l H) as L.
    destruct (removeAt index l); cbn [length] in *; lia.
  - apply setAt_in_range, H.
Qed.

Lemma link_list_stays_bounded_witness :
  let l := [lit "https://a.b/c"; []] in
  1 <= length (addLinkInput l) <= 10
  /\ 1 <= length (removeLinkInput 1 l) <= 10
  /\ exists l', handleLinkChange 1 (lit "www.c.d") l = Some l'
                /\ length l' = length l
                /\ nth_error l' 1 = Some (lit "www.c.d").
Proof.
  intros l.
  refine (link_list_stays_bounded l 1 (lit "www.c.d") _ _).
  - vm_compute. lia.
  - vm_compute. lia.
Defined.

Section Links.

Context {us : UrlSyntax}.

Lemma no_link_error (l : list jsstring) (link : jsstring) :
  hasLinkErrors l = false -> In link l -> getUrlError link = None.
Proof.
  unfold hasLinkErrors. intros H Hin.
  destruct (getUrlError link) as [e|] eqn:E; [|reflexivity].
  assert (K : existsb hasError l = true).
  { apply existsb_exists. exists link. split; [exact Hin|].
    unfold hasError. rewrite E. reflexivity. }
  congruence.
Qed.

Lemma validLinksList_no_errors (l : list jsstring) :
  hasLinkErrors l = false -> validLinksList l = filter nonblank l.
Proof.
  intros H. unfold validLinksList. apply filter_ext_in.
  intros link Hin. rewrite (no_link_error _ _ H Hin).
  apply andb_true_r.
Qed.

(** X20. The two badges count every valid link once: the links on
    the WeChat host and the other links add up to the valid links,
    which are at most as many as the link fields. *)
Theorem badge_counts_add_up (l : list jsstring) :
  wechatCount l + otherCount l = length (validLinksList l)
  /\ length (validLinksList l) <= length l.
Proof.
  split.
  - unfold wechatCount, otherCount. apply filter_length.
  - apply filter_length_le.
Qed.

(** X21. A link field with an error blocks the analysis: when
    [getUrlError] reports an error for one of the fields,
    [handleAnalyze] does not call [analyzeStyle] and leaves the state
    as it is. *)
Theorem link_error_blocks_analysis
        (analyze : jsstring -> jsstring -> AnalyzeResult)
        (st : LabState) (link e : jsstring) :
  In link (linkInputs st) -> getUrlError link = Some e ->
  handleAnalyze analyze st = ([], st).
Proof.
  intros Hin He. unfold handleAnalyze.
  assert (K : hasLinkErrors (linkInputs st) = true).
  { apply existsb_exists. exists link. split; [exact Hin|].
    unfold hasError. rewrite He. reflexivity. }
  rewrite K.
  destruct (negb (truthy (inputText st))
            && (length (validLinksList (linkInputs st)) =? 0));
    reflexivity.
Qed.

(** X22. A failed analysis is reported and loses nothing: when
    [handleAnalyze] calls [analyzeStyle] and the promise is rejected,
    the state holds an error message, the message of the error when it
    has one that is not empty and the fixed text otherwise, with the
    analysis, the text and the links as they were, and the analysing
    flag is off. *)
Theorem failed_analysis_is_reported
        (analyze : jsstring -> jsstring -> AnalyzeResult)
        (st st' : LabState) (text urls : jsstring)
        (message : option jsstring) :
  handleAnalyze analyze st = ([(text, urls)], st') ->
  analyze text urls = Rejected message ->
  errorMsg st'
  = Some (match message with
          | Some (c :: m) => c :: m
          | _ => lit "分析失败，请稍后重试"
          end)
  /\ errorMsg st' <> Some []
  /\ analysis st' = analysis st
  /\ inputText st' = inputText st
  /\ linkInputs st' = linkInputs st
  /\ isAnalyzing st' = false.
Proof.
  unfold handleAnalyze. intros H Hr.
  destruct (negb (truthy (inputText st))
            && (length (validLinksList (linkInputs st)) =? 0));
    [discriminate H|].
  destruct (hasLinkErrors (linkInputs st)); [discriminate H|].
  injection H as <- <- <-. rewrite Hr.
  cbn [errorMsg analysis inputText linkInputs isAnalyzing].
  assert (E : opt_or_else message analysisFailedText
              = match message with
                | Some (c :: m) => c :: m
                | _ => lit "分析失败，请稍后重试"
                end)
    by (destruct message as [[|c m]|]; reflexivity).
  rewrite E. repeat split.
  destruct message as [[|c m]|]; discriminate.
Qed.

(** X23. A persona saved after an analysis records what was analysed:
    when [handleAnalyze] has called [analyzeStyle] on a text and a list
    of links, a [handleSave] that follows hands over a persona whose
    source text and source links are that text and that list, under the
    trimmed name. *)
Theorem saved_links_are_analysed_links
        (analyze : jsstring -> jsstring -> AnalyzeResult)
        (st st1 st2 : LabState) (text urls uuid : jsstring) (now : N)
        (p : Persona) :
  handleAnalyze analyze st = ([(text, urls)], st1) ->
  handleSave uuid now st1 = (Some p, st2) ->
  sourceText p = Some text
  /\ sourceUrls p = Some urls
  /\ Types.name p = trim (name st)
  /\ analysis st1 = Some (Types.analysis p).
Proof.
  unfold handleAnalyze. intros H Hs.
  destruct (negb (truthy (inputText st))
            && (length (validLinksList (linkInputs st)) =? 0));
    [discriminate H|].
  destruct (hasLinkErrors (linkInputs st)) eqn:Herr; [discriminate H|].
  rewrite (validLinksList_no_errors _ Herr) in H.
  injection H as <- <- <-.
  unfold handleSave in Hs.
  destruct (analyze (inputText st)
                    (join [newline] (filter nonblank (linkInputs st))))
    as [result|message]; cbn [analysis name inputText linkInputs] in *.
  - destruct (truthy (trim (name st))); [|discriminate Hs].
    injection Hs as <- _. repeat split.
  - destruct (analysis st) as [a|]; [|discriminate Hs].
    destruct (truthy (trim (name st))); [|discriminate Hs].
    injection Hs as <- _. repeat split.
Qed.

End Links.

Lemma failed_analysis_is_reported_witness :
  let analyze := fun _ _ : jsstring => Rejected None in
  let st' := snd (handleAnalyze (us := spaceFreeUrls) analyze filledLab) in
  errorMsg st' = Some (lit "分析失败，请稍后重试")
  /\ errorMsg st' <> Some []
  /\ analysis st' = analysis filledLab
  /\ inputText st' = inputText filledLab
  /\ linkInputs st' = linkInputs filledLab
  /\ isAnalyzing st' = false.
Proof.
  intros analyze st'.
  refine (failed_analysis_is_reported
            (us := spaceFreeUrls) analyze filledLab st' (lit "sample")
            (join [newline] (validLinksList (us := spaceFreeUrls)
                                            (linkInputs filledLab)))
            None _ _).
  - vm_compute. reflexivity.
  - reflexivity.
Defined.

Lemma link_error_blocks_analysis_witness :
  let st := withInputText (lit "sample") false
                          {| viewMode := create; name := [];
                             inputText := [];
                             linkInputs := [lit "https://a.b/c";
                                            lit "ftp://files"];
                             isAnalyzing := false; analysis := None;
                             resultTab := preview;
                             activeDimension := DimOverview;
                             isUploading := false; errorMsg := None |} in
  handleAnalyze (us := spaceFreeUrls) (fun _ _ => Resolved sampleAnalysis)
                st
  = ([], st).
Proof.
  intros st.
  refine (link_error_blocks_analysis
            (us := spaceFreeUrls) (fun _ _ => Resolved sampleAnalysis)
            st (lit "ftp://files") needsSchemeText _ _).
  - right. left. reflexivity.
  - vm_compute. reflexivity.
Defined.

Lemma saved_links_are_analysed_links_witness :
  let analyze := fun _ _ : jsstring => Resolved sampleAnalysis in
  let st1 := snd (handleAnalyze (us := spaceFreeUrls) analyze filledLab) in
  let p := {| persona_id := lit "id-9"; Types.name := lit "Ann";
              Types.analysis := sampleAnalysis; createdAt := 7%N;
              sourceText := Some (lit "sample");
              sourceUrls :=
                Some (lit "https://a.b/c" ++ [newline]
                          ++ lit "www.mp.weixin.qq.com/s") |} in
  sourceText p = Some (lit "sample")
  /\ sourceUrls p
     = Some (join [newline]
                  (validLinksList (us := spaceFreeUrls)
                                  (linkInputs filledLab)))
  /\ Types.name p = trim (name filledLab)
  /\ analysis st1 = Some (Types.analysis p).
Proof.
  intros analyze st1 p.
  refine (saved_links_are_analysed_links
            (us := spaceFreeUrls) analyze filledLab st1
            (snd (handleSave (lit "id-9") 7%N st1))
            (lit "sample") _ (lit "id-9") 7%N p _ _).
  - vm_compute. reflexivity.
  - vm_compute. reflexivity.
Defined.

(** ** Saving a persona and tracing it back *)

Lemma truthy_app_l (a b : jsstring) : truthy a = true -> truthy (a ++ b) = true.
Proof. destruct a; [discriminate | reflexivity]. Qed.

Lemma nonblank_truthy (l : jsstring) : nonblank l = true -> truthy l = true.
Proof. destruct l; [vm_compute; congruence | reflexivity]. Qed.

Lemma join_truthy (sep x : jsstring) (l : list jsstring) :
  truthy x = true -> truthy (join sep (x :: l)) = true.
Proof.
  intros H. destruct l; cbn [join]; [exact H | apply truthy_app_l, H].
Qed.

Lemma split_join_lines (l : list jsstring) :
  l <> [] -> Forall (fun x => includes [newline] x = false) l ->
  split [newline] (join [newline] l) = l.
Proof.
  intros Hl H. induction H as [|x l Hx Hr IH]; [congruence|].
  apply includes_false in Hx.
  rewrite split_unfold by discriminate.
  destruct l as [|y l].
  - cbn [join]. rewrite Hx. reflexivity.
  - change (join [newline] (x :: y :: l))
      with (x ++ newline :: join [newline] (y :: l)).
    rewrite (indexOf_unit_app newline x _)
      by (apply indexOf_unit_absent, Hx).
    rewrite firstn_app, firstn_all, Nat.sub_diag. cbn [firstn].
    rewrite app_nil_r. f_equal.
    rewrite skipn_app, skipn_all2 by (cbn [length]; lia).
    cbn [length app].
    replace (length x + 1 - length x) with 1 by lia. cbn [skipn].
    apply IH. discriminate.
Qed.

(** X24. Saving a persona and tracing it back restores the form: after
    [handleSave] has handed over a persona, [loadPersonaForTracing] on
    that persona shows the trimmed name, the sample text and the analysis
    that were saved, and the link fields that were not blank (one empty
    field when all were), provided no link holds a line feed. *)
Theorem save_then_trace_restores_form
        (st st1 st0 : LabState) (uuid : jsstring) (now : N) (p : Persona) :
  handleSave uuid now st = (Some p, st1) ->
  Forall (fun l => includes [newline] l = false) (linkInputs st) ->
  let st2 := loadPersonaForTracing p st0 in
  name st2 = trim (name st)
  /\ inputText st2 = inputText st
  /\ analysis st2 = analysis st
  /\ linkInputs st2 = restoredLinks (linkInputs st)
  /\ viewMode st2 = create.
Proof.
  unfold handleSave. intros Hs Hn.
  destruct (analysis st) as [a|] eqn:Ea; [|discriminate Hs].
  destruct (truthy (trim (name st))); [|discriminate Hs].
  injection Hs as <- _. cbv zeta.
  unfold loadPersonaForTracing.
  cbn [name inputText analysis linkInputs viewMode Types.name
       Types.analysis sourceText sourceUrls].
  repeat split.
  - unfold or_else. destruct (inputText st); reflexivity.
  - unfold restoredLinks. change (fun l => truthy (trim l)) with nonblank.
    assert (Hk : Forall (fun l => includes [newline] l = false)
                        (filter nonblank (linkInputs st))).
    { apply Forall_forall. intros l Hl. apply filter_In in Hl as [Hl _].
      revert l Hl. apply Forall_forall, Hn. }
    destruct (filter nonblank (linkInputs st)) as [|x kept] eqn:Ek;
      [reflexivity|].
    assert (Hx : nonblank x = true).
    { assert (K : In x (filter nonblank (linkInputs st)))
        by (rewrite Ek; left; reflexivity).
      apply filter_In in K. apply K. }
    rewrite (join_truthy _ _ _ (nonblank_truthy _ Hx)).
    rewrite split_join_lines; [reflexivity | discriminate | exact Hk].
Qed.

Lemma save_then_trace_restores_form_witness :
  let p := {| persona_id := lit "id-9"; Types.name := lit "Ann";
              Types.analysis := sampleAnalysis; createdAt := 7%N;
              sourceText := Some (lit "sample");
              sourceUrls :=
                Some (lit "https://a.b/c" ++ [newline]
                          ++ lit "www.mp.weixin.qq.com/s") |} in
  let st2 := loadPersonaForTracing p emptyLab in
  name st2 = trim (name filledLab)
  /\ inputText st2 = inputText filledLab
  /\ analysis st2 = analysis filledLab
  /\ linkInputs st2 = restoredLinks (linkInputs filledLab)
  /\ viewMode st2 = create.
Proof.
  intros p.
  refine (save_then_trace_restores_form
            filledLab (snd (handleSave (lit "id-9") 7%N filledLab))
            emptyLab (lit "id-9") 7%N p _ _).
  - vm_compute. reflexivity.
  - repeat constructor.
Defined.

(** ** Importing a file *)

Lemma pdfText_from (acc : jsstring) (pages : list (list jsstring)) :
  fold_left (fun fullText items => fullText ++ join (lit " ") items
                                            ++ [newline])
            pages acc
  = acc ++ pdfText pages.
Proof.
  unfold pdfText. revert acc.
  induction pages as [|items pages IH]; intros acc; cbn [fold_left].
  - symmetry; apply app_nil_r.
  - rewrite IH, (IH ([] ++ _)). cbn [app].
    rewrite <- !app_assoc. reflexivity.
Qed.

Lemma pdfText_cons (items : list jsstring) (pages : list (list jsstring)) :
  pdfText (items :: pages)
  = join (lit " ") items ++ [newline] ++ pdfText pages.
Proof.
  unfold pdfText at 1. cbn [fold_left]. rewrite pdfText_from.
  cbn [app]. rewrite <- app_assoc. reflexivity.
Qed.

Lemma pdfText_truthy (pages : list (list jsstring)) :
  pages <> [] -> truthy (pdfText pages) = true.
Proof.
  destruct pages as [|items pages]; [congruence|]. intros _.
  rewrite pdfText_cons. destruct (join (lit " ") items); reflexivity.
Qed.

(** X25. An import never loses what the form holds: whatever the file
    and whether reading it fails, [handleFileUpload] leaves an input text
    that starts with the previous one, the name, the links and the
    analysis as they were; the alert is shown only when the input text is
    left unchanged, and once a file was chosen the uploading flag is
    off. *)
Theorem upload_keeps_existing_text (chosen : option File) (st : LabState) :
  let alerted := fst (handleFileUpload chosen st) in
  let st' := snd (handleFileUpload chosen st) in
  (exists added, inputText st' = inputText st ++ added)
  /\ (alerted = true -> inputText st' = inputText st)
  /\ name st' = name st
  /\ linkInputs st' = linkInputs st
  /\ analysis st' = analysis st
  /\ (chosen <> None -> isUploading st' = false).
Proof.
  unfold handleFileUpload.
  destruct chosen as [file|]; cbn zeta.
  - destruct (readFile file) as [t|].
    + destruct (truthy t); cbn [fst snd withInputText inputText name
                                linkInputs analysis isUploading].
      * repeat split; [|discriminate].
        destruct (inputText st) as [|c s] eqn:E; cbn [truthy].
        -- eexists; reflexivity.
        -- exists ([newline; newline] ++ importHeader file ++ t).
           rewrite <- app_assoc. reflexivity.
      * repeat split. exists []. symmetry; apply app_nil_r.
    + cbn [fst snd withInputText inputText name linkInputs analysis
           isUploading].
      repeat split. exists []. symmetry; apply app_nil_r.
  - cbn [fst snd]. repeat split; try congruence.
    exists []. symmetry; apply app_nil_r.
Qed.

Lemma upload_keeps_existing_text_witness :
  let unreadable := {| fileName := lit "scan.pdf"; fileType := pdfType;
                       pdfPages := None; textContents := None |} in
  fst (handleFileUpload (Some unreadable) filledLab) = true
  /\ inputText (snd (handleFileUpload (Some unreadable) filledLab))
     = inputText filledLab
  /\ isUploading (snd (handleFileUpload (Some unreadable) filledLab))
     = false.
Proof.
  intros unreadable.
  destruct (upload_keeps_existing_text (Some unreadable) filledLab)
    as (_ & A & _ & _ & _ & B).
  split; [reflexivity|]. split.
  - apply A. reflexivity.
  - apply B. discriminate.
Defined.

(** X26. A PDF with at least one page is always imported, even when no
    page holds any text: its text ends every page with a line feed, so it
    is not empty, and [handleFileUpload] appends the header with the file
    name and that text, after a blank line when the form held text.  A
    PDF without pages changes nothing. *)
Theorem pdf_with_pages_is_imported
        (file : File) (pages : list (list jsstring)) (st : LabState) :
  fileType file = pdfType -> pdfPages file = Some pages ->
  handleFileUpload (Some file) st
  = (false,
     withInputText
       (match pages with
        | [] => inputText st
        | _ :: _ => importPrefix st ++ importHeader file ++ pdfText pages
        end)
       false st).
Proof.
  intros Ht Hp. unfold handleFileUpload, readFile.
  rewrite Ht, eqb_refl, Hp. cbn [option_map].
  destruct pages as [|items pages]; [reflexivity|].
  rewrite pdfText_truthy by discriminate. reflexivity.
Qed.

Lemma pdf_with_pages_is_imported_witness :
  handleFileUpload (Some notesFile) filledLab
  = (false,
     withInputText
       (lit "sample" ++ [newline; newline]
            ++ importHeader notesFile
            ++ lit "Hello world" ++ [newline; newline])
       false filledLab).
Proof.
  refine (eq_trans
            (pdf_with_pages_is_imported
               notesFile [[lit "Hello"; lit "world"]; []] filledLab _ _) _).
  - reflexivity.
  - reflexivity.
  - vm_compute. reflexivity.
Defined.

(** ** Editing the analysis *)

(** X27. Editing one dimension of the analysis changes that dimension
    only: after [handleDimensionChange] the dimension holds the new value
    and the other five are as before; without an analysis the state is
    left as it is. *)
Theorem dimension_edit_is_local
        (key : Dimension) (value : jsstring) (st : LabState) :
  match analysis st with
  | Some a =>
    exists a', analysis (handleDimensionChange key value st) = Some a'
               /\ getDimension key a' = value
               /\ forall k, k <> key -> getDimension k a' = getDimension k a
  | None => handleDimensionChange key value st = st
  end.
Proof.
  unfold handleDimensionChange.
  destruct (analysis st) as [a|] eqn:E; [|reflexivity].
  cbn [analysis].
  exists (setDimension key value a). split; [reflexivity|]. split.
  - destruct key; reflexivity.
  - intros k Hk. destruct key, k; try reflexivity; congruence.
Qed.

Lemma dimension_edit_is_local_witness :
  exists a',
    analysis (handleDimensionChange DimHabits (lit "ends on a joke")
                                    filledLab) = Some a'
    /\ habits a' = lit "ends on a joke"
    /\ markers a' = markers sampleAnalysis.
Proof.
  destruct (dimension_edit_is_local DimHabits (lit "ends on a joke")
                                    filledLab) as (a' & E & A & B).
  exists a'. split; [exact E|]. split; [exact A|].
  apply (B DimMarkers). discriminate.
Defined.

End LabFacts.

Import LabFacts.

(* ================================================================== *)
(** * The application: the personas and the selection *)
(* ================================================================== *)

Module AppFacts.

Import LabTerms.

Lemma find_filter (A : Type) (f g : A -> bool) (l : list A) :
  (forall x, f x = true -> g x = true) ->
  find f (filter g l) = find f l.
Proof.
  intros H. induction l as [|x l IH]; [reflexivity|].
  cbn [filter find]. destruct (f x) eqn:Ef.
  - rewrite (H _ Ef). cbn [find]. rewrite Ef. reflexivity.
  - destruct (g x); [cbn [find]; rewrite Ef|]; exact IH.
Qed.

Lemma find_nobody (l : list Persona) : find (App.hasId None) l = None.
Proof. induction l as [|x l IH]; [reflexivity | exact IH]. Qed.

(** X28. Deleting a persona removes the personas with that identifier
    and no other, keeps the order of the rest, and keeps the selection
    consistent: when the deleted persona was the selected one nothing is
    selected afterwards, otherwise the selected persona is the same as
    before. *)
Theorem deleting_a_persona (id : jsstring) (st : App.AppState) :
  let st' := App.handleDeletePersona id st in
  (forall p, In p (App.personas st')
             <-> In p (App.personas st) /\ persona_id p <> id)
  /\ App.selectedPersona st'
     = match App.selectedPersonaId st with
       | Some sel => if eqb sel id then None else App.selectedPersona st
       | None => None
       end
  /\ App.activeRole st' = App.activeRole st.
Proof.
  cbn zeta. split; [|split; [|reflexivity]].
  - intros p. unfold App.handleDeletePersona. cbn [App.personas].
    rewrite filter_In, negb_true_iff, eqb_neq. reflexivity.
  - unfold App.selectedPersona, App.handleDeletePersona.
    cbn [App.personas App.selectedPersonaId].
    destruct (App.selectedPersonaId st) as [sel|]; [|apply find_nobody].
    destruct (eqb sel id) eqn:E; [apply find_nobody|].
    apply find_filter. intros x Hx. cbn [App.hasId] in Hx.
    apply eqb_eq in Hx. rewrite Hx, E. reflexivity.
Qed.

Lemma deleting_a_persona_witness :
  let st' := App.handleDeletePersona (lit "id-2") twoPersonas in
  In persona1 (App.personas st')
  /\ ~ In persona2 (App.personas st')
  /\ App.selectedPersona st' = None.
Proof.
  intros st'.
  destruct (deleting_a_persona (lit "id-2") twoPersonas) as (A & B & _).
  split; [|split].
  - apply A. split; [left; reflexivity|].
    intros E. vm_compute in E. discriminate E.
  - intros K. apply A in K as [_ K]. apply K. reflexivity.
  - exact B.
Defined.

(** X29. A persona saved in the lab becomes the selected persona of the
    editor: when [handleSave] hands a persona to [handleSavePersona] and
    no stored persona has its identifier, the persona is added last, it
    is the selected one, it carries the identifier that was drawn and the
    trimmed name of the form, which is not empty, and the active role is
    the chief writer, so that the main area shows the editor and no
    longer the lab. *)
Theorem saved_persona_is_selected
        (lab lab' : PersonaLab.LabState) (app : App.AppState)
        (uuid : jsstring) (now : N) (p : Persona) :
  PersonaLab.handleSave uuid now lab = (Some p, lab') ->
  Forall (fun q => persona_id q <> uuid) (App.personas app) ->
  let app' := App.handleSavePersona p app in
  App.personas app' = App.personas app ++ [p]
  /\ App.selectedPersona app' = Some p
  /\ App.activeRole app' = CHIEF
  /\ App.mainPanel app' = App.EditorPanel
  /\ persona_id p = uuid
  /\ Types.name p = trim (PersonaLab.name lab)
  /\ Types.name p <> [].
Proof.
  unfold PersonaLab.handleSave. intros Hs Hn.
  destruct (PersonaLab.analysis lab) as [a|]; [|discriminate Hs].
  destruct (truthy (trim (PersonaLab.name lab))) eqn:Et;
    [|discriminate Hs].
  injection Hs as <- _. cbn zeta.
  cbn [persona_id Types.name].
  repeat split.
  - unfold App.selectedPersona, App.handleSavePersona.
    cbn [App.personas App.selectedPersonaId persona_id].
    rewrite find_app_skip.
    + cbn [find App.hasId persona_id]. rewrite eqb_refl. reflexivity.
    + revert Hn. apply Forall_impl. intros q Hq. cbn [App.hasId].
      apply eqb_neq, Hq.
  - intros K. rewrite K in Et. discriminate Et.
Qed.

Lemma saved_persona_is_selected_witness :
  let p := {| persona_id := lit "id-9"; Types.name := lit "Ann";
              Types.analysis := sampleAnalysis; createdAt := 7%N;
              sourceText := Some (lit "sample");
              sourceUrls :=
                Some (lit "https://a.b/c" ++ [newline]
                          ++ lit "www.mp.weixin.qq.com/s") |} in
  let app' := App.handleSavePersona p twoPersonas in
  App.personas app' = App.personas twoPersonas ++ [p]
  /\ App.selectedPersona app' = Some p
  /\ App.activeRole app' = CHIEF
  /\ App.mainPanel app' = App.EditorPanel
  /\ persona_id p = lit "id-9"
  /\ Types.name p = trim (PersonaLab.name filledLab)
  /\ Types.name p <> [].
Proof.
  intros p.
  refine (saved_persona_is_selected
            filledLab (snd (PersonaLab.handleSave (lit "id-9") 7%N
                                                  filledLab))
            twoPersonas (lit "id-9") 7%N p _ _).
  - vm_compute. reflexivity.
  - repeat constructor; intros E; vm_compute in E; discriminate E.
Defined.

End AppFacts.

Import AppFacts.
